(** * Retro AI Minesweeper: board engine, hint engine, mine placer, difficulty

    A shallow embedding of the TypeScript sources
      - [utils/gameLogic.ts]        (board model, reveal, flood fill, flags),
      - [ai/hintEngine.ts]          (safe / logical / probability hints),
      - [ai/minePlacer.ts]          (board generation),
      - [ai/difficultyAdapter.ts]   (adaptive mine count, statistics,
                                     recommendation),
      - [utils/boardUtils.ts]       (statistics and queries on a board),
      - [utils/storage.ts]          (the player statistics it keeps),
      - [components/Board/GameBoard.tsx] (the two click handlers),
    together with the properties the specification states about them and
    further properties of the code.

    Conventions of the embedding.
      - A JavaScript [number] that holds a count or a coordinate is a [Z].
      - [board.cells[r][c]] on a missing row or column makes the next field
        access throw a [TypeError]; reads and writes of cells therefore live
        in the [result] monad, whose [TypeError] constructor is that exception.
      - The [while] loop of the flood fill is run with fuel; [OutOfFuel] is the
        only trace of it and is shown never to happen on a well-formed board.
      - A quotient of two counts that the source compares against a decimal
        literal (the ratios of the difficulty adapter, the solved share of
        the solvability check) is an IEEE 754 binary64 value, computed with
        the [SpecFloat] operations of the Standard Library.
      - The probabilities of the hint engine, the scores of the mine placer,
        the progress percentage and the average time are exact rationals
        ([Q]): the properties stated about them do not depend on how a
        double rounds them. *)

From stdpp Require Import base decidable option list numbers strings pretty gmap.
From Stdlib Require Import ZArith QArith Qminmax Qround Lia Lqa SpecFloat.

Local Open Scope Z_scope.

(** ** Results of operations that can throw *)

Inductive result (A : Type) : Type :=
| Ok (a : A)
| TypeError
| OutOfFuel.
Arguments Ok {A} a.
Arguments TypeError {A}.
Arguments OutOfFuel {A}.

#[global] Instance result_ret : MRet result := fun A a => Ok a.
#[global] Instance result_bind : MBind result := fun A B k m =>
  match m with
  | Ok a => k a
  | TypeError => TypeError
  | OutOfFuel => OutOfFuel
  end.

(** [for (const x of l) acc = f(acc, x)] with a body that can throw. *)
Fixpoint foldR {A S : Type} (f : S -> A -> result S) (l : list A) (s : S) : result S :=
  match l with
  | [] => Ok s
  | x :: l' => s' ← f s x; foldR f l' s'
  end.

(** [l.map(f)] with a callback that can throw. *)
Fixpoint mapR {A B : Type} (f : A -> result B) (l : list A) : result (list B) :=
  match l with
  | [] => Ok []
  | x :: l' => y ← f x; ys ← mapR f l'; Ok (y :: ys)
  end.

(** [l.filter(f)] with a callback that can throw. *)
Fixpoint filterR {A : Type} (f : A -> result bool) (l : list A) : result (list A) :=
  match l with
  | [] => Ok []
  | x :: l' => keep ← f x; ys ← filterR f l'; Ok (if keep : bool then x :: ys else ys)
  end.

(** ** Core game types ([types/index.ts]) *)

Inductive CellState : Type := hidden | revealed | flagged | mine | exploded.

Record Position : Type := mkPosition { row : Z; col : Z }.

Record Cell : Type := mkCell {
  state : CellState;
  hasMine : bool;
  adjacentMines : Z;
  position : Position
}.

Inductive GameStatus : Type := playing | won | lost.

Record BoardState : Type := mkBoard {
  cells : list (list Cell);
  width : Z;
  height : Z;
  mineCount : Z;
  revealedCount : Z;
  flaggedCount : Z;
  gameStatus : GameStatus;
  firstClick : bool
}.

#[global] Instance CellState_eq_dec : EqDecision CellState.
Proof. solve_decision. Defined.
#[global] Instance Position_eq_dec : EqDecision Position.
Proof. solve_decision. Defined.
#[global] Instance GameStatus_eq_dec : EqDecision GameStatus.
Proof. solve_decision. Defined.

(** Field updates of the object spread [{ ...board }] followed by assignments. *)
Definition set_cells (cs : list (list Cell)) (b : BoardState) : BoardState :=
  mkBoard cs (width b) (height b) (mineCount b) (revealedCount b)
          (flaggedCount b) (gameStatus b) (firstClick b).
Definition set_mineCount (n : Z) (b : BoardState) : BoardState :=
  mkBoard (cells b) (width b) (height b) n (revealedCount b)
          (flaggedCount b) (gameStatus b) (firstClick b).
Definition set_revealedCount (n : Z) (b : BoardState) : BoardState :=
  mkBoard (cells b) (width b) (height b) (mineCount b) n
          (flaggedCount b) (gameStatus b) (firstClick b).
Definition set_flaggedCount (n : Z) (b : BoardState) : BoardState :=
  mkBoard (cells b) (width b) (height b) (mineCount b) (revealedCount b)
          n (gameStatus b) (firstClick b).
Definition set_gameStatus (s : GameStatus) (b : BoardState) : BoardState :=
  mkBoard (cells b) (width b) (height b) (mineCount b) (revealedCount b)
          (flaggedCount b) s (firstClick b).
Definition set_firstClick (f : bool) (b : BoardState) : BoardState :=
  mkBoard (cells b) (width b) (height b) (mineCount b) (revealedCount b)
          (flaggedCount b) (gameStatus b) f.

Definition set_state (s : CellState) (c : Cell) : Cell :=
  mkCell s (hasMine c) (adjacentMines c) (position c).
Definition set_hasMine (m : bool) (c : Cell) : Cell :=
  mkCell (state c) m (adjacentMines c) (position c).
Definition set_adjacentMines (n : Z) (c : Cell) : Cell :=
  mkCell (state c) (hasMine c) n (position c).

(** ** Reading and writing [cells[r][c]] *)

(** [cells[r][c]] followed by a field access. *)
Definition getCell (cs : list (list Cell)) (p : Position) : result Cell :=
  if (row p <? 0) || (col p <? 0) then TypeError
  else match cs !! Z.to_nat (row p) with
       | None => TypeError
       | Some rw =>
           match rw !! Z.to_nat (col p) with
           | None => TypeError
           | Some c => Ok c
           end
       end.

(** [cells[r][c].field = v], as the update [f] of the cell object. *)
Definition updCell (f : Cell -> Cell) (cs : list (list Cell)) (p : Position)
  : result (list (list Cell)) :=
  _ ← getCell cs p;
  Ok (alter (alter f (Z.to_nat (col p))) (Z.to_nat (row p)) cs).

Definition setState (cs : list (list Cell)) (p : Position) (s : CellState) :=
  updCell (set_state s) cs p.

(** The string key [`${row},${col}`] of a position, up to injectivity. *)
Definition posKey (p : Position) : Z * Z := (row p, col p).

(** ** [utils/gameLogic.ts] *)

(** The positions visited by [for row < height { for col < width {..} }]. *)
Definition gridPositions (h w : Z) : list Position :=
  r ← seqZ 0 h; c ← seqZ 0 w; [mkPosition r c].

Definition createEmptyBoard (w h : Z) : BoardState :=
  mkBoard
    ((fun r => (fun c => mkCell hidden false 0 (mkPosition r c)) <$> seqZ 0 w)
       <$> seqZ 0 h)
    w h 0 0 0 playing true.

Definition inBounds (b : BoardState) (r c : Z) : bool :=
  (r >=? 0) && (r <? height b) && (c >=? 0) && (c <? width b).

Definition getAdjacentPositions (b : BoardState) (p : Position) : list Position :=
  r ← seqZ (row p - 1) 3;
  c ← seqZ (col p - 1) 3;
  if inBounds b r c && negb ((r =? row p) && (c =? col p))
  then [mkPosition r c] else [].

Definition countAdjacentMines (b : BoardState) (p : Position) : result Z :=
  foldR (fun count q =>
           if inBounds b (row q) (col q)
           then if negb ((row q =? row p) && (col q =? col p))
                then c ← getCell (cells b) q;
                     Ok (if hasMine c then count + 1 else count)
                else Ok count
           else Ok count)
        (r ← seqZ (row p - 1) 3; c ← seqZ (col p - 1) 3; [mkPosition r c]) 0.

Definition calculateAdjacentMines (b : BoardState) : result BoardState :=
  foldR (fun newBoard q =>
           c ← getCell (cells newBoard) q;
           if negb (hasMine c)
           then n ← countAdjacentMines newBoard q;
                cs ← updCell (set_adjacentMines n) (cells newBoard) q;
                Ok (set_cells cs newBoard)
           else Ok newBoard)
        (gridPositions (height b) (width b)) b.

(** The guard [row < 0 || row >= height || col < 0 || col >= width]. *)
Definition outOfBounds (b : BoardState) (p : Position) : bool :=
  (row p <? 0) || (row p >=? height b) || (col p <? 0) || (col p >=? width b).

(** One pass of the body of [for (const adjPos of adjacentPositions)]. *)
Definition floodVisit (st : BoardState * list Position) (adjPos : Position)
  : result (BoardState * list Position) :=
  let '(newBoard, toReveal) := st in
  adjCell ← getCell (cells newBoard) adjPos;
  if bool_decide (state adjCell = hidden) && negb (hasMine adjCell) then
    cs ← setState (cells newBoard) adjPos revealed;
    let newBoard := set_revealedCount (revealedCount newBoard + 1)
                      (set_cells cs newBoard) in
    Ok (newBoard, if adjacentMines adjCell =? 0 then adjPos :: toReveal else toReveal)
  else Ok (newBoard, toReveal).

(** [while (toReveal.length > 0)]: the head of the list is the element
    [toReveal.pop()] returns, [push] conses. *)
Fixpoint floodFill (fuel : nat) (newBoard : BoardState) (toReveal : list Position)
    (visited : gset (Z * Z)) : result BoardState :=
  match toReveal with
  | [] => Ok newBoard
  | current :: toReveal =>
      match fuel with
      | O => OutOfFuel
      | S fuel =>
          if bool_decide (posKey current ∈ visited)
          then floodFill fuel newBoard toReveal visited
          else
            st ← foldR floodVisit (getAdjacentPositions newBoard current)
                       (newBoard, toReveal);
            floodFill fuel st.1 st.2 ({[posKey current]} ∪ visited)
      end
  end.

(** Iterations granted to the flood fill: one more than there are cells. *)
Definition floodFuel (b : BoardState) : nat := S (length (concat (cells b))).

(** The loop "Reveal all mines" of the losing branch. *)
Definition revealAllMines (b newBoard : BoardState) : result BoardState :=
  foldR (fun nb q =>
           c ← getCell (cells nb) q;
           if hasMine c && negb (bool_decide (state c = exploded))
           then cs ← setState (cells nb) q mine; Ok (set_cells cs nb)
           else Ok nb)
        (gridPositions (height b) (width b)) newBoard.

Definition revealCell (b : BoardState) (p : Position) : result BoardState :=
  if outOfBounds b p then Ok b else
  cell ← getCell (cells b) p;
  if bool_decide (state cell = revealed) || bool_decide (state cell = flagged)
  then Ok b else
  let newBoard := set_firstClick false b in
  if hasMine cell then
    cs ← setState (cells newBoard) p exploded;
    let newBoard := set_gameStatus lost (set_cells cs newBoard) in
    revealAllMines b newBoard
  else
    cs ← setState (cells newBoard) p revealed;
    let newBoard := set_revealedCount (revealedCount newBoard + 1)
                      (set_cells cs newBoard) in
    newBoard ← (if adjacentMines cell =? 0
                then floodFill (floodFuel b) newBoard [p] ∅
                else Ok newBoard);
    let totalCells := width b * height b in
    Ok (if revealedCount newBoard =? totalCells - mineCount b
        then set_gameStatus won newBoard else newBoard).

Definition toggleFlag (b : BoardState) (p : Position) : result BoardState :=
  if outOfBounds b p then Ok b else
  cell ← getCell (cells b) p;
  if bool_decide (state cell = revealed) || bool_decide (state cell = mine)
     || bool_decide (state cell = exploded)
  then Ok b else
  if bool_decide (state cell = flagged) then
    cs ← setState (cells b) p hidden;
    Ok (set_flaggedCount (flaggedCount b - 1) (set_cells cs b))
  else
    cs ← setState (cells b) p flagged;
    Ok (set_flaggedCount (flaggedCount b + 1) (set_cells cs b)).

Definition getCellsByState (b : BoardState) (s : CellState) : result (list Position) :=
  filterR (fun q => c ← getCell (cells b) q; Ok (bool_decide (state c = s)))
          (gridPositions (height b) (width b)).

(** ** [ai/hintEngine.ts] *)

Inductive MoveType : Type := safe | logical | probability.

Record HintResult : Type := mkHint {
  suggestedMove : Position;
  moveType : MoveType;
  confidence : Q;
  reasoning : string
}.

Definition Qgtb (x y : Q) : bool := negb (Qle_bool x y).
Definition Qltb (x y : Q) : bool := negb (Qle_bool y x).

(** The cell states around [p]: [adjacentPositions.map(pos => cells[..][..])]
    followed by reading [state]. *)
Definition statesAround (b : BoardState) (adj : list Position) : result (list CellState) :=
  mapR (fun q => c ← getCell (cells b) q; Ok (state c)) adj.

Definition positionsInState (b : BoardState) (s : CellState) (adj : list Position)
  : result (list Position) :=
  filterR (fun q => c ← getCell (cells b) q; Ok (bool_decide (state c = s))) adj.

(** Body of the double loop of [findSafeMoves] at one position: the
    positions it pushes onto [safeMoves]. *)
Definition safeMovesAt (b : BoardState) (p : Position) : result (list Position) :=
  cell ← getCell (cells b) p;
  if bool_decide (state cell = revealed) && (adjacentMines cell >? 0) then
    let adjacentPositions := getAdjacentPositions b p in
    adjacentStates ← statesAround b adjacentPositions;
    let flaggedCount := length (filter (fun s => s = flagged) adjacentStates) in
    hiddenCells ← positionsInState b hidden adjacentPositions;
    if (Z.of_nat flaggedCount =? adjacentMines cell) && (0 <? Z.of_nat (length hiddenCells))
    then Ok hiddenCells else Ok []
  else Ok [].

(** [removeDuplicatePositions]: the first occurrence of each key is kept. *)
Fixpoint removeDuplicatesFrom (seen : gset (Z * Z)) (positions : list Position)
  : list Position :=
  match positions with
  | [] => []
  | pos :: rest =>
      if bool_decide (posKey pos ∈ seen) then removeDuplicatesFrom seen rest
      else pos :: removeDuplicatesFrom ({[posKey pos]} ∪ seen) rest
  end.
Definition removeDuplicatePositions (positions : list Position) : list Position :=
  removeDuplicatesFrom ∅ positions.

Definition findSafeMoves (b : BoardState) : result (list Position) :=
  safeMoves ← foldR (fun acc q => ms ← safeMovesAt b q; Ok (acc ++ ms))
                    (gridPositions (height b) (width b)) [];
  Ok (removeDuplicatePositions safeMoves).

(** Body of the double loop of [findLogicalMoves]: nothing is pushed, the
    branch that detects certain mines ends in [continue]. *)
Definition logicalMovesAt (b : BoardState) (p : Position) (logicalMoves : list Position)
  : result (list Position) :=
  cell ← getCell (cells b) p;
  if bool_decide (state cell = revealed) && (adjacentMines cell >? 0) then
    let adjacentPositions := getAdjacentPositions b p in
    adjacentStates ← statesAround b adjacentPositions;
    let flaggedCount := length (filter (fun s => s = flagged) adjacentStates) in
    hiddenPositions ← positionsInState b hidden adjacentPositions;
    if (Z.of_nat flaggedCount + Z.of_nat (length hiddenPositions) =? adjacentMines cell)
       && (0 <? Z.of_nat (length hiddenPositions))
    then Ok logicalMoves (* continue *)
    else Ok logicalMoves
  else Ok logicalMoves.

Definition findLogicalMoves (b : BoardState) : result (list Position) :=
  foldR (fun acc q => logicalMovesAt b q acc) (gridPositions (height b) (width b)) [].

(** One pass of [for (const adjPos of adjacentPositions)] in
    [calculateSafeProbability]; the state is
    [(totalConstraints, totalMinesNeeded)].

    The probabilities are exact rationals here, where the source adds,
    divides and sorts doubles: two cells whose probabilities differ by less
    than a rounding error can rank the other way round in the source, and
    the percentage of the hint text can differ by one.  What is stated about
    them below holds of either: which cells are ranked, that each carries
    the probability computed for it, that no probability is ranked above a
    larger one. *)
Definition constraintAt (b : BoardState) (st : Z * Q) (adjPos : Position) : result (Z * Q) :=
  adjCell ← getCell (cells b) adjPos;
  if bool_decide (state adjCell = revealed) && (adjacentMines adjCell >? 0) then
    let adjAdjacent := getAdjacentPositions b adjPos in
    flaggedPositions ← positionsInState b flagged adjAdjacent;
    hiddenPositions ← positionsInState b hidden adjAdjacent;
    let flaggedCount := Z.of_nat (length flaggedPositions) in
    let hiddenCount := Z.of_nat (length hiddenPositions) in
    if hiddenCount >? 0
    then Ok (st.1 + 1,
             (st.2 + inject_Z (adjacentMines adjCell - flaggedCount) / inject_Z hiddenCount)%Q)
    else Ok st
  else Ok st.

Definition calculateSafeProbability (b : BoardState) (p : Position) : result Q :=
  st ← foldR (constraintAt b) (getAdjacentPositions b p) (0, 0%Q);
  let '(totalConstraints, totalMinesNeeded) := st in
  if totalConstraints =? 0 then
    let totalCells := width b * height b in
    let remainingCells := totalCells - revealedCount b - flaggedCount b in
    let remainingMines := mineCount b - flaggedCount b in
    Ok (if remainingCells >? 0
        then (1 - inject_Z remainingMines / inject_Z remainingCells)%Q
        else 0%Q)
  else
    let avgMineProbability := (totalMinesNeeded / inject_Z totalConstraints)%Q in
    Ok (Qmax 0 (Qmin 1 (1 - avgMineProbability)))%Q.

(** [xs.sort((a, b) => key(b) - key(a))]: a stable sort, largest key first. *)
Fixpoint insertDescending {A : Type} (key : A -> Q) (x : A) (l : list A) : list A :=
  match l with
  | [] => [x]
  | y :: l' => if Qle_bool (key y) (key x) then x :: y :: l'
               else y :: insertDescending key x l'
  end.
Definition sortDescending {A : Type} (key : A -> Q) (l : list A) : list A :=
  foldr (insertDescending key) [] l.

Definition findProbabilityMoves (b : BoardState) : result (list (Position * Q)) :=
  hiddenCells ← getCellsByState b hidden;
  probabilityMoves ← mapR (fun q => pr ← calculateSafeProbability b q; Ok (q, pr))
                          hiddenCells;
  Ok (sortDescending snd probabilityMoves).

Definition calculateInformationGain (b : BoardState) (p : Position) : result Z :=
  cell ← getCell (cells b) p;
  if adjacentMines cell =? 0 then Ok 10
  else
    hiddenAdjacent ← positionsInState b hidden (getAdjacentPositions b p);
    Ok (Z.of_nat (length hiddenAdjacent)).

(** Called on a non-empty list only ([analyzeBoard] checks the length); on
    an empty one the source hands back [undefined], which the caller's next
    read would trip over. *)
Definition selectBestSafeMove (b : BoardState) (safeMoves : list Position)
  : result Position :=
  match safeMoves with
  | [] => TypeError
  | [only] => Ok only
  | first :: _ =>
      st ← foldR (fun st move =>
                    informationGain ← calculateInformationGain b move;
                    Ok (if informationGain >? st.2 then (move, informationGain) else st))
                 safeMoves (first, 0);
      Ok st.1
  end.

Definition selectBestLogicalMove (b : BoardState) (logicalMoves : list Position)
  : result Position :=
  match logicalMoves with
  | [] => TypeError
  | first :: _ => Ok first
  end.

(** Decimal rendering of an integer inside a template string. *)
Definition showZ (z : Z) : string := pretty z.

(** The first adjacent clue whose mines are all flagged, if any: the search
    loop of [explainSafeMove]. *)
Fixpoint explainFrom (b : BoardState) (adj : list Position) : result string :=
  match adj with
  | [] => Ok "This cell is safe based on logical deduction from surrounding numbers."%string
  | adjPos :: rest =>
      adjCell ← getCell (cells b) adjPos;
      if bool_decide (state adjCell = revealed) && (adjacentMines adjCell >? 0) then
        flaggedPositions ← positionsInState b flagged (getAdjacentPositions b adjPos);
        if Z.of_nat (length flaggedPositions) =? adjacentMines adjCell
        then Ok ("This cell is safe because the " +:+ showZ (adjacentMines adjCell)
                 +:+ " at (" +:+ showZ (row adjPos + 1) +:+ ", "
                 +:+ showZ (col adjPos + 1)
                 +:+ ") already has all its mines flagged.")%string
        else explainFrom b rest
      else explainFrom b rest
  end.

Definition explainSafeMove (b : BoardState) (p : Position) : result string :=
  explainFrom b (getAdjacentPositions b p).

Definition explainLogicalMove (b : BoardState) (p : Position) : string :=
  "This cell can be determined through logical deduction from the surrounding numbered cells."%string.

(** [Math.round(x)] on an exact rational. *)
Definition roundQ (x : Q) : Z := Qfloor (x + (1 # 2))%Q.

Definition analyzeBoard (b : BoardState) : result (option HintResult) :=
  if negb (bool_decide (gameStatus b = playing)) || firstClick b then Ok None else
  safeMoves ← findSafeMoves b;
  if 0 <? Z.of_nat (length safeMoves) then
    bestMove ← selectBestSafeMove b safeMoves;
    why ← explainSafeMove b bestMove;
    Ok (Some (mkHint bestMove safe 1%Q why))
  else
  logicalMoves ← findLogicalMoves b;
  if 0 <? Z.of_nat (length logicalMoves) then
    bestMove ← selectBestLogicalMove b logicalMoves;
    Ok (Some (mkHint bestMove logical (9 # 10)%Q (explainLogicalMove b bestMove)))
  else
  probabilityMoves ← findProbabilityMoves b;
  match probabilityMoves with
  | bestMove :: _ =>
      Ok (Some (mkHint bestMove.1 probability bestMove.2
                  ("This cell has a " +:+ showZ (roundQ (bestMove.2 * 100)%Q)
                   +:+ "% chance of being safe based on probability analysis.")%string))
  | [] => Ok None
  end.

(** ** The random source

    [Math.random()] yields a number in [[0, 1)].  The source of randomness is
    the list of the draws still to come (an exhausted list keeps answering
    [0]); whatever rational stands in the list, only its fractional part is
    used, so every draw lies in [[0, 1)]. *)

Definition Rng : Type := list Q.

Definition fracQ (q : Q) : Q := (q - inject_Z (Qfloor q))%Q.

Definition random (g : Rng) : Q * Rng :=
  match g with
  | [] => (0%Q, [])
  | q :: g' => (fracQ q, g')
  end.

(** [Math.floor(Math.random() * n)] *)
Definition randomIndex (n : nat) (g : Rng) : nat * Rng :=
  let '(x, g') := random g in
  (Z.to_nat (Qfloor (x * inject_Z (Z.of_nat n))%Q), g').

(** [[...l].sort(() => Math.random() - 0.5)].  With a comparator that answers
    at random the order the engine's sort ends in is implementation defined;
    what is kept is that the outcome is a rearrangement of [l] picked by the
    random source: each next element is drawn among those left. *)
Fixpoint shuffleFrom {A : Type} (n : nat) (l : list A) (g : Rng) : list A * Rng :=
  match n with
  | O => (l, g)
  | S n' =>
      let '(i, g') := randomIndex (length l) g in
      match l !! i with
      | Some x => let '(rest, g'') := shuffleFrom n' (delete i l) g' in (x :: rest, g'')
      | None => (l, g')
      end
  end.
Definition shuffle {A : Type} (l : list A) (g : Rng) : list A * Rng :=
  shuffleFrom (length l) l g.

(** [Math.abs(row - safeZone.row) <= 1 && Math.abs(col - safeZone.col) <= 1] *)
Definition isInSafeZone (safeZone : Position) (r c : Z) : bool :=
  (Z.abs (r - row safeZone) <=? 1) && (Z.abs (c - col safeZone) <=? 1).

(** "Collect all available positions (excluding safe zone)", the same double
    loop in [placeMines] and in [createBoardWithMines]. *)
Definition isAvailable (safeZone : option Position) (q : Position) : bool :=
  match safeZone with
  | Some sz => negb (isInSafeZone sz (row q) (col q))
  | None => true
  end.
Definition collectAvailable (h w : Z) (safeZone : option Position) : list Position :=
  filter (fun q => isAvailable safeZone q = true) (gridPositions h w).

Definition placeMines (b : BoardState) (mines : Z) (safeZone : option Position)
    (g : Rng) : result (BoardState * Rng) :=
  let newBoard := set_mineCount mines b in
  let availablePositions := collectAvailable (height b) (width b) safeZone in
  let minesToPlace := Z.min mines (Z.of_nat (length availablePositions)) in
  let '(shuffled, g') := shuffle availablePositions g in
  newBoard ← foldR (fun nb q => cs ← updCell (set_hasMine true) (cells nb) q;
                                Ok (set_cells cs nb))
                   (take (Z.to_nat minesToPlace) shuffled) newBoard;
  newBoard ← calculateAdjacentMines newBoard;
  Ok (newBoard, g').

(** ** JavaScript numbers in ratios

    Where the source divides two counts and compares the quotient against a
    decimal literal, the quotient is an IEEE 754 binary64 value: a
    [spec_float] at precision 53 and exponent bound 1024, whose operations
    round to nearest, ties to even. *)
Definition number : Type := spec_float.

(** The number that holds the integer [z] (every integer up to [2^53] in
    absolute value is held exactly). *)
Definition numberOfZ (z : Z) : number := binary_normalize 53 1024 z 0 false.

(** [x / y] and [x * y]; a division by zero gives an infinity or [NaN]. *)
Definition numDiv (x y : number) : number := SFdiv 53 1024 x y.
Definition numMul (x y : number) : number := SFmul 53 1024 x y.

(** [x > y] and [x < y]; both are false when a side is [NaN]. *)
Definition numGt (x y : number) : bool := SFltb y x.
Definition numLt (x y : number) : bool := SFltb x y.

(** [Math.floor] of a finite number, as the integer it holds: the mantissa
    shifted by the exponent, an arithmetic shift rounding towards minus
    infinity.  The one call of the source floors a product of two finite
    positive numbers; an infinity or [NaN] is mapped to 0 here. *)
Definition Math_floor (x : number) : Z :=
  match x with
  | S754_finite s m e => Z.shiftl (if s then Z.neg m else Z.pos m) e
  | _ => 0
  end.

(** The decimal literals of the source, each the double nearest to it:
    [0x1.999999999999ap-1], [0x1.6666666666666p-1], [0x1.3333333333333p-1],
    [0x1p-1] and [0x1.3333333333333p-2]. *)
Definition lit_0_8 : number := S754_finite false 7205759403792794 (-53).
Definition lit_0_7 : number := S754_finite false 6305039478318694 (-53).
Definition lit_0_6 : number := S754_finite false 5404319552844595 (-53).
Definition lit_0_5 : number := S754_finite false 4503599627370496 (-53).
Definition lit_0_3 : number := S754_finite false 5404319552844595 (-54).

(** [x / y > t] on the numbers holding the integers [x] and [y]. *)
Definition jsQuotientGt (x y : Z) (t : number) : bool :=
  numGt (numDiv (numberOfZ x) (numberOfZ y)) t.

(** ** [ai/minePlacer.ts] *)

Module IntelligentMinePlacer.
Section Placer.

(** [Math.sqrt] on doubles is left uninterpreted. *)
Variable Math_sqrt : Q -> Q.

Definition euclideanDistance (pos1 pos2 : Position) : Q :=
  let dx := col pos1 - col pos2 in
  let dy := row pos1 - row pos2 in
  Math_sqrt (inject_Z (dx * dx + dy * dy)).

Definition calculateEdgePenalty (p : Position) (w h : Z) : Q :=
  ((if (row p =? 0) || (row p =? h - 1) then 1 # 2 else 0)
   + (if (col p =? 0) || (col p =? w - 1) then 1 # 2 else 0))%Q.

Definition calculatePositionScore (p : Position) (placedMines : list Position)
    (w h : Z) (g : Rng) : Q * Rng :=
  let score := foldl (fun s m => (s + euclideanDistance p m)%Q) 0%Q placedMines in
  let score := (score - calculateEdgePenalty p w h)%Q in
  let '(x, g') := random g in
  ((score + x * 2)%Q, g').

(** [availablePositions.map(pos => ({ position: pos, score: .. }))] *)
Fixpoint scorePositions (available placedMines : list Position) (w h : Z) (g : Rng)
  : list (Position * Q) * Rng :=
  match available with
  | [] => ([], g)
  | pos :: rest =>
      let '(s, g') := calculatePositionScore pos placedMines w h g in
      let '(scored, g'') := scorePositions rest placedMines w h g' in
      ((pos, s) :: scored, g'')
  end.

Definition selectMinePosition (available placedMines : list Position) (w h : Z)
    (g : Rng) : result (option Position * Rng) :=
  if bool_decide (length available = 0%nat) then Ok (None, g) else
  if bool_decide (length placedMines = 0%nat) then
    let '(randomIdx, g') := randomIndex (length available) g in
    Ok (available !! randomIdx, g')
  else
    let '(scoredPositions, g') := scorePositions available placedMines w h g in
    let sorted := sortDescending snd scoredPositions in
    let topCandidates := take (Nat.min 5 (length sorted)) sorted in
    let '(randomIdx, g'') := randomIndex (length topCandidates) g' in
    match topCandidates !! randomIdx with
    | Some cand => Ok (Some cand.1, g'')
    | None => TypeError
    end.

(** [findIndex] of the position followed by [splice(index, 1)]. *)
Fixpoint removePosition (p : Position) (available : list Position) : list Position :=
  match available with
  | [] => []
  | q :: rest =>
      if (row q =? row p) && (col q =? col p) then rest
      else q :: removePosition p rest
  end.

Definition countAdjacentMines (b : BoardState) (p : Position) : result Z :=
  foldR (fun count adjPos =>
           c ← getCell (cells b) adjPos;
           Ok (if hasMine c then count + 1 else count))
        (getAdjacentPositions b p) 0.

(** Works in place on the board it is given. *)
Definition calculateAdjacentMines (b : BoardState) : result BoardState :=
  foldR (fun board q =>
           c ← getCell (cells board) q;
           if negb (hasMine c)
           then n ← countAdjacentMines board q;
                cs ← updCell (set_adjacentMines n) (cells board) q;
                Ok (set_cells cs board)
           else Ok board)
        (gridPositions (height b) (width b)) b.

(** Loop state of "Place mines with anti-clustering logic". *)
Record Placing : Type := mkPlacing {
  pl_board : BoardState;
  pl_available : list Position;
  pl_placed : list Position;
  pl_rng : Rng
}.

Definition placeOne (w h : Z) (st : Placing) (i : nat) : result Placing :=
  sel ← selectMinePosition (pl_available st) (pl_placed st) w h (pl_rng st);
  match sel.1 with
  | Some pos =>
      cs ← updCell (set_hasMine true) (cells (pl_board st)) pos;
      Ok (mkPlacing (set_cells cs (pl_board st))
                    (removePosition pos (pl_available st))
                    (pl_placed st ++ [pos])
                    sel.2)
  | None => Ok (mkPlacing (pl_board st) (pl_available st) (pl_placed st) sel.2)
  end.

Definition createBoardWithMines (w h mines : Z) (safeZone : option Position)
    (g : Rng) : result (BoardState * Rng) :=
  let board := createEmptyBoard w h in
  let availablePositions := collectAvailable h w safeZone in
  let minesToPlace := Z.min mines (Z.of_nat (length availablePositions)) in
  st ← foldR (placeOne w h) (seq 0 (Z.to_nat minesToPlace))
             (mkPlacing board availablePositions [] g);
  let board := set_mineCount (Z.of_nat (length (pl_placed st))) (pl_board st) in
  board ← calculateAdjacentMines board;
  Ok (board, pl_rng st).

Definition cloneBoard (b : BoardState) : BoardState := b.

(** Body of [for (const move of safeMoves)] in [validateSolvability]; the
    state is [(testBoard, progress)]. *)
Definition simulateReveal (st : BoardState * bool) (move : Position)
  : result (BoardState * bool) :=
  c ← getCell (cells st.1) move;
  if bool_decide (state c = hidden) then
    cs ← setState (cells st.1) move revealed;
    Ok (set_revealedCount (revealedCount st.1 + 1) (set_cells cs st.1), true)
  else Ok st.

(** [while (progress && iterations < maxIterations)], counting the
    iterations left.  [None] is the early [return true]; [Some testBoard]
    is the board the loop is left with. *)
Fixpoint solveLoop (iterationsLeft : nat) (testBoard : BoardState) (progress : bool)
  : result (option BoardState) :=
  match iterationsLeft with
  | O => Ok (Some testBoard)
  | S n =>
      if progress then
        safeMoves ← findSafeMoves testBoard;
        st ← (if 0 <? Z.of_nat (length safeMoves)
              then foldR simulateReveal safeMoves (testBoard, false)
              else Ok (testBoard, false));
        let totalCells := width st.1 * height st.1 in
        if revealedCount st.1 >=? totalCells - mineCount st.1
        then Ok None
        else solveLoop n st.1 st.2
      else Ok (Some testBoard)
  end.

Definition validateSolvability (b : BoardState) : result bool :=
  out ← solveLoop 100 (cloneBoard b) true;
  match out with
  | None => Ok true
  | Some testBoard =>
      Ok (jsQuotientGt (revealedCount testBoard)
                       (width testBoard * height testBoard - mineCount testBoard)
                       lit_0_7)
  end.

Definition optimizeMineDistribution (b : BoardState) : BoardState := b.

(** [while (attempts < maxAttempts)], counting the attempts left; [None]
    when they are used up. *)
Fixpoint attemptBoards (attemptsLeft : nat) (w h mines : Z)
    (safeZone : option Position) (g : Rng) : result (option BoardState * Rng) :=
  match attemptsLeft with
  | O => Ok (None, g)
  | S n =>
      bg ← createBoardWithMines w h mines safeZone g;
      solvable ← validateSolvability bg.1;
      if solvable : bool then Ok (Some (optimizeMineDistribution bg.1), bg.2)
      else attemptBoards n w h mines safeZone bg.2
  end.

Definition generateBoard (w h mines : Z) (safeZone : option Position) (g : Rng)
  : result (BoardState * Rng) :=
  out ← attemptBoards 50 w h mines safeZone g;
  match out.1 with
  | Some board => Ok (board, out.2)
  | None => placeMines (createEmptyBoard w h) mines safeZone out.2
  end.

End Placer.
End IntelligentMinePlacer.

(** ** [ai/difficultyAdapter.ts] *)

Inductive DifficultyLevel : Type := beginner | intermediate | expert.

Record PlayerStats : Type := mkStats {
  gamesPlayed : Z;
  gamesWon : Z;
  averageTime : Q;
  hintsUsed : Z;
  currentStreak : Z;
  preferredDifficulty : DifficultyLevel
}.

Record DifficultySettings : Type := mkSettings {
  baseWidth : Z;
  baseHeight : Z;
  baseMines : Z;
  maxMines : Z
}.

Definition difficultySettings (d : DifficultyLevel) : DifficultySettings :=
  match d with
  | beginner => mkSettings 9 9 10 15
  | intermediate => mkSettings 16 16 40 60
  | expert => mkSettings 30 16 99 150
  end.

Inductive Trend : Type := improving | declining | stable.

#[global] Instance Trend_eq_dec : EqDecision Trend.
Proof. solve_decision. Defined.

Definition analyzeRecentPerformance (s : PlayerStats) : Trend * number :=
  if currentStreak s >? 2 then (improving, lit_0_8)
  else if currentStreak s <? -2 then (declining, lit_0_8)
  else (stable, lit_0_6).

Definition calculateMineCount (s : PlayerStats) : Z :=
  let settings := difficultySettings (preferredDifficulty s) in
  if gamesPlayed s <? 3 then baseMines settings else
  let winRate := numDiv (numberOfZ (gamesWon s)) (numberOfZ (gamesPlayed s)) in
  let recentPerformance := analyzeRecentPerformance s in
  let adjustment := 0 in
  let adjustment :=
    if numGt winRate lit_0_8 then adjustment + 3
    else if numGt winRate lit_0_6 then adjustment + 1
    else if numLt winRate lit_0_3 then adjustment - 3
    else if numLt winRate lit_0_5 then adjustment - 1
    else adjustment in
  let adjustment :=
    if bool_decide (recentPerformance.1 = improving) && numGt recentPerformance.2 lit_0_7
    then adjustment + 1
    else if bool_decide (recentPerformance.1 = declining) && numGt recentPerformance.2 lit_0_7
    then adjustment - 1
    else adjustment in
  let adjustment :=
    if currentStreak s >=? 5 then adjustment + 2
    else if currentStreak s <=? -3 then adjustment - 2
    else adjustment in
  let avgHintsPerGame := numDiv (numberOfZ (hintsUsed s)) (numberOfZ (gamesPlayed s)) in
  let adjustment :=
    if numGt avgHintsPerGame (numberOfZ 3) then adjustment - 1 else adjustment in
  Z.max (Math_floor (numMul (numberOfZ (baseMines settings)) lit_0_7))
        (Z.min (maxMines settings) (baseMines settings + adjustment)).

(** ** Vocabulary of the properties *)

(** The shape every board built by [createEmptyBoard] has and every operation
    keeps: [height] rows of [width] cells.  On such a board no read of an
    in-bounds cell throws. *)
Definition well_formed (b : BoardState) : Prop :=
  length (cells b) = Z.to_nat (height b) ∧
  Forall (fun rw => length rw = Z.to_nat (width b)) (cells b).

(** Number of cells in state [hidden]; it bounds the work of the flood fill. *)
Definition hiddenCount (cs : list (list Cell)) : nat :=
  length (filter (fun c => state c = hidden) (concat cs)).

(** The fields of a board the flood fill leaves alone. *)
Definition sameFrame (b b' : BoardState) : Prop :=
  width b' = width b ∧ height b' = height b ∧ mineCount b' = mineCount b ∧
  flaggedCount b' = flaggedCount b ∧ gameStatus b' = gameStatus b.

(** A cell the flood fill expands through: [hidden], without a mine, with
    clue [0]. *)
Definition zeroOpen (b : BoardState) (q : Position) : Prop :=
  ∃ c, getCell (cells b) q = Ok c ∧
       state c = hidden ∧ hasMine c = false ∧ adjacentMines c = 0.

(** The region flooded from [t]: what can be reached from [t] by steps to an
    adjacent cell that is [zeroOpen] on the board [b] the reveal started on. *)
Inductive floodRegion (b : BoardState) (t : Position) : Position -> Prop :=
| flood_seed : floodRegion b t t
| flood_step q q' :
    floodRegion b t q → q' ∈ getAdjacentPositions b q → zeroOpen b q' →
    floodRegion b t q'.

(** The cells a reveal at [t] turns to [revealed]: [t] itself and the
    [hidden] cells without a mine that touch the flooded region. *)
Definition revealedBy (b : BoardState) (t q : Position) (c : Cell) : Prop :=
  q = t ∨
  (state c = hidden ∧ hasMine c = false ∧
   ∃ r, floodRegion b t r ∧ q ∈ getAdjacentPositions b r).

(** A cell the inner loop of the flood fill has nothing left to do with. *)
Definition settled (nb : BoardState) (q : Position) : Prop :=
  ∀ c, getCell (cells nb) q = Ok c → ¬ (state c = hidden ∧ hasMine c = false).

(** Invariant of the flood fill started at [t] on [b]: [nb] is the board being
    updated, [pending] the stack, [visited] the keys already expanded. *)
Record FloodInv (b : BoardState) (t : Position) (nb : BoardState)
    (pending : list Position) (visited : gset (Z * Z)) : Prop := mkFloodInv {
  fi_frame : sameFrame b nb;
  fi_shape : well_formed nb;
  fi_cells : ∀ q c, getCell (cells b) q = Ok c →
    (getCell (cells nb) q = Ok c ∧ q ≠ t ∧
     (state c = hidden → hasMine c = false →
      ∀ r, posKey r ∈ visited → q ∉ getAdjacentPositions b r))
    ∨ (getCell (cells nb) q = Ok (set_state revealed c) ∧ revealedBy b t q c ∧
       (adjacentMines c = 0 → posKey q ∈ visited ∨ q ∈ pending));
  fi_region : ∀ r, posKey r ∈ visited ∨ r ∈ pending → floodRegion b t r
}.

(** What the loop "Reveal all mines" does to one cell. *)
Definition showMine (c : Cell) : Cell :=
  if hasMine c && negb (bool_decide (state c = exploded)) then set_state mine c else c.

(** How one cell can change in a reveal that ends on board [b']. *)
Definition revealStep (b' : BoardState) (c c' : Cell) : Prop :=
  c' = c ∨
  (c' = set_state revealed c ∧ hasMine c = false) ∨
  (gameStatus b' = lost ∧ hasMine c = true ∧
   (c' = set_state mine c ∨ c' = set_state exploded c)).

(** How one cell can change in a flag toggle. *)
Definition flagStep (c c' : Cell) : Prop :=
  c' = c ∨
  (state c = hidden ∧ c' = set_state flagged c) ∨
  (state c = flagged ∧ c' = set_state hidden c).

(** The two operations a player has, and sequences of them. *)
Inductive Op : Type :=
| Reveal (p : Position)
| ToggleFlag (p : Position).

Definition applyOp (b : BoardState) (o : Op) : result BoardState :=
  match o with
  | Reveal p => revealCell b p
  | ToggleFlag p => toggleFlag b p
  end.

Definition runOps (ops : list Op) (b : BoardState) : result BoardState :=
  foldR applyOp ops b.

(** A small game used in the examples: the 1 x 4 board [generateBoard] builds
    around a first click at (0,0) when the random source is exhausted; the
    mine sits at (0,2). *)
Definition sampleBoard : BoardState :=
  mkBoard [[mkCell hidden false 0 (mkPosition 0 0);
            mkCell hidden false 1 (mkPosition 0 1);
            mkCell hidden true 0 (mkPosition 0 2);
            mkCell hidden false 1 (mkPosition 0 3)]]
          4 1 1 0 0 playing true.

(** The region of the flood-fill property as the specification words it:
    connected through zero-clue cells without a mine, whatever their state. *)
Definition zeroClue (b : BoardState) (q : Position) : Prop :=
  ∃ c, getCell (cells b) q = Ok c ∧ hasMine c = false ∧ adjacentMines c = 0.

Inductive zeroClueRegion (b : BoardState) (t : Position) : Position -> Prop :=
| zero_seed : zeroClueRegion b t t
| zero_step q q' :
    zeroClueRegion b t q → q' ∈ getAdjacentPositions b q → zeroClue b q' →
    zeroClueRegion b t q'.

(** A second small game: the 1 x 6 board [generateBoard] builds around a first
    click at (0,4) when the random source is exhausted (mine at (0,0)), with
    the cell (0,3) flagged by the player. *)
Definition sampleStrip : BoardState :=
  mkBoard [[mkCell hidden true 0 (mkPosition 0 0);
            mkCell hidden false 1 (mkPosition 0 1);
            mkCell hidden false 0 (mkPosition 0 2);
            mkCell flagged false 0 (mkPosition 0 3);
            mkCell hidden false 0 (mkPosition 0 4);
            mkCell hidden false 0 (mkPosition 0 5)]]
          6 1 1 0 1 playing true.

(** The state and the mine of the cell at [q], for positions whose read
    does not throw. *)
Definition stateAt (b : BoardState) (q : Position) : CellState :=
  match getCell (cells b) q with
  | Ok c => state c
  | _ => hidden
  end.

Definition mineAt (b : BoardState) (q : Position) : bool :=
  match getCell (cells b) q with
  | Ok c => hasMine c
  | _ => false
  end.

(** The number of mines around [q] in the true layout. *)
Definition mineNeighbours (b : BoardState) (q : Position) : Z :=
  Z.of_nat (length (filter (fun r => mineAt b r = true) (getAdjacentPositions b q))).

(** Every cell without a mine carries the number of mines around it. *)
Definition cluesCorrect (b : BoardState) : Prop :=
  ∀ q c, getCell (cells b) q = Ok c → hasMine c = false →
         adjacentMines c = mineNeighbours b q.

(** No revealed cell holds a mine. *)
Definition revealedSafe (b : BoardState) : Prop :=
  ∀ q c, getCell (cells b) q = Ok c → state c = revealed → hasMine c = false.

(** The player has flagged mines only. *)
Definition flagsOnMines (b : BoardState) : Prop :=
  ∀ q c, getCell (cells b) q = Ok c → state c = flagged → hasMine c = true.

(** While the game is on, no cell shows [mine] or [exploded]. *)
Definition minesConcealed (b : BoardState) : Prop :=
  gameStatus b = playing →
  ∀ q c, getCell (cells b) q = Ok c →
         state c = hidden ∨ state c = revealed ∨ state c = flagged.

(** Boards a game can be on: generated by [generateBoard] (for some square
    root function and some random source), then played with [revealCell]
    and [toggleFlag]. *)
Inductive reachable (Math_sqrt : Q -> Q) : BoardState -> Prop :=
| reach_generate w h mines safeZone g b g' :
    IntelligentMinePlacer.generateBoard Math_sqrt w h mines safeZone g = Ok (b, g') →
    reachable Math_sqrt b
| reach_reveal b p b' :
    reachable Math_sqrt b → revealCell b p = Ok b' → reachable Math_sqrt b'
| reach_flag b p b' :
    reachable Math_sqrt b → toggleFlag b p = Ok b' → reachable Math_sqrt b'.

(** The 3 x 3 square around [p], and the test that keeps its in-bounds
    cells other than [p]. *)
Definition squareAround (p : Position) : list Position :=
  r ← seqZ (row p - 1) 3; c ← seqZ (col p - 1) 3; [mkPosition r c].

Definition isNeighbour (b : BoardState) (p q : Position) : bool :=
  inBounds b (row q) (col q) && negb ((row q =? row p) && (col q =? col p)).

(** What computing the clues does to one cell. *)
Definition withClue (b0 : BoardState) (q : Position) (c : Cell) : Cell :=
  if hasMine c then c else set_adjacentMines (mineNeighbours b0 q) c.

(** [nb] is [b0] with mines laid on some cells outside the safe zone. *)
Definition sown (safeZone : option Position) (b0 nb : BoardState) : Prop :=
  nb = set_cells (cells nb) b0 ∧ well_formed nb ∧
  ∀ q c, getCell (cells b0) q = Ok c →
    ∃ c', getCell (cells nb) q = Ok c' ∧
          (c' = c ∨ (c' = set_hasMine true c ∧ isAvailable safeZone q = true)).

(** What a generated board looks like: every cell hidden, mines outside the
    safe zone only, clues computed. *)
Definition minedFrom (safeZone : option Position) (b : BoardState) : Prop :=
  well_formed b ∧ gameStatus b = playing ∧ cluesCorrect b ∧
  ∀ q c, getCell (cells b) q = Ok c →
    state c = hidden ∧ (hasMine c = true → isAvailable safeZone q = true).

(** A decidable form of [flagsOnMines]. *)
Definition flagsOnMinesb (b : BoardState) : bool :=
  forallb (forallb (fun c => implb (bool_decide (state c = flagged)) (hasMine c)))
          (cells b).

(** The sample game after a first click on the mine at (0,2): lost. *)
Definition sampleLost : BoardState :=
  mkBoard [[mkCell hidden false 0 (mkPosition 0 0);
            mkCell hidden false 1 (mkPosition 0 1);
            mkCell exploded true 0 (mkPosition 0 2);
            mkCell hidden false 1 (mkPosition 0 3)]]
          4 1 1 0 0 lost false.

(** The sample game after a first click at (0,0), which opens (0,0) and
    (0,1): one safe cell is left. *)
Definition sampleOpened : BoardState :=
  mkBoard [[mkCell revealed false 0 (mkPosition 0 0);
            mkCell revealed false 1 (mkPosition 0 1);
            mkCell hidden true 0 (mkPosition 0 2);
            mkCell hidden false 1 (mkPosition 0 3)]]
          4 1 1 2 0 playing false.

(** The sample game after a reveal at (0,1) and a flag on the mine. *)
Definition sampleFlagged : BoardState :=
  mkBoard [[mkCell hidden false 0 (mkPosition 0 0);
            mkCell revealed false 1 (mkPosition 0 1);
            mkCell flagged true 0 (mkPosition 0 2);
            mkCell hidden false 1 (mkPosition 0 3)]]
          4 1 1 1 1 playing false.

(** The two ratios of the adapter: the share of games won and the hints
    used per game, each the quotient of two counts as a double computes
    it. *)
Definition winRate (s : PlayerStats) : number :=
  numDiv (numberOfZ (gamesWon s)) (numberOfZ (gamesPlayed s)).

Definition hintsPerGame (s : PlayerStats) : number :=
  numDiv (numberOfZ (hintsUsed s)) (numberOfZ (gamesPlayed s)).

(** The adjustments of [calculateMineCount] as the specification words them:
    win-rate bands (above 0.8: +3, above 0.6: +1, below 0.3: -3, below 0.5:
    -1), recent trend (streak above 2: +1, below -2: -1), long streaks (at
    least 5: +2, at most -3: -2), hint overuse (more than 3 hints a game:
    -1). *)
Definition winRateAdjustment (s : PlayerStats) : Z :=
  if numGt (winRate s) lit_0_8 then 3
  else if numGt (winRate s) lit_0_6 then 1
  else if numLt (winRate s) lit_0_3 then -3
  else if numLt (winRate s) lit_0_5 then -1
  else 0.

(** The same bands on the exact ratio [gamesWon / gamesPlayed], for a
    positive number of games. *)
Definition exactWinRateAdjustment (s : PlayerStats) : Z :=
  if 10 * gamesWon s >? 8 * gamesPlayed s then 3
  else if 10 * gamesWon s >? 6 * gamesPlayed s then 1
  else if 10 * gamesWon s <? 3 * gamesPlayed s then -3
  else if 10 * gamesWon s <? 5 * gamesPlayed s then -1
  else 0.

(** Whether the two agree for every number of games from 1 to [n] and every
    number of wins among them. *)
Definition winRateBandsAgree (n : Z) : bool :=
  forallb (fun played =>
    forallb (fun won =>
      let s := mkStats played won 0 0 0 beginner in
      winRateAdjustment s =? exactWinRateAdjustment s)
      (seqZ 0 (played + 1)))
    (seqZ 1 n).

Definition trendAdjustment (s : PlayerStats) : Z :=
  if currentStreak s >? 2 then 1
  else if currentStreak s <? -2 then -1
  else 0.

Definition streakAdjustment (s : PlayerStats) : Z :=
  if currentStreak s >=? 5 then 2
  else if currentStreak s <=? -3 then -2
  else 0.

Definition hintAdjustment (s : PlayerStats) : Z :=
  if numGt (hintsPerGame s) (numberOfZ 3) then -1 else 0.

Definition totalAdjustment (s : PlayerStats) : Z :=
  winRateAdjustment s + trendAdjustment s + streakAdjustment s + hintAdjustment s.

(** ** Further vocabulary *)

(** [isValidPosition] of [utils/gameLogic.ts]. *)
Definition isValidPosition (b : BoardState) (p : Position) : bool :=
  (row p >=? 0) && (row p <? height b) && (col p >=? 0) && (col p <? width b).

(** Number of cells of the grid that hold a mine, and that are in state
    [s]. *)
Definition minesOnBoard (b : BoardState) : nat :=
  length (filter (fun q => mineAt b q = true) (gridPositions (height b) (width b))).

Definition cellsInState (s : CellState) (b : BoardState) : nat :=
  length (filter (fun q => stateAt b q = s) (gridPositions (height b) (width b))).

(** By how much the counter [revealedCount] is ahead of the number of
    revealed cells, and [flaggedCount] of the number of flagged ones. *)
Definition revealedDrift (b : BoardState) : Z :=
  revealedCount b - Z.of_nat (cellsInState revealed b).

Definition flaggedDrift (b : BoardState) : Z :=
  flaggedCount b - Z.of_nat (cellsInState flagged b).

(** What the flood fill keeps from [nb] to [nb']. *)
Definition steady (nb nb' : BoardState) : Prop :=
  well_formed nb' ∧ width nb' = width nb ∧ height nb' = height nb ∧
  firstClick nb' = firstClick nb ∧
  revealedDrift nb' = revealedDrift nb ∧ flaggedDrift nb' = flaggedDrift nb.

(** ** [components/Board/GameBoard.tsx]

    The two click handlers, as functions of the board held in the
    component's state and of the random source; a handler that returns
    early leaves the state as it is. *)
Definition handleCellClick (Math_sqrt : Q -> Q) (mineCount : Z)
    (board : BoardState) (position : Position) (g : Rng)
  : result (BoardState * Rng) :=
  if negb (bool_decide (gameStatus board = playing)) then Ok (board, g) else
  bg ← (if firstClick board
        then IntelligentMinePlacer.generateBoard Math_sqrt
               (width board) (height board) mineCount (Some position) g
        else Ok (board, g));
  newBoard ← revealCell bg.1 position;
  Ok (newBoard, bg.2).

Definition handleCellRightClick (board : BoardState) (position : Position)
  : result BoardState :=
  if negb (bool_decide (gameStatus board = playing)) then Ok board
  else toggleFlag board position.

(** What the player does, and a session of clicks. *)
Inductive Click : Type :=
| LeftClick (p : Position)
| RightClick (p : Position).

Definition click (Math_sqrt : Q -> Q) (mineCount : Z) (st : BoardState * Rng)
    (e : Click) : result (BoardState * Rng) :=
  match e with
  | LeftClick p => handleCellClick Math_sqrt mineCount st.1 p st.2
  | RightClick p => b ← handleCellRightClick st.1 p; Ok (b, st.2)
  end.

Definition runClicks (Math_sqrt : Q -> Q) (mineCount : Z) (es : list Click)
    (st : BoardState * Rng) : result (BoardState * Rng) :=
  foldR (click Math_sqrt mineCount) es st.

(** What playing can change from [b] to [b']: the state of cells, and of
    those not the cells that are revealed and hold no mine. *)
Definition played (b b' : BoardState) : Prop :=
  well_formed b' ∧ width b' = width b ∧ height b' = height b ∧
  mineCount b' = mineCount b ∧
  ∀ q c, getCell (cells b) q = Ok c →
    ∃ c', getCell (cells b') q = Ok c' ∧ c' = set_state (state c') c ∧
          (state c = revealed → hasMine c = false → c' = c).

(** A revealed clue whose mines are all accounted for by the flags around
    it: the test of [findSafeMoves]. *)
Definition satisfiedClue (b : BoardState) (q : Position) : Prop :=
  ∃ cell, getCell (cells b) q = Ok cell ∧ state cell = revealed ∧
          0 < adjacentMines cell ∧
          Z.of_nat (length (filter (fun r => stateAt b r = flagged)
                              (getAdjacentPositions b q))) = adjacentMines cell.


(** ** [ai/difficultyAdapter.ts], the statistics *)

#[global] Instance DifficultyLevel_eq_dec : EqDecision DifficultyLevel.
Proof. solve_decision. Defined.

(** [GameResult]; [boardSize] is the pair [(width, height)]. *)
Record GameResult : Type := mkResult {
  r_won : bool;
  r_timeElapsed : Q;
  r_hintsUsed : Z;
  r_boardSize : Z * Z;
  r_mineCount : Z
}.

Definition updatePerformanceMetrics (stats : PlayerStats) (result : GameResult)
  : PlayerStats :=
  let newGamesPlayed := gamesPlayed stats + 1 in
  let newGamesWon := gamesWon stats + (if r_won result then 1 else 0) in
  let newHintsUsed := hintsUsed stats + r_hintsUsed result in
  let newAverageTime :=
    if gamesPlayed stats >? 0
    then ((averageTime stats * inject_Z (gamesPlayed stats) + r_timeElapsed result)
          / inject_Z newGamesPlayed)%Q
    else r_timeElapsed result in
  let newStreak :=
    if r_won result then Z.max 0 (currentStreak stats) + 1
    else Z.min 0 (currentStreak stats) - 1 in
  mkStats newGamesPlayed newGamesWon newAverageTime newHintsUsed newStreak
          (preferredDifficulty stats).

Definition getDifficultyRecommendation (playerStats : PlayerStats)
  : DifficultyLevel * string :=
  let winRate :=
    if gamesPlayed playerStats >? 0
    then numDiv (numberOfZ (gamesWon playerStats)) (numberOfZ (gamesPlayed playerStats))
    else numberOfZ 0 in
  let avgHintsPerGame :=
    if gamesPlayed playerStats >? 0
    then numDiv (numberOfZ (hintsUsed playerStats)) (numberOfZ (gamesPlayed playerStats))
    else numberOfZ 0 in
  if gamesPlayed playerStats <? 5 then
    (beginner, "Start with beginner difficulty to learn the game mechanics."%string)
  else if numGt winRate lit_0_8 && numLt avgHintsPerGame (numberOfZ 1)
          && bool_decide (preferredDifficulty playerStats = beginner) then
    (intermediate,
     "You're doing great! Try intermediate difficulty for more challenge."%string)
  else if numGt winRate lit_0_7 && numLt avgHintsPerGame (numberOfZ 2)
          && bool_decide (preferredDifficulty playerStats = intermediate) then
    (expert, "Excellent performance! You're ready for expert level."%string)
  else if numLt winRate lit_0_3
          && negb (bool_decide (preferredDifficulty playerStats = beginner)) then
    (beginner, "Consider trying beginner difficulty to build confidence."%string)
  else
    (preferredDifficulty playerStats,
     "Your current difficulty level suits your skill level well."%string).

(** ** [utils/storage.ts], the player statistics

    The store is what the key [minesweeper_player_stats] holds: nothing, or
    the statistics [savePlayerStats] wrote there last.  A write that the
    browser refuses (the [catch] branch) leaves the store as it was;
    whether it does is the argument [accepted]. *)
Definition Store : Type := option PlayerStats.

Definition getDefaultPlayerStats : PlayerStats := mkStats 0 0 0 0 0 beginner.

Definition loadPlayerStats (st : Store) : PlayerStats :=
  match st with
  | None => getDefaultPlayerStats
  | Some stats => stats
  end.

Definition savePlayerStats (accepted : bool) (stats : PlayerStats) (st : Store)
  : bool * Store :=
  if accepted then (true, Some stats) else (false, st).

Definition calculateNewAverageTime (stats : PlayerStats) (newTime : Q) : Q :=
  if gamesPlayed stats =? 0 then newTime else
  let totalTime := (averageTime stats * inject_Z (gamesPlayed stats) + newTime)%Q in
  (totalTime / inject_Z (gamesPlayed stats + 1))%Q.

Definition updatePlayerStats (accepted : bool) (gameResult : GameResult) (st : Store)
  : PlayerStats * Store :=
  let currentStats := loadPlayerStats st in
  let newStats :=
    mkStats (gamesPlayed currentStats + 1)
            (gamesWon currentStats + (if r_won gameResult then 1 else 0))
            (calculateNewAverageTime currentStats (r_timeElapsed gameResult))
            (hintsUsed currentStats + r_hintsUsed gameResult)
            (if r_won gameResult then currentStreak currentStats + 1 else 0)
            (preferredDifficulty currentStats) in
  (newStats, (savePlayerStats accepted newStats st).2).

(** [adjustDifficulty] of the adapter, on the same store. *)
Definition adjustDifficulty (accepted : bool) (gameResult : GameResult) (st : Store)
  : Store :=
  let currentStats := loadPlayerStats st in
  let updatedStats := updatePerformanceMetrics currentStats gameResult in
  (savePlayerStats accepted updatedStats st).2.

(** A session of finished games, each with the fate of its write. *)
Definition recordGames (games : list (bool * GameResult)) (st : Store) : Store :=
  foldl (fun st g => (updatePlayerStats g.1 g.2 st).2) st games.

(** ** [utils/boardUtils.ts] *)


Definition getCellCount (b : BoardState) (s : CellState) : result Z :=
  foldR (fun count q =>
           c ← getCell (cells b) q;
           Ok (if bool_decide (state c = s) then count + 1 else count))
        (gridPositions (height b) (width b)) 0.



Definition findCells (b : BoardState) (predicate : Cell -> bool)
  : result (list Position) :=
  filterR (fun q => c ← getCell (cells b) q; Ok (predicate c))
          (gridPositions (height b) (width b)).

(** [null] is [None]. *)
Definition getCellAt (b : BoardState) (p : Position) : result (option Cell) :=
  if (row p <? 0) || (row p >=? height b) || (col p <? 0) || (col p >=? width b)
  then Ok None
  else c ← getCell (cells b) p; Ok (Some c).



Definition getAdjacentCells (b : BoardState) (p : Position) : result (list Cell) :=
  mapR (fun q => getCell (cells b) q)
       (r ← seqZ (row p - 1) 3;
        c ← seqZ (col p - 1) 3;
        if (r >=? 0) && (r <? height b) && (c >=? 0) && (c <? width b)
        then if negb (r =? row p) || negb (c =? col p) then [mkPosition r c] else []
        else []).

(** A loop that returns [true] from its body at the first hit. *)
Fixpoint anyR {A : Type} (f : A -> result bool) (l : list A) : result bool :=
  match l with
  | [] => Ok false
  | x :: l' => hit ← f x; if hit : bool then Ok true else anyR f l'
  end.

Definition isBoardSolvable (b : BoardState) : result bool :=
  if negb (bool_decide (gameStatus b = playing)) then Ok false else
  if firstClick b then Ok true else
  anyR (fun q =>
          cell ← getCell (cells b) q;
          if bool_decide (state cell = revealed) && (adjacentMines cell >? 0) then
            adjacent ← getAdjacentCells b q;
            let flaggedCount :=
              Z.of_nat (length (filter (fun c => state c = flagged) adjacent)) in
            let hiddenCount :=
              Z.of_nat (length (filter (fun c => state c = hidden) adjacent)) in
            if (flaggedCount =? adjacentMines cell) && (hiddenCount >? 0) then Ok true
            else if (flaggedCount + hiddenCount =? adjacentMines cell)
                    && (hiddenCount >? 0) then Ok true
            else Ok false
          else Ok false)
       (gridPositions (height b) (width b)).

(** A revealed clue that only mines can explain: the flags and the hidden
    cells around it are exactly as many as it says. *)
Definition forcedClue (b : BoardState) (q : Position) : Prop :=
  ∃ cell, getCell (cells b) q = Ok cell ∧ state cell = revealed ∧
          0 < adjacentMines cell ∧
          Z.of_nat (length (filter (fun r => stateAt b r = flagged)
                              (getAdjacentPositions b q)))
          + Z.of_nat (length (filter (fun r => stateAt b r = hidden)
                                (getAdjacentPositions b q)))
          = adjacentMines cell.

Definition hasHiddenNeighbour (b : BoardState) (q : Position) : Prop :=
  ∃ p, p ∈ getAdjacentPositions b q ∧ stateAt b p = hidden.

(** ** [ai/difficultyAdapter.ts], mine clusters *)

(** The positions [getClusterSize] pushes around [pos], in the order of its
    two loops; [pos] itself is among them. *)
Definition clusterPushes (b : BoardState) (pos : Position) : list Position :=
  dr ← seqZ (-1) 3;
  dc ← seqZ (-1) 3;
  let newRow := row pos + dr in
  let newCol := col pos + dc in
  if (newRow >=? 0) && (newRow <? height b) && (newCol >=? 0) && (newCol <? width b)
  then [mkPosition newRow newCol] else [].

(** [while (stack.length > 0)] of [getClusterSize]: the head of the list is
    the element [stack.pop()] returns.  The set [visited] is the one the
    caller hands in, and is handed back. *)
Fixpoint clusterLoop (fuel : nat) (b : BoardState) (stack : list Position)
    (visited : gset (Z * Z)) (size : Z) : result (Z * gset (Z * Z)) :=
  match stack with
  | [] => Ok (size, visited)
  | pos :: stack =>
      match fuel with
      | O => OutOfFuel
      | S fuel =>
          if bool_decide (posKey pos ∈ visited)
          then clusterLoop fuel b stack visited size
          else
            c ← getCell (cells b) pos;
            if negb (hasMine c) then clusterLoop fuel b stack visited size
            else clusterLoop fuel b (reverse (clusterPushes b pos) ++ stack)
                   ({[posKey pos]} ∪ visited) (size + 1)
      end
  end.

(** Iterations granted to the loop: every mine is expanded once and pushes
    at most nine positions. *)
Definition clusterFuel (b : BoardState) : nat :=
  S (10 * length (gridPositions (height b) (width b))).

Definition getClusterSize (b : BoardState) (start : Position) (visited : gset (Z * Z))
  : result (Z * gset (Z * Z)) :=
  clusterLoop (clusterFuel b) b [start] visited 0.

Definition hasExcessiveClustering (b : BoardState) : result bool :=
  st ← foldR (fun (st : Z * gset (Z * Z)) q =>
                let '(clusterCount, visited) := st in
                c ← getCell (cells b) q;
                if hasMine c && negb (bool_decide (posKey q ∈ visited)) then
                  cl ← getClusterSize b q visited;
                  Ok (if cl.1 >=? 4 then clusterCount + 1 else clusterCount, cl.2)
                else Ok (clusterCount, visited))
             (gridPositions (height b) (width b)) (0, ∅);
  let maxAllowedClusters := mineCount b / 8 in
  Ok (st.1 >? maxAllowedClusters).

(** Keys of the mines of the board, and the mines not yet visited. *)
Definition isMineKey (b : BoardState) (k : Z * Z) : Prop :=
  ∃ q, posKey q = k ∧ inBounds b (row q) (col q) = true ∧ mineAt b q = true.

Definition minesToVisit (b : BoardState) (visited : gset (Z * Z)) : nat :=
  length (filter (fun q => mineAt b q = true ∧ posKey q ∉ visited)
            (gridPositions (height b) (width b))).

(** A session of finished games recorded through the adapter instead. *)
Definition adaptGames (games : list (bool * GameResult)) (st : Store) : Store :=
  foldl (fun st g => adjustDifficulty g.1 g.2 st) st games.

(** * Properties *)
(** ** The result monad *)

Lemma bind_Ok {A B : Type} (m : result A) (k : A -> result B) (y : B) :
  (m ≫= k) = Ok y ↔ ∃ a, m = Ok a ∧ k a = Ok y.
Proof.
  destruct m as [a| |]; simpl; split.
  - intros H. by exists a.
  - by intros (a' & [= ->] & H).
  - done.
  - by intros (a' & [=] & _).
  - done.
  - by intros (a' & [=] & _).
Qed.

(** Loop invariant rule: the invariant may mention the part of the list
    already traversed. *)
Lemma foldR_invariant {A S : Type} (f : S -> A -> result S)
    (Inv : list A -> S -> Prop) (l : list A) (s : S) :
  Inv [] s →
  (∀ done x rest s, l = done ++ x :: rest → Inv done s →
     ∃ s', f s x = Ok s' ∧ Inv (done ++ [x]) s') →
  ∃ s', foldR f l s = Ok s' ∧ Inv l s'.
Proof.
  intros H0 Hstep.
  assert (∀ rest done s, l = done ++ rest → Inv done s →
            ∃ s', foldR f rest s = Ok s' ∧ Inv l s') as Hgen.
  { induction rest as [|x rest IH]; intros done s0 Hl Hinv.
    - rewrite app_nil_r in Hl. subst. by exists s0.
    - destruct (Hstep done x rest s0 Hl Hinv) as (s1 & Hf & Hinv1).
      simpl. rewrite Hf. simpl.
      apply (IH (done ++ [x])); [|done].
      by rewrite <- app_assoc. }
  by apply (Hgen l []).
Qed.

(** Loop invariant rule when the invariant does not depend on the position
    in the list. *)
Lemma foldR_preserves {A S : Type} (f : S -> A -> result S)
    (P : S -> Prop) (l : list A) (s : S) :
  P s →
  (∀ x s, x ∈ l → P s → ∃ s', f s x = Ok s' ∧ P s') →
  ∃ s', foldR f l s = Ok s' ∧ P s'.
Proof.
  intros H0 Hstep.
  apply (foldR_invariant f (fun _ => P)); [done|].
  intros done x rest s0 -> HP. apply Hstep; [|done].
  apply elem_of_app. right. left.
Qed.

Lemma mapR_Ok {A B : Type} (f : A -> result B) (g : A -> B) (l : list A) :
  (∀ x, x ∈ l → f x = Ok (g x)) → mapR f l = Ok (g <$> l).
Proof.
  induction l as [|x l IH]; intros H; simpl; [done|].
  rewrite (H x) by left. simpl. rewrite IH; [done|].
  intros y Hy. apply H. by right.
Qed.

Lemma filterR_Ok {A : Type} (f : A -> result bool) (g : A -> bool) (l : list A) :
  (∀ x, x ∈ l → f x = Ok (g x)) →
  filterR f l = Ok (filter (fun x => g x = true) l).
Proof.
  induction l as [|x l IH]; intros H; simpl; [done|].
  rewrite (H x) by left. simpl. rewrite IH.
  2:{ intros y Hy. apply H. by right. }
  simpl. rewrite filter_cons. destruct (g x); by case_decide.
Qed.

(** ** Reading and writing cells *)

Lemma getCell_Ok cs p c :
  getCell cs p = Ok c ↔
  0 ≤ row p ∧ 0 ≤ col p ∧
  ∃ rw, cs !! Z.to_nat (row p) = Some rw ∧ rw !! Z.to_nat (col p) = Some c.
Proof.
  unfold getCell.
  destruct (Z.ltb_spec (row p) 0), (Z.ltb_spec (col p) 0); simpl;
    try (split; [done | lia]).
  destruct (cs !! Z.to_nat (row p)) as [rw|] eqn:Hr.
  - destruct (rw !! Z.to_nat (col p)) as [c'|] eqn:Hc.
    + split.
      * intros [= ->]. eauto.
      * intros (_ & _ & rw' & [= <-] & ?). congruence.
    + split; [done|]. intros (_ & _ & rw' & [= <-] & ?). congruence.
  - split; [done|]. by intros (_ & _ & rw' & [=] & _).
Qed.

Lemma getCell_well_formed b p :
  well_formed b → inBounds b (row p) (col p) = true →
  ∃ c, getCell (cells b) p = Ok c.
Proof.
  intros [Hh Hw] Hin. unfold inBounds in Hin.
  apply andb_true_iff in Hin as [Hin Hc2]. apply andb_true_iff in Hin as [Hin Hc1].
  apply andb_true_iff in Hin as [Hr1 Hr2].
  destruct (lookup_lt_is_Some_2 (cells b) (Z.to_nat (row p))) as [rw Hrw]; [lia|].
  assert (length rw = Z.to_nat (width b)) as Hlen.
  { rewrite Forall_forall in Hw. apply Hw. by eapply list_elem_of_lookup_2. }
  destruct (lookup_lt_is_Some_2 rw (Z.to_nat (col p))) as [c Hc]; [lia|].
  exists c. apply getCell_Ok. repeat split; [lia|lia|eauto].
Qed.

Lemma updCell_Ok f cs p cs' :
  updCell f cs p = Ok cs' ↔
  (∃ c, getCell cs p = Ok c) ∧
  cs' = alter (alter f (Z.to_nat (col p))) (Z.to_nat (row p)) cs.
Proof.
  unfold updCell. rewrite bind_Ok. split.
  - intros (c & Hc & [= <-]). eauto.
  - intros [[c Hc] ->]. eauto.
Qed.

Lemma getCell_updCell f cs p cs' q :
  updCell f cs p = Ok cs' →
  getCell cs' q = if bool_decide (posKey q = posKey p)
                  then c ← getCell cs q; Ok (f c) else getCell cs q.
Proof.
  intros [[c Hc] ->]%updCell_Ok.
  apply getCell_Ok in Hc as (Hr & Hcl & rw & Hrw & Hcell).
  unfold posKey. case_bool_decide as Hk.
  - injection Hk as Hk1 Hk2. unfold getCell. rewrite Hk1, Hk2.
    destruct (Z.ltb_spec (row p) 0), (Z.ltb_spec (col p) 0); try lia. simpl.
    rewrite list_lookup_alter_eq, Hrw. simpl.
    rewrite list_lookup_alter_eq, Hcell. done.
  - unfold getCell.
    destruct (Z.ltb_spec (row q) 0), (Z.ltb_spec (col q) 0); simpl; try done.
    destruct (decide (row q = row p)) as [Heq|Hne].
    + rewrite Heq, list_lookup_alter_eq, Hrw. simpl.
      rewrite list_lookup_alter_ne; [done|].
      intros Hc. apply Hk. f_equal; [done|]. lia.
    + rewrite list_lookup_alter_ne; [done|]. lia.
Qed.

Lemma getCell_updCell_eq f cs p cs' c :
  updCell f cs p = Ok cs' → getCell cs p = Ok c → getCell cs' p = Ok (f c).
Proof.
  intros Hu Hc. rewrite (getCell_updCell _ _ _ _ _ Hu).
  rewrite bool_decide_true by done. by rewrite Hc.
Qed.

Lemma getCell_updCell_ne f cs p cs' q :
  updCell f cs p = Ok cs' → q ≠ p → getCell cs' q = getCell cs q.
Proof.
  intros Hu Hne. rewrite (getCell_updCell _ _ _ _ _ Hu).
  rewrite bool_decide_false; [done|].
  unfold posKey. destruct p, q. simpl. intros [= -> ->]. done.
Qed.

Lemma updCell_shape f cs p cs' h w :
  updCell f cs p = Ok cs' →
  length cs = h → Forall (fun rw => length rw = w) cs →
  length cs' = h ∧ Forall (fun rw => length rw = w) cs'.
Proof.
  intros [_ ->]%updCell_Ok Hh Hw. split.
  - by rewrite length_alter.
  - rewrite Forall_forall in *. intros rw Hrw.
    apply list_elem_of_lookup in Hrw as [i Hi].
    destruct (decide (i = Z.to_nat (row p))) as [->|Hne].
    + rewrite list_lookup_alter_eq in Hi.
      destruct (cs !! Z.to_nat (row p)) as [rw0|] eqn:E; [|done].
      injection Hi as <-. rewrite length_alter. apply Hw.
      by eapply list_elem_of_lookup_2.
    + rewrite list_lookup_alter_ne in Hi by done.
      apply Hw. by eapply list_elem_of_lookup_2.
Qed.
(** ** Bounds *)

Lemma outOfBounds_inBounds b p :
  outOfBounds b p = negb (inBounds b (row p) (col p)).
Proof.
  unfold outOfBounds, inBounds.
  destruct (Z.ltb_spec (row p) 0), (Z.geb_spec (row p) (height b)),
    (Z.ltb_spec (col p) 0), (Z.geb_spec (col p) (width b)),
    (Z.geb_spec (row p) 0), (Z.ltb_spec (row p) (height b)),
    (Z.geb_spec (col p) 0), (Z.ltb_spec (col p) (width b)); simpl; try done; lia.
Qed.

Lemma outOfBounds_true b p :
  outOfBounds b p = true ↔
  row p < 0 ∨ row p >= height b ∨ col p < 0 ∨ col p >= width b.
Proof.
  unfold outOfBounds.
  destruct (Z.ltb_spec (row p) 0), (Z.geb_spec (row p) (height b)),
    (Z.ltb_spec (col p) 0), (Z.geb_spec (col p) (width b)); simpl;
    split; try done; try lia; auto.
Qed.

Lemma inBounds_true b r c :
  inBounds b r c = true ↔ 0 ≤ r < height b ∧ 0 ≤ c < width b.
Proof.
  unfold inBounds.
  destruct (Z.geb_spec r 0), (Z.ltb_spec r (height b)),
    (Z.geb_spec c 0), (Z.ltb_spec c (width b)); simpl; split; try done; lia.
Qed.

(** ** Flags *)

Lemma toggleFlag_locked b p c :
  getCell (cells b) p = Ok c →
  state c = revealed ∨ state c = mine ∨ state c = exploded →
  toggleFlag b p = Ok b.
Proof.
  intros Hc Hs. unfold toggleFlag. destruct (outOfBounds b p); [done|].
  rewrite Hc. simpl.
  destruct Hs as [-> | [-> | ->]]; done.
Qed.

Lemma list_alter_fixed {A : Type} (f : A -> A) (l : list A) (i : nat) (x : A) :
  l !! i = Some x → f x = x → alter f i l = l.
Proof.
  intros Hl Hf. apply list_eq. intros j.
  destruct (decide (i = j)) as [<-|Hne].
  - by rewrite list_lookup_alter_eq, Hl; simpl; rewrite Hf.
  - by rewrite list_lookup_alter_ne.
Qed.


Lemma toggleFlag_hidden b p c :
  outOfBounds b p = false → getCell (cells b) p = Ok c → state c = hidden →
  ∃ cs, setState (cells b) p flagged = Ok cs ∧
        toggleFlag b p = Ok (set_flaggedCount (flaggedCount b + 1) (set_cells cs b)).
Proof.
  intros Hb Hc Hs. unfold toggleFlag. rewrite Hb, Hc. simpl. rewrite Hs. simpl.
  unfold setState, updCell. rewrite Hc. simpl. eauto.
Qed.

Lemma toggleFlag_flagged b p c :
  outOfBounds b p = false → getCell (cells b) p = Ok c → state c = flagged →
  ∃ cs, setState (cells b) p hidden = Ok cs ∧
        toggleFlag b p = Ok (set_flaggedCount (flaggedCount b - 1) (set_cells cs b)).
Proof.
  intros Hb Hc Hs. unfold toggleFlag. rewrite Hb, Hc. simpl. rewrite Hs. simpl.
  unfold setState, updCell. rewrite Hc. simpl. eauto.
Qed.

Lemma toggleFlag_out_of_bounds b p : outOfBounds b p = true → toggleFlag b p = Ok b.
Proof. intros H. unfold toggleFlag. by rewrite H. Qed.



(** C8.  At a position with [row < 0], [row >= height], [col < 0] or
    [col >= width], [revealCell] and [toggleFlag] both return the board they
    were given, whatever that board is; neither throws. *)
Theorem out_of_bounds_is_noop (b : BoardState) (p : Position) :
  row p < 0 ∨ row p >= height b ∨ col p < 0 ∨ col p >= width b →
  revealCell b p = Ok b ∧ toggleFlag b p = Ok b.
Proof.
  intros H%outOfBounds_true. unfold revealCell, toggleFlag. by rewrite H.
Qed.

Lemma out_of_bounds_is_noop_witness :
  revealCell sampleBoard (mkPosition 0 4) = Ok sampleBoard ∧
  toggleFlag sampleBoard (mkPosition 0 4) = Ok sampleBoard.
Proof.
  apply (out_of_bounds_is_noop sampleBoard (mkPosition 0 4)).
  right. right. right. simpl. lia.
Defined.

(** ** Neighbourhoods *)

Lemma elem_of_getAdjacentPositions b p q :
  q ∈ getAdjacentPositions b p ↔
  inBounds b (row q) (col q) = true ∧
  Z.abs (row q - row p) ≤ 1 ∧ Z.abs (col q - col p) ≤ 1 ∧ q ≠ p.
Proof.
  unfold getAdjacentPositions. rewrite list_elem_of_bind. split.
  - intros (r & Hq & Hr). apply list_elem_of_bind in Hq as (c & Hq & Hc).
    apply elem_of_seqZ in Hr, Hc.
    destruct (inBounds b r c) eqn:Hin; simpl in Hq; [|by apply elem_of_nil in Hq].
    destruct ((r =? row p) && (c =? col p)) eqn:Hself; simpl in Hq;
      [by apply elem_of_nil in Hq|].
    apply list_elem_of_singleton in Hq as ->. simpl.
    split; [done|]. split; [lia|]. split; [lia|].
    intros <-. simpl in Hself. by rewrite !Z.eqb_refl in Hself.
  - intros (Hin & Hr & Hc & Hne). exists (row q). split; [|apply elem_of_seqZ; lia].
    apply list_elem_of_bind. exists (col q). split; [|apply elem_of_seqZ; lia].
    rewrite Hin. simpl.
    destruct ((row q =? row p) && (col q =? col p)) eqn:Hself; simpl.
    + apply andb_true_iff in Hself as [?%Z.eqb_eq ?%Z.eqb_eq].
      destruct Hne. destruct p, q; simpl in *; by subst.
    + destruct q. simpl. left.
Qed.

Lemma getAdjacentPositions_frame b b' p :
  width b' = width b → height b' = height b →
  getAdjacentPositions b' p = getAdjacentPositions b p.
Proof. intros Hw Hh. unfold getAdjacentPositions, inBounds. by rewrite Hw, Hh. Qed.

Lemma getAdjacentPositions_inBounds b p q :
  q ∈ getAdjacentPositions b p → inBounds b (row q) (col q) = true.
Proof. intros H%elem_of_getAdjacentPositions. tauto. Qed.

(** ** Counting hidden cells *)

Lemma alter_middle {A : Type} (f : A -> A) (l : list A) (i : nat) (x : A) :
  l !! i = Some x → alter f i l = take i l ++ f x :: drop (S i) l.
Proof.
  revert i. induction l as [|y l IH]; intros [|i] H; simpl in *; try done.
  - by injection H as ->.
  - f_equal. by apply IH.
Qed.

Lemma hiddenCount_updCell f cs p cs' c :
  updCell f cs p = Ok cs' → getCell cs p = Ok c →
  (hiddenCount cs' + (if decide (state c = hidden) then 1 else 0)
   = hiddenCount cs + (if decide (state (f c) = hidden) then 1 else 0))%nat.
Proof.
  intros [_ ->]%updCell_Ok (_ & _ & rw & Hrw & Hc)%getCell_Ok.
  unfold hiddenCount.
  rewrite (alter_middle _ _ _ rw Hrw), (alter_middle _ _ _ c Hc).
  pose proof (take_drop_middle cs _ rw Hrw) as E1.
  pose proof (take_drop_middle rw _ c Hc) as E2.
  set (pre := take _ cs) in *. set (post := drop _ cs) in *.
  set (pre' := take _ rw) in *. set (post' := drop _ rw) in *.
  clearbody pre post pre' post'. subst cs rw.
  repeat first [rewrite concat_app | rewrite concat_cons | rewrite filter_app
                | rewrite filter_cons | rewrite length_app].
  repeat case_decide; simpl; try done; lia.
Qed.

Lemma hiddenCount_reveal cs p cs' c :
  setState cs p revealed = Ok cs' → getCell cs p = Ok c →
  (hiddenCount cs' ≤ hiddenCount cs)%nat ∧
  (state c = hidden → S (hiddenCount cs') = hiddenCount cs).
Proof.
  intros Hu Hc. pose proof (hiddenCount_updCell _ _ _ _ _ Hu Hc) as H.
  simpl in H. case_decide; split; try done; lia.
Qed.

Lemma hiddenCount_le cs : (hiddenCount cs ≤ length (concat cs))%nat.
Proof. apply length_filter. Qed.

Lemma well_formed_updCell f b p cs :
  well_formed b → updCell f (cells b) p = Ok cs → well_formed (set_cells cs b).
Proof. intros [Hh Hw] Hu. by eapply updCell_shape. Qed.

(** ** The flood fill *)

Section Flood.
Variables (b : BoardState) (t : Position).
Hypothesis b_shape : well_formed b.

Lemma floodVisit_spec nb current stack visited x :
  FloodInv b t nb (current :: stack) visited →
  x ∈ getAdjacentPositions b current →
  ∃ nb' stack',
    floodVisit (nb, stack) x = Ok (nb', stack') ∧
    FloodInv b t nb' (current :: stack') visited ∧
    (length stack' + hiddenCount (cells nb') ≤ length stack + hiddenCount (cells nb))%nat ∧
    settled nb' x ∧ (∀ q, settled nb q → settled nb' q).
Proof.
  intros [Hfr Hsh Hcells Hreg] Hx.
  pose proof (getAdjacentPositions_inBounds _ _ _ Hx) as Hin.
  destruct (getCell_well_formed b x b_shape Hin) as [c Hc].
  assert (floodRegion b t current) as Hcur by (apply Hreg; right; left).
  unfold floodVisit.
  destruct (Hcells x c Hc) as [(Hnb & Hxt & Hfresh) | (Hnb & Hrev & Hz)].
  - rewrite Hnb. simpl.
    destruct (bool_decide (state c = hidden) && negb (hasMine c)) eqn:Htest.
    + apply andb_true_iff in Htest as [Hhid%bool_decide_eq_true Hmine%negb_true_iff].
      assert (∃ cs, setState (cells nb) x revealed = Ok cs) as [cs Hcs].
      { unfold setState, updCell. rewrite Hnb. simpl. eauto. }
      rewrite Hcs. simpl.
      eexists _, _. split; [done|].
      destruct (hiddenCount_reveal _ _ _ _ Hcs Hnb) as [_ Hcount].
      specialize (Hcount Hhid).
      split; [|split; [|split]].
      * split.
        -- destruct Hfr as (?&?&?&?&?). by repeat split.
        -- apply (well_formed_updCell _ nb _ _ Hsh) in Hcs.
           destruct Hcs as [? ?]. by split.
        -- intros q cq Hq. simpl.
           destruct (decide (q = x)) as [->|Hne].
           ++ right. assert (cq = c) as -> by congruence.
              split; [by eapply getCell_updCell_eq|].
              split; [right; eauto|].
              intros Hzero. right. rewrite (proj2 (Z.eqb_eq _ _) Hzero).
              right. left.
           ++ rewrite (getCell_updCell_ne _ _ _ _ _ Hcs Hne).
              destruct (Hcells q cq Hq) as [?|(?&?&Hp)]; [by left|right].
              split; [done|]. split; [done|].
              intros Hzero. destruct (Hp Hzero) as [?|Hp']; [by left|right].
              apply elem_of_cons in Hp' as [->|?]; [left|].
              destruct (adjacentMines c =? 0); right; [right|]; done.
        -- intros r [Hr|Hr]; [apply Hreg; by left|].
           apply elem_of_cons in Hr as [->|Hr]; [done|].
           destruct (Z.eqb_spec (adjacentMines c) 0) as [Hzero|_].
           ++ apply elem_of_cons in Hr as [->|Hr]; [|apply Hreg; right; by right].
              apply (flood_step _ _ current); [done|done|]. by exists c.
           ++ apply Hreg. right. by right.
      * simpl. destruct (adjacentMines c =? 0); simpl; lia.
      * intros c' Hc'. simpl in Hc'.
        rewrite (getCell_updCell_eq _ _ _ _ _ Hcs Hnb) in Hc'.
        injection Hc' as <-. simpl. by intros [? _].
      * intros q Hq c' Hc'. simpl in Hc'.
        rewrite (getCell_updCell _ _ _ _ q Hcs) in Hc'.
        case_bool_decide; [|by apply Hq].
        apply bind_Ok in Hc' as (c0 & _ & [= <-]). simpl. by intros [? _].
    + exists nb, stack. split; [done|]. split; [done|]. split; [lia|].
      split; [|done].
      intros c' Hc' [Hhid Hmine]. assert (c' = c) as -> by congruence.
      by rewrite Hmine, bool_decide_true in Htest.
  - rewrite Hnb. simpl.
    exists nb, stack. split; [done|]. split; [done|]. split; [lia|].
    split; [|done].
    intros c' Hc' [Hhid _]. assert (c' = set_state revealed c) as -> by congruence.
    done.
Qed.

Lemma floodInner_spec nb current stack visited :
  FloodInv b t nb (current :: stack) visited →
  ∃ st,
    foldR floodVisit (getAdjacentPositions nb current) (nb, stack) = Ok st ∧
    FloodInv b t st.1 (current :: st.2) visited ∧
    (length st.2 + hiddenCount (cells st.1) ≤ length stack + hiddenCount (cells nb))%nat ∧
    ∀ q, q ∈ getAdjacentPositions b current → settled st.1 q.
Proof.
  intros Hinv.
  assert (getAdjacentPositions nb current = getAdjacentPositions b current) as ->.
  { destruct Hinv as [(?&?&?) _ _ _]. by apply getAdjacentPositions_frame. }
  apply (foldR_invariant floodVisit
           (fun done st =>
              FloodInv b t st.1 (current :: st.2) visited ∧
              (length st.2 + hiddenCount (cells st.1)
               ≤ length stack + hiddenCount (cells nb))%nat ∧
              ∀ q, q ∈ done → settled st.1 q)).
  - simpl. split; [done|]. split; [lia|]. intros q Hq. by apply elem_of_nil in Hq.
  - intros done x rest [nb1 stack1] Hl (Hinv1 & Hm & Hdone). simpl in *.
    destruct (floodVisit_spec nb1 current stack1 visited x Hinv1)
      as (nb2 & stack2 & Hv & Hinv2 & Hm2 & Hx & Hkeep).
    { rewrite Hl. apply elem_of_app. right. left. }
    exists (nb2, stack2). simpl. split; [done|]. split; [done|]. split; [lia|].
    intros q [Hq| ->%list_elem_of_singleton]%elem_of_app; [|done].
    apply Hkeep. by apply Hdone.
Qed.

Lemma posKey_inj p q : posKey p = posKey q → p = q.
Proof. destruct p, q. unfold posKey. simpl. by intros [= -> ->]. Qed.

Lemma floodFill_spec fuel : ∀ nb stack visited,
  FloodInv b t nb stack visited →
  (length stack + hiddenCount (cells nb) ≤ fuel)%nat →
  ∃ nb' visited', floodFill fuel nb stack visited = Ok nb' ∧
                  FloodInv b t nb' [] visited'.
Proof.
  induction fuel as [|fuel IH]; intros nb stack visited Hinv Hfuel.
  - destruct stack as [|current stack]; [|simpl in Hfuel; lia].
    simpl. by exists nb, visited.
  - destruct stack as [|current stack]; [simpl; by exists nb, visited|].
    simpl. case_bool_decide as Hseen.
    + apply IH; [|simpl in Hfuel; lia].
      destruct Hinv as [Hfr Hsh Hcells Hreg]. split; [done|done| |].
      * intros q c Hq. destruct (Hcells q c Hq) as [?|(?&?&Hp)]; [by left|right].
        split; [done|]. split; [done|]. intros Hz.
        destruct (Hp Hz) as [?|[->|?]%elem_of_cons]; auto.
      * intros r [?|?]; apply Hreg; [by left|right; by right].
    + destruct (floodInner_spec nb current stack visited Hinv)
        as ([nb1 stack1] & -> & Hinv1 & Hm & Hsettled). simpl in *.
      apply IH; [|lia].
      destruct Hinv1 as [Hfr Hsh Hcells Hreg]. split; [done|done| |].
      * intros q c Hq.
        destruct (Hcells q c Hq) as [(Hnb & Hqt & Hfresh)|(?&?&Hp)]; [left|right].
        -- split; [done|]. split; [done|]. intros Hhid Hmine r Hr Hadj.
           apply elem_of_union in Hr as [Hr%elem_of_singleton|Hr].
           ++ apply posKey_inj in Hr as ->.
              by apply (Hsettled q Hadj c Hnb).
           ++ by apply (Hfresh Hhid Hmine r Hr).
        -- split; [done|]. split; [done|]. intros Hz.
           destruct (Hp Hz) as [?|[->|?]%elem_of_cons].
           ++ left. apply elem_of_union. by right.
           ++ left. apply elem_of_union. left. by apply elem_of_singleton.
           ++ by right.
      * intros r [[Hr%elem_of_singleton|Hr]%elem_of_union|Hr]; apply Hreg.
        -- apply posKey_inj in Hr as ->. right. left.
        -- by left.
        -- right. by right.
Qed.

(** What the board looks like when the stack has run empty. *)
Lemma FloodInv_final nb visited ct :
  getCell (cells b) t = Ok ct → adjacentMines ct = 0 →
  FloodInv b t nb [] visited →
  ∀ q c, getCell (cells b) q = Ok c →
    (revealedBy b t q c → getCell (cells nb) q = Ok (set_state revealed c)) ∧
    (¬ revealedBy b t q c → getCell (cells nb) q = Ok c).
Proof.
  intros Ht Hzero [Hfr Hsh Hcells Hreg].
  assert (∀ r, floodRegion b t r → posKey r ∈ visited) as Hclosed.
  { induction 1 as [|q q' Hq IHq Hadj (c' & Hc' & Hhid & Hmine & Hz)].
    - destruct (Hcells t ct Ht) as [(_ & Hne & _)|(_ & _ & Hp)]; [done|].
      destruct (Hp Hzero) as [?|Hnil]; [done|]. by apply elem_of_nil in Hnil.
    - destruct (Hcells q' c' Hc') as [(_ & _ & Hfresh)|(_ & _ & Hp)].
      + destruct (Hfresh Hhid Hmine q IHq Hadj).
      + destruct (Hp Hz) as [?|Hnil]; [done|]. by apply elem_of_nil in Hnil. }
  intros q c Hq.
  destruct (Hcells q c Hq) as [(Hnb & Hne & Hfresh)|(Hnb & Hrev & _)].
  - split; [|done]. intros [->|(Hhid & Hmine & r & Hr & Hadj)]; [done|].
    destruct (Hfresh Hhid Hmine r (Hclosed r Hr) Hadj).
  - split; [done|]. by intros [].
Qed.

(** The invariant holds when the loop is entered. *)
Lemma FloodInv_initial ct cs :
  getCell (cells b) t = Ok ct → hasMine ct = false → adjacentMines ct = 0 →
  setState (cells b) t revealed = Ok cs →
  FloodInv b t
    (set_revealedCount (revealedCount b + 1) (set_cells cs (set_firstClick false b)))
    [t] ∅.
Proof.
  intros Ht Hmine Hzero Hcs. split.
  - by repeat split.
  - apply (well_formed_updCell _ b _ _ b_shape) in Hcs. destruct Hcs. by split.
  - intros q c Hq. simpl. destruct (decide (q = t)) as [->|Hne].
    + right. assert (c = ct) as -> by congruence.
      split; [by eapply getCell_updCell_eq|]. split; [by left|].
      intros _. right. left.
    + left. rewrite (getCell_updCell_ne _ _ _ _ _ Hcs Hne).
      split; [done|]. split; [done|]. intros _ _ r Hr. set_solver.
  - intros r [Hr|Hr%list_elem_of_singleton]; [set_solver|]. subst. constructor.
Qed.
End Flood.

(** ** The double loop over the grid *)

Lemma elem_of_gridPositions h w q :
  q ∈ gridPositions h w ↔ 0 ≤ row q < h ∧ 0 ≤ col q < w.
Proof.
  unfold gridPositions. rewrite list_elem_of_bind. split.
  - intros (r & (c & ->%list_elem_of_singleton & Hc%elem_of_seqZ)%list_elem_of_bind
            & Hr%elem_of_seqZ). simpl. lia.
  - intros [Hr Hc]. exists (row q). split; [|apply elem_of_seqZ; lia].
    apply list_elem_of_bind. exists (col q). split; [|apply elem_of_seqZ; lia].
    destruct q. simpl. left.
Qed.

Lemma NoDup_gridPositions h w : NoDup (gridPositions h w).
Proof.
  unfold gridPositions. apply NoDup_bind; [| |apply NoDup_seqZ].
  - intros r1 r2 q _ _
      (c1 & ->%list_elem_of_singleton & _)%list_elem_of_bind
      (c2 & [= -> _]%list_elem_of_singleton & _)%list_elem_of_bind. done.
  - intros r _. apply NoDup_bind; [| |apply NoDup_seqZ].
    + intros c1 c2 q _ _ ->%list_elem_of_singleton [= ->]%list_elem_of_singleton. done.
    + intros c _. apply NoDup_singleton.
Qed.

Lemma getCell_inBounds b q c :
  well_formed b → getCell (cells b) q = Ok c → inBounds b (row q) (col q) = true.
Proof.
  intros [Hh Hw] (Hr & Hc & rw & Hrw & Hcell)%getCell_Ok.
  apply inBounds_true.
  pose proof (lookup_lt_Some _ _ _ Hrw) as Hlr.
  pose proof (lookup_lt_Some _ _ _ Hcell) as Hlc.
  rewrite Forall_forall in Hw.
  rewrite (Hw rw) in Hlc by (by eapply list_elem_of_lookup_2). lia.
Qed.

Lemma elem_of_gridPositions_inBounds b q :
  q ∈ gridPositions (height b) (width b) ↔ inBounds b (row q) (col q) = true.
Proof. by rewrite elem_of_gridPositions, inBounds_true. Qed.

(** A loop over the grid that rewrites the cell it stands on with [G]. *)
Lemma grid_loop_spec (G : Position -> Cell -> Cell)
    (step : BoardState -> Position -> result BoardState) (b0 : BoardState) :
  well_formed b0 →
  (∀ (done : list Position) nb q c,
      nb = set_cells (cells nb) b0 → well_formed nb →
      (∀ q' c', getCell (cells b0) q' = Ok c' →
         getCell (cells nb) q' = Ok (if decide (q' ∈ done) then G q' c' else c')) →
      q ∉ done → getCell (cells b0) q = Ok c →
      ∃ cs, updCell (G q) (cells nb) q = Ok cs ∧ step nb q = Ok (set_cells cs nb)) →
  ∃ nb, foldR step (gridPositions (height b0) (width b0)) b0 = Ok nb ∧
        nb = set_cells (cells nb) b0 ∧ well_formed nb ∧
        ∀ q c, getCell (cells b0) q = Ok c → getCell (cells nb) q = Ok (G q c).
Proof.
  intros Hwf Hstep.
  destruct (foldR_invariant step
              (fun (done : list Position) nb =>
                 nb = set_cells (cells nb) b0 ∧ well_formed nb ∧
                 ∀ q' c', getCell (cells b0) q' = Ok c' →
                   getCell (cells nb) q' = Ok (if decide (q' ∈ done) then G q' c' else c'))
              (gridPositions (height b0) (width b0)) b0)
    as (nb & Hfold & Hfr & Hsh & Hcells).
  - split; [by destruct b0|]. split; [done|].
    intros q' c' Hq'. rewrite decide_False by apply not_elem_of_nil. done.
  - intros done x rest nb Hl (Hfr & Hsh & Hcells).
    assert (x ∉ done) as Hfresh.
    { pose proof (NoDup_gridPositions (height b0) (width b0)) as Hnd.
      rewrite Hl in Hnd. apply NoDup_app in Hnd as (_ & Hnd & _).
      intros Hx. apply (Hnd x Hx). left. }
    assert (inBounds b0 (row x) (col x) = true) as Hin.
    { apply elem_of_gridPositions_inBounds. rewrite Hl.
      apply elem_of_app. right. left. }
    destruct (getCell_well_formed b0 x Hwf Hin) as [c Hc].
    destruct (Hstep done nb x c Hfr Hsh Hcells Hfresh Hc) as (cs & Hcs & ->).
    eexists. split; [done|]. split; [simpl; rewrite Hfr; reflexivity|]. split.
    + destruct Hsh as [Hh Hw]. by eapply updCell_shape.
    + intros q' c' Hq'. simpl. rewrite (getCell_updCell _ _ _ _ q' Hcs).
      rewrite (Hcells q' c' Hq').
      case_bool_decide as Hk.
      * apply posKey_inj in Hk as ->. rewrite decide_False by done. simpl.
        rewrite decide_True; [|apply elem_of_app; right; left].
        assert (c' = c) as -> by congruence. done.
      * destruct (decide (q' ∈ done)) as [Hd|Hd].
        -- rewrite decide_True; [done|]. apply elem_of_app. by left.
        -- rewrite decide_False; [done|].
           intros [?| ->%list_elem_of_singleton]%elem_of_app; [done|]. by apply Hk.
  - exists nb. split; [done|]. split; [done|]. split; [done|].
    intros q c Hq. rewrite (Hcells q c Hq). rewrite decide_True; [done|].
    apply elem_of_gridPositions_inBounds. by eapply getCell_inBounds.
Qed.

(** ** Revealing a mine *)

Lemma updCell_id_Ok f cs p c :
  getCell cs p = Ok c → f c = c → updCell f cs p = Ok cs.
Proof.
  intros Hc Hf. apply updCell_Ok. split; [eauto|].
  apply getCell_Ok in Hc as (_ & _ & rw & Hrw & Hcell).
  symmetry. apply (list_alter_fixed _ _ _ rw); [done|].
  by apply (list_alter_fixed _ _ _ c).
Qed.

Lemma set_cells_id b : set_cells (cells b) b = b.
Proof. by destruct b. Qed.

Lemma revealAllMines_spec b nb0 :
  well_formed nb0 → width nb0 = width b → height nb0 = height b →
  ∃ nb, revealAllMines b nb0 = Ok nb ∧ nb = set_cells (cells nb) nb0 ∧
        well_formed nb ∧
        ∀ q c, getCell (cells nb0) q = Ok c → getCell (cells nb) q = Ok (showMine c).
Proof.
  intros Hwf Hw Hh. unfold revealAllMines. rewrite <- Hw, <- Hh.
  apply (grid_loop_spec (fun _ => showMine)); [done|].
  intros done nb q c Hfr Hsh Hcells Hfresh Hc.
  pose proof (Hcells q c Hc) as Hnb. rewrite decide_False in Hnb by done.
  rewrite Hnb. simpl.
  destruct (hasMine c && negb (bool_decide (state c = exploded))) eqn:Htest.
  - unfold setState, updCell. rewrite Hnb. simpl.
    eexists. split; [|done]. unfold showMine.
    apply getCell_Ok in Hnb as (_ & _ & rw' & Hrw' & Hcell).
    f_equal. apply list_alter_ext; [|done]. intros rw Hrw.
    apply list_alter_ext; [|done]. intros c0 Hc0.
    assert (c0 = c) as -> by congruence.
    unfold showMine. by rewrite Htest.
  - exists (cells nb). split; [|by rewrite set_cells_id].
    apply (updCell_id_Ok _ _ _ c); [done|]. unfold showMine. by rewrite Htest.
Qed.

(** ** The branches of [revealCell] *)

#[local] Arguments floodFill : simpl never.
#[local] Arguments floodFuel : simpl never.

Lemma well_formed_frame b b' :
  cells b' = cells b → width b' = width b → height b' = height b →
  well_formed b → well_formed b'.
Proof. unfold well_formed. by intros -> -> ->. Qed.

Lemma revealCell_locked b p c :
  getCell (cells b) p = Ok c → state c = revealed ∨ state c = flagged →
  revealCell b p = Ok b.
Proof.
  intros Hc Hs. unfold revealCell. destruct (outOfBounds b p); [done|].
  rewrite Hc. simpl. by destruct Hs as [-> | ->].
Qed.

Lemma revealCell_open b p c :
  outOfBounds b p = false → getCell (cells b) p = Ok c →
  state c ≠ revealed → state c ≠ flagged →
  revealCell b p =
    let newBoard := set_firstClick false b in
    if hasMine c then
      cs ← setState (cells newBoard) p exploded;
      revealAllMines b (set_gameStatus lost (set_cells cs newBoard))
    else
      cs ← setState (cells newBoard) p revealed;
      let newBoard := set_revealedCount (revealedCount newBoard + 1)
                        (set_cells cs newBoard) in
      newBoard ← (if adjacentMines c =? 0
                  then floodFill (floodFuel b) newBoard [p] ∅
                  else Ok newBoard);
      Ok (if revealedCount newBoard =? width b * height b - mineCount b
          then set_gameStatus won newBoard else newBoard).
Proof.
  intros Hb Hc Hr Hf. unfold revealCell. rewrite Hb, Hc. simpl.
  by rewrite !bool_decide_false.
Qed.

Lemma revealCell_mine b p c :
  well_formed b → outOfBounds b p = false → getCell (cells b) p = Ok c →
  state c ≠ revealed → state c ≠ flagged → hasMine c = true →
  ∃ b', revealCell b p = Ok b' ∧ well_formed b' ∧
        b' = set_cells (cells b') (set_gameStatus lost (set_firstClick false b)) ∧
        getCell (cells b') p = Ok (set_state exploded c) ∧
        ∀ q cq, q ≠ p → getCell (cells b) q = Ok cq →
                getCell (cells b') q = Ok (showMine cq).
Proof.
  intros Hwf Hb Hc Hr Hf Hm.
  rewrite (revealCell_open b p c) by done. simpl. rewrite Hm.
  assert (∃ cs, setState (cells b) p exploded = Ok cs) as [cs Hcs].
  { unfold setState, updCell. rewrite Hc. simpl. eauto. }
  rewrite Hcs. simpl.
  set (nb0 := set_gameStatus lost (set_cells cs (set_firstClick false b))).
  assert (well_formed nb0) as Hwf0.
  { apply (well_formed_updCell _ b _ _ Hwf) in Hcs.
    by apply (well_formed_frame (set_cells cs b)). }
  destruct (revealAllMines_spec b nb0 Hwf0 eq_refl eq_refl)
    as (nb & Hnb & Hfr & Hsh & Hcells).
  exists nb. split; [done|]. split; [done|]. split.
  { rewrite Hfr at 1. reflexivity. }
  split.
  - rewrite (Hcells p (set_state exploded c)).
    + unfold showMine. simpl. by destruct (hasMine c).
    + simpl. by eapply getCell_updCell_eq.
  - intros q cq Hne Hq. apply Hcells. simpl.
    by rewrite (getCell_updCell_ne _ _ _ _ _ Hcs Hne).
Qed.

Lemma floodFuel_enough b p cs :
  setState (cells b) p revealed = Ok cs →
  (length [p] + hiddenCount cs ≤ floodFuel b)%nat.
Proof.
  intros Hcs. unfold floodFuel. simpl.
  pose proof Hcs as [[c Hc] _]%updCell_Ok.
  destruct (hiddenCount_reveal _ _ _ _ Hcs Hc) as [Hle _].
  pose proof (hiddenCount_le (cells b)). lia.
Qed.

(** The board [nb] a reveal of a mine-free cell arrives at before the win
    check. *)
Lemma revealCell_safe b p c :
  well_formed b → outOfBounds b p = false → getCell (cells b) p = Ok c →
  state c ≠ revealed → state c ≠ flagged → hasMine c = false →
  ∃ nb, revealCell b p =
          Ok (if revealedCount nb =? width b * height b - mineCount b
              then set_gameStatus won nb else nb) ∧
        well_formed nb ∧ sameFrame b nb ∧
        (∀ q cq, getCell (cells b) q = Ok cq →
           getCell (cells nb) q = Ok cq ∨
           (getCell (cells nb) q = Ok (set_state revealed cq) ∧ revealedBy b p q cq)) ∧
        (adjacentMines c = 0 →
         ∀ q cq, getCell (cells b) q = Ok cq →
           (revealedBy b p q cq → getCell (cells nb) q = Ok (set_state revealed cq)) ∧
           (¬ revealedBy b p q cq → getCell (cells nb) q = Ok cq)) ∧
        (adjacentMines c ≠ 0 →
         revealedCount nb = revealedCount b + 1 ∧
         getCell (cells nb) p = Ok (set_state revealed c) ∧
         ∀ q, q ≠ p → getCell (cells nb) q = getCell (cells b) q).
Proof.
  intros Hwf Hb Hc Hr Hf Hm.
  rewrite (revealCell_open b p c) by done. simpl. rewrite Hm.
  assert (∃ cs, setState (cells b) p revealed = Ok cs) as [cs Hcs].
  { unfold setState, updCell. rewrite Hc. simpl. eauto. }
  rewrite Hcs. simpl.
  destruct (Z.eqb_spec (adjacentMines c) 0) as [Hz|Hnz].
  - destruct (floodFill_spec b p Hwf (floodFuel b) _ [p] ∅
                (FloodInv_initial b p Hwf c cs Hc Hm Hz Hcs))
      as (nb & visited & Hfill & Hinv).
    { exact (floodFuel_enough b p cs Hcs). }
    rewrite Hfill. simpl. exists nb. split; [done|].
    pose proof (FloodInv_final b p nb visited c Hc Hz Hinv) as Hfinal.
    destruct Hinv as [Hfr Hsh Hcells _].
    split; [done|]. split; [done|]. split.
    { intros q cq Hq. destruct (Hcells q cq Hq) as [(?&_)|(?&?&_)]; auto. }
    split; [done|]. intros Hnz. done.
  - exists (set_revealedCount (revealedCount b + 1) (set_cells cs (set_firstClick false b))).
    split; [reflexivity|]. split.
    { apply (well_formed_updCell _ b _ _ Hwf) in Hcs.
      by apply (well_formed_frame (set_cells cs b)). }
    split; [by repeat split|]. split.
    { intros q cq Hq. simpl. destruct (decide (q = p)) as [->|Hne].
      - right. assert (cq = c) as -> by congruence.
        split; [by eapply getCell_updCell_eq|by left].
      - left. by rewrite (getCell_updCell_ne _ _ _ _ _ Hcs Hne). }
    split; [done|]. intros _. simpl. split; [done|]. split.
    + by eapply getCell_updCell_eq.
    + intros q Hne. by eapply getCell_updCell_ne.
Qed.

(** ** What [revealCell] and [toggleFlag] do to a board, whatever the branch *)

Lemma revealCell_effect b p :
  well_formed b →
  ∃ b', revealCell b p = Ok b' ∧ well_formed b' ∧
        width b' = width b ∧ height b' = height b ∧ mineCount b' = mineCount b ∧
        (gameStatus b' = gameStatus b ∨ gameStatus b' = lost ∨
         (gameStatus b' = won ∧
          revealedCount b' = width b' * height b' - mineCount b')) ∧
        (∀ q c, getCell (cells b) q = Ok c →
           ∃ c', getCell (cells b') q = Ok c' ∧ revealStep b' c c').
Proof.
  intros Hwf.
  assert (revealCell b p = Ok b → ∃ b', revealCell b p = Ok b' ∧ well_formed b' ∧
        width b' = width b ∧ height b' = height b ∧ mineCount b' = mineCount b ∧
        (gameStatus b' = gameStatus b ∨ gameStatus b' = lost ∨
         (gameStatus b' = won ∧
          revealedCount b' = width b' * height b' - mineCount b')) ∧
        (∀ q c, getCell (cells b) q = Ok c →
           ∃ c', getCell (cells b') q = Ok c' ∧ revealStep b' c c')) as Hsame.
  { intros Hr. exists b. split; [done|]. split; [done|].
    do 3 (split; [done|]). split; [by left|].
    intros q c Hq. exists c. split; [done|by left]. }
  destruct (outOfBounds b p) eqn:Hb.
  { apply Hsame. unfold revealCell. by rewrite Hb. }
  assert (inBounds b (row p) (col p) = true) as Hin.
  { rewrite outOfBounds_inBounds in Hb. by apply negb_false_iff in Hb. }
  destruct (getCell_well_formed b p Hwf Hin) as [c Hc].
  destruct (decide (state c = revealed ∨ state c = flagged)) as [Hs|Hs].
  { apply Hsame. by eapply revealCell_locked. }
  assert (state c ≠ revealed ∧ state c ≠ flagged) as [Hr Hf] by tauto.
  destruct (hasMine c) eqn:Hm.
  - destruct (revealCell_mine b p c Hwf Hb Hc Hr Hf Hm)
      as (b' & Hrev & Hwf' & Hfr & Hp & Hq).
    exists b'. split; [done|]. split; [done|].
    rewrite Hfr. simpl. do 3 (split; [done|]). split; [auto|].
    intros q cq Hcq. destruct (decide (q = p)) as [->|Hne].
    + assert (cq = c) as -> by congruence. eexists. split; [exact Hp|].
      right. right. auto.
    + eexists. split; [by apply Hq|]. unfold showMine.
      destruct (hasMine cq && negb (bool_decide (state cq = exploded))) eqn:Ht;
        [|by left].
      apply andb_true_iff in Ht as [? _]. right. right. auto.
  - destruct (revealCell_safe b p c Hwf Hb Hc Hr Hf Hm)
      as (nb & Hrev & Hwf' & (Hw & Hh & Hmc & Hfc & Hgs) & Hcells & _).
    eexists. split; [exact Hrev|].
    destruct (Z.eqb_spec (revealedCount nb) (width b * height b - mineCount b)) as [Hwon|Hnot].
    + split; [by apply (well_formed_frame nb)|]. simpl.
      do 3 (split; [done|]). split; [right; right; split; [done|congruence]|].
      intros q cq Hq. destruct (Hcells q cq Hq) as [?|[? Hby]].
      * exists cq. split; [done|by left].
      * eexists. split; [done|]. right. left. split; [done|].
        destruct Hby as [->|(_ & ? & _)]; [congruence|done].
    + split; [done|]. do 3 (split; [done|]). split; [by left|].
      intros q cq Hq. destruct (Hcells q cq Hq) as [?|[? Hby]].
      * exists cq. split; [done|by left].
      * eexists. split; [done|]. right. left. split; [done|].
        destruct Hby as [->|(_ & ? & _)]; [congruence|done].
Qed.

(** ** Status of the game *)

Lemma toggleFlag_effect b p :
  well_formed b →
  ∃ b', toggleFlag b p = Ok b' ∧ well_formed b' ∧
        width b' = width b ∧ height b' = height b ∧ mineCount b' = mineCount b ∧
        revealedCount b' = revealedCount b ∧ gameStatus b' = gameStatus b ∧
        (∀ q c, getCell (cells b) q = Ok c →
           ∃ c', getCell (cells b') q = Ok c' ∧ flagStep c c').
Proof.
  intros Hwf.
  assert (toggleFlag b p = Ok b → ∃ b', toggleFlag b p = Ok b' ∧ well_formed b' ∧
        width b' = width b ∧ height b' = height b ∧ mineCount b' = mineCount b ∧
        revealedCount b' = revealedCount b ∧ gameStatus b' = gameStatus b ∧
        (∀ q c, getCell (cells b) q = Ok c →
           ∃ c', getCell (cells b') q = Ok c' ∧ flagStep c c')) as Hsame.
  { intros Hr. exists b. split; [done|]. split; [done|].
    do 5 (split; [done|]). intros q c Hq. exists c. split; [done|by left]. }
  destruct (outOfBounds b p) eqn:Hb.
  { apply Hsame. by apply toggleFlag_out_of_bounds. }
  assert (inBounds b (row p) (col p) = true) as Hin.
  { rewrite outOfBounds_inBounds in Hb. by apply negb_false_iff in Hb. }
  destruct (getCell_well_formed b p Hwf Hin) as [c Hc].
  destruct (state c) eqn:Hs.
  - destruct (toggleFlag_hidden b p c Hb Hc Hs) as (cs & Hcs & Ht).
    eexists. split; [exact Ht|]. split.
    { apply (well_formed_updCell _ b _ _ Hwf) in Hcs.
      by apply (well_formed_frame (set_cells cs b)). }
    do 5 (split; [done|]). intros q cq Hq. simpl.
    destruct (decide (q = p)) as [->|Hne].
    + assert (cq = c) as -> by congruence. eexists.
      split; [by eapply getCell_updCell_eq|]. right. left. done.
    + exists cq. split; [|by left]. by rewrite (getCell_updCell_ne _ _ _ _ _ Hcs Hne).
  - apply Hsame. eapply toggleFlag_locked; [done|]. auto.
  - destruct (toggleFlag_flagged b p c Hb Hc Hs) as (cs & Hcs & Ht).
    eexists. split; [exact Ht|]. split.
    { apply (well_formed_updCell _ b _ _ Hwf) in Hcs.
      by apply (well_formed_frame (set_cells cs b)). }
    do 5 (split; [done|]). intros q cq Hq. simpl.
    destruct (decide (q = p)) as [->|Hne].
    + assert (cq = c) as -> by congruence. eexists.
      split; [by eapply getCell_updCell_eq|]. right. right. done.
    + exists cq. split; [|by left]. by rewrite (getCell_updCell_ne _ _ _ _ _ Hcs Hne).
  - apply Hsame. eapply toggleFlag_locked; [done|]. auto.
  - apply Hsame. eapply toggleFlag_locked; [done|]. auto.
Qed.

Lemma revealCell_status b p b' :
  well_formed b → revealCell b p = Ok b' →
  gameStatus b' = gameStatus b ∨ gameStatus b' = won ∨ gameStatus b' = lost.
Proof.
  intros Hwf Hr. destruct (revealCell_effect b p Hwf) as (b1 & Hr1 & _ & _ & _ & _ & Hs & _).
  assert (b1 = b') as -> by congruence. destruct Hs as [?|[?|[? _]]]; auto.
Qed.

Lemma toggleFlag_status b p b' :
  well_formed b → toggleFlag b p = Ok b' → gameStatus b' = gameStatus b.
Proof.
  intros Hwf Hr.
  destruct (toggleFlag_effect b p Hwf) as (b1 & Hr1 & _ & _ & _ & _ & _ & Hs & _).
  congruence.
Qed.

Lemma applyOp_effect b o :
  well_formed b →
  ∃ b', applyOp b o = Ok b' ∧ well_formed b' ∧
        (gameStatus b' = playing → gameStatus b = playing).
Proof.
  intros Hwf. destruct o as [p|p]; simpl.
  - destruct (revealCell_effect b p Hwf) as (b' & Hr & Hwf' & _ & _ & _ & Hs & _).
    exists b'. split; [done|]. split; [done|].
    destruct Hs as [?|[?|[? _]]]; congruence.
  - destruct (toggleFlag_effect b p Hwf) as (b' & Hr & Hwf' & _ & _ & _ & _ & Hs & _).
    exists b'. split; [done|]. split; [done|]. congruence.
Qed.

Lemma runOps_effect ops : ∀ b,
  well_formed b →
  ∃ b', runOps ops b = Ok b' ∧ well_formed b' ∧
        (gameStatus b' = playing → gameStatus b = playing).
Proof.
  induction ops as [|o ops IH]; intros b Hwf.
  - exists b. by split.
  - destruct (applyOp_effect b o Hwf) as (b1 & H1 & Hwf1 & Hs1).
    destruct (IH b1 Hwf1) as (b2 & H2 & Hwf2 & Hs2).
    exists b2. unfold runOps in *. simpl. rewrite H1. simpl.
    split; [done|]. split; [done|]. auto.
Qed.

Lemma sampleBoard_well_formed : well_formed sampleBoard.
Proof. split; [done|]. by repeat constructor. Qed.

Lemma sampleLost_well_formed : well_formed sampleLost.
Proof. split; [done|]. by repeat constructor. Qed.


Lemma sampleLost_played : revealCell sampleBoard (mkPosition 0 2) = Ok sampleLost.
Proof. vm_compute. reflexivity. Qed.

Lemma sampleOpened_played : revealCell sampleBoard (mkPosition 0 0) = Ok sampleOpened.
Proof. vm_compute. reflexivity. Qed.

Lemma sampleBoard_generated :
  IntelligentMinePlacer.generateBoard (fun q => q) 4 1 1 (Some (mkPosition 0 0)) []
  = Ok (sampleBoard, []).
Proof. vm_compute. reflexivity. Qed.

(** C2, as stated, fails: on the sample game the status goes from [won] to
    [lost] when the mine is revealed after the win, and from [lost] to [won]
    when the safe cells are revealed after the loss. *)
Lemma status_not_terminal :
  ∃ b_won b_lost b_lost' b_won',
    runOps [Reveal (mkPosition 0 0); Reveal (mkPosition 0 3)] sampleBoard = Ok b_won ∧
    gameStatus b_won = won ∧
    revealCell b_won (mkPosition 0 2) = Ok b_lost ∧ gameStatus b_lost = lost ∧
    revealCell sampleBoard (mkPosition 0 2) = Ok b_lost' ∧ gameStatus b_lost' = lost ∧
    runOps [Reveal (mkPosition 0 0); Reveal (mkPosition 0 3)] b_lost' = Ok b_won' ∧
    gameStatus b_won' = won.
Proof.
  eexists _, _, _, _.
  split; [vm_compute; reflexivity|]. split; [reflexivity|].
  split; [vm_compute; reflexivity|]. split; [reflexivity|].
  split; [vm_compute; reflexivity|]. split; [reflexivity|].
  split; [vm_compute; reflexivity|]. reflexivity.
Qed.

(** C2.  On a well-formed board every sequence of [revealCell] and
    [toggleFlag] runs to a well-formed board, and once the status has left
    [playing] it never comes back to it; [toggleFlag] never changes the
    status and [revealCell] leaves it as it is or sets it to [won] or
    [lost], each on a board that is well-formed again.  Neither operation
    looks at the status, so [won] and [lost] are not closed under further
    reveals. *)
Theorem status_never_back_to_playing (b : BoardState) (ops : list Op) :
  well_formed b →
  (∃ b', runOps ops b = Ok b' ∧ well_formed b' ∧
         (gameStatus b ≠ playing → gameStatus b' ≠ playing)) ∧
  (∀ p b1, toggleFlag b p = Ok b1 →
     well_formed b1 ∧ gameStatus b1 = gameStatus b) ∧
  (∀ p b1, revealCell b p = Ok b1 →
     well_formed b1 ∧
     (gameStatus b1 = gameStatus b ∨ gameStatus b1 = won ∨ gameStatus b1 = lost)).
Proof.
  intros Hwf. split; [|split].
  - destruct (runOps_effect ops b Hwf) as (b' & Hr & Hwf' & Hs).
    exists b'. split; [done|]. split; [done|]. auto.
  - intros p b1 Hflag. split; [|by apply (toggleFlag_status b p)].
    destruct (applyOp_effect b (ToggleFlag p) Hwf) as (b' & Hr & Hwf' & _).
    simpl in Hr. rewrite Hflag in Hr. by injection Hr as <-.
  - intros p b1 Hrev. split; [|by apply (revealCell_status b p)].
    destruct (applyOp_effect b (Reveal p) Hwf) as (b' & Hr & Hwf' & _).
    simpl in Hr. rewrite Hrev in Hr. by injection Hr as <-.
Qed.

Lemma status_never_back_to_playing_witness :
  well_formed sampleLost ∧ gameStatus sampleLost = lost ∧
  ∃ b', runOps [Reveal (mkPosition 0 0); ToggleFlag (mkPosition 0 3);
                ToggleFlag (mkPosition 0 3); Reveal (mkPosition 0 3)]
               sampleLost = Ok b' ∧
        well_formed b' ∧ gameStatus b' ≠ playing ∧ gameStatus b' = won.
Proof.
  split; [exact sampleLost_well_formed|]. split; [reflexivity|].
  destruct (status_never_back_to_playing sampleLost
              [Reveal (mkPosition 0 0); ToggleFlag (mkPosition 0 3);
               ToggleFlag (mkPosition 0 3); Reveal (mkPosition 0 3)]
              sampleLost_well_formed) as [(b' & Hrun & Hwf' & Hstays) _].
  exists b'. split; [exact Hrun|]. split; [exact Hwf'|].
  split; [apply Hstays; discriminate|].
  revert Hrun. vm_compute. by intros [= <-].
Defined.



(** ** Flood fill *)

Lemma sampleStrip_well_formed : well_formed sampleStrip.
Proof. split; [done|]. by repeat constructor. Qed.

Lemma sampleStrip_reached :
  ∃ b0, IntelligentMinePlacer.generateBoard (fun q => q) 6 1 1
          (Some (mkPosition 0 4)) [] = Ok (b0, []) ∧
        toggleFlag b0 (mkPosition 0 3) = Ok sampleStrip.
Proof. eexists. split; vm_compute; reflexivity. Qed.

(** C3, as stated, fails: on [sampleStrip] the cells (0,2) to (0,5) form one
    connected region of zero-clue cells without a mine; a reveal at (0,5)
    leaves (0,3) flagged and (0,2), (0,1) hidden. *)
Lemma flood_fill_stops_at_flags :
  ∃ b' c3 c2,
    gameStatus sampleStrip = playing ∧
    zeroClue sampleStrip (mkPosition 0 5) ∧
    revealCell sampleStrip (mkPosition 0 5) = Ok b' ∧
    zeroClueRegion sampleStrip (mkPosition 0 5) (mkPosition 0 3) ∧
    zeroClueRegion sampleStrip (mkPosition 0 5) (mkPosition 0 2) ∧
    getCell (cells b') (mkPosition 0 3) = Ok c3 ∧ state c3 = flagged ∧
    getCell (cells b') (mkPosition 0 2) = Ok c2 ∧ state c2 = hidden.
Proof.
  assert (∀ q, zeroClue sampleStrip (mkPosition 0 q) ↔ 2 ≤ q ≤ 5) as Hz.
  { intros q. split.
    - intros (c & Hc & Hm & Ha).
      apply getCell_Ok in Hc as (_ & ? & rw & [= <-] & Hc). simpl in *.
      destruct (Z.to_nat q) as [|[|[|[|[|[|n]]]]]] eqn:E; simpl in Hc;
        try injection Hc as <-; simpl in *; try done; lia.
    - intros Hq. assert (q = 2 ∨ q = 3 ∨ q = 4 ∨ q = 5) as [-> | [-> | [-> | ->]]] by lia;
        eexists; (split; [vm_compute; reflexivity|by split]). }
  assert (zeroClueRegion sampleStrip (mkPosition 0 5) (mkPosition 0 4)) as H4.
  { apply (zero_step _ _ (mkPosition 0 5)); [constructor| |apply Hz; lia].
    apply elem_of_getAdjacentPositions. by vm_compute. }
  assert (zeroClueRegion sampleStrip (mkPosition 0 5) (mkPosition 0 3)) as H3.
  { apply (zero_step _ _ (mkPosition 0 4)); [done| |apply Hz; lia].
    apply elem_of_getAdjacentPositions. by vm_compute. }
  assert (zeroClueRegion sampleStrip (mkPosition 0 5) (mkPosition 0 2)) as H2.
  { apply (zero_step _ _ (mkPosition 0 3)); [done| |apply Hz; lia].
    apply elem_of_getAdjacentPositions. by vm_compute. }
  eexists _, _, _. split; [done|]. split; [apply Hz; lia|].
  split; [vm_compute; reflexivity|]. split; [done|]. split; [done|].
  split; [vm_compute; reflexivity|]. split; [reflexivity|].
  split; [vm_compute; reflexivity|]. reflexivity.
Qed.

(** C3.  On a well-formed board, a reveal at a cell [t] that is neither
    revealed nor flagged, has no mine and has clue [0] returns a board in
    which exactly the cells [revealedBy] describes have been turned to
    [revealed]: [t], and every [hidden] cell without a mine adjacent to the
    region reached from [t] through [hidden] zero-clue cells without a mine.
    Every other cell is as it was; in particular no cell with a mine is
    revealed. *)
Theorem flood_fill_reveals_region (b : BoardState) (t : Position) (c : Cell) :
  well_formed b → getCell (cells b) t = Ok c →
  state c ≠ revealed → state c ≠ flagged → hasMine c = false → adjacentMines c = 0 →
  ∃ b', revealCell b t = Ok b' ∧
        ∀ q cq, getCell (cells b) q = Ok cq →
          (revealedBy b t q cq → getCell (cells b') q = Ok (set_state revealed cq)) ∧
          (¬ revealedBy b t q cq → getCell (cells b') q = Ok cq) ∧
          (hasMine cq = true → getCell (cells b') q = Ok cq).
Proof.
  intros Hwf Hc Hr Hf Hm Hz.
  assert (outOfBounds b t = false) as Hb.
  { rewrite outOfBounds_inBounds. apply negb_false_iff. by eapply getCell_inBounds. }
  destruct (revealCell_safe b t c Hwf Hb Hc Hr Hf Hm) as (nb & Hrev & _ & _ & _ & Hflood & _).
  eexists. split; [exact Hrev|].
  intros q cq Hq. destruct (Hflood Hz q cq Hq) as [Hyes Hno].
  assert (cells (if revealedCount nb =? width b * height b - mineCount b
                 then set_gameStatus won nb else nb) = cells nb) as -> by (by destruct (_ =? _)).
  split; [done|]. split; [done|].
  intros Hmine. apply Hno. intros [->|(_ & ? & _)]; congruence.
Qed.

Lemma flood_fill_reveals_region_witness :
  ∃ b', revealCell sampleStrip (mkPosition 0 5) = Ok b' ∧
        ∀ q cq, getCell (cells sampleStrip) q = Ok cq →
          (revealedBy sampleStrip (mkPosition 0 5) q cq →
           getCell (cells b') q = Ok (set_state revealed cq)) ∧
          (¬ revealedBy sampleStrip (mkPosition 0 5) q cq →
           getCell (cells b') q = Ok cq) ∧
          (hasMine cq = true → getCell (cells b') q = Ok cq).
Proof.
  apply (flood_fill_reveals_region sampleStrip (mkPosition 0 5)
           (mkCell hidden false 0 (mkPosition 0 5)) sampleStrip_well_formed);
    [reflexivity|discriminate|discriminate|reflexivity|reflexivity].
Defined.
(** ** The hint engine *)

Lemma stateAt_Ok b q c : getCell (cells b) q = Ok c → stateAt b q = state c.
Proof. intros H. unfold stateAt. by rewrite H. Qed.

Lemma mineAt_Ok b q c : getCell (cells b) q = Ok c → mineAt b q = hasMine c.
Proof. intros H. unfold mineAt. by rewrite H. Qed.

Lemma statesAround_Ok b adj :
  well_formed b → (∀ q, q ∈ adj → inBounds b (row q) (col q) = true) →
  statesAround b adj = Ok (stateAt b <$> adj).
Proof.
  intros Hwf Hin. apply mapR_Ok. intros q Hq.
  destruct (getCell_well_formed b q Hwf (Hin q Hq)) as [c Hc].
  rewrite Hc. simpl. by rewrite (stateAt_Ok _ _ _ Hc).
Qed.

Lemma positionsInState_Ok b s adj :
  well_formed b → (∀ q, q ∈ adj → inBounds b (row q) (col q) = true) →
  positionsInState b s adj = Ok (filter (fun q => stateAt b q = s) adj).
Proof.
  intros Hwf Hin. unfold positionsInState.
  rewrite (filterR_Ok _ (fun q => bool_decide (stateAt b q = s))).
  - f_equal. apply list_filter_iff. intros q.
    split; [apply bool_decide_eq_true_1 | apply bool_decide_eq_true_2].
  - intros q Hq. destruct (getCell_well_formed b q Hwf (Hin q Hq)) as [c Hc].
    rewrite Hc. simpl. by rewrite (stateAt_Ok _ _ _ Hc).
Qed.

Lemma length_filter_fmap {A B : Type} (f : A -> B) (P : B -> Prop)
    `{∀ y, Decision (P y)} (l : list A) :
  length (filter P (f <$> l)) = length (filter (fun x => P (f x)) l).
Proof.
  induction l as [|x l IH]; [done|]. rewrite fmap_cons, !filter_cons.
  destruct (decide (P (f x))); simpl; by rewrite IH.
Qed.

Lemma length_filter_mono {A : Type} (P Q : A -> Prop)
    `{∀ x, Decision (P x)} `{∀ x, Decision (Q x)} (l : list A) :
  (∀ x, x ∈ l → P x → Q x) →
  (length (filter P l) ≤ length (filter Q l))%nat.
Proof.
  induction l as [|x l IH]; intros Himp; [done|]. rewrite !filter_cons.
  assert (length (filter P l) ≤ length (filter Q l))%nat as Hle
    by (apply IH; intros y Hy; apply Himp; by right).
  destruct (decide (P x)) as [HP|HP], (decide (Q x)) as [HQ|HQ]; simpl; try lia.
  destruct HQ. apply Himp; [left|done].
Qed.

(** When [P] implies [Q] on a list and both hold equally often, they hold
    of the same elements. *)
Lemma filter_same_count {A : Type} (P Q : A -> Prop)
    `{∀ x, Decision (P x)} `{∀ x, Decision (Q x)} (l : list A) :
  (∀ x, x ∈ l → P x → Q x) →
  length (filter P l) = length (filter Q l) →
  ∀ x, x ∈ l → Q x → P x.
Proof.
  induction l as [|y l IH]; intros Himp Hlen x Hx HQ; [by apply elem_of_nil in Hx|].
  assert (∀ z, z ∈ l → P z → Q z) as Himp' by (intros z Hz; apply Himp; by right).
  pose proof (length_filter_mono P Q l Himp') as Hle.
  rewrite !filter_cons in Hlen.
  destruct (decide (P y)) as [HPy|HPy], (decide (Q y)) as [HQy|HQy]; simpl in Hlen.
  - apply elem_of_cons in Hx as [->|Hx]; [done|]. apply IH; [done|lia|done|done].
  - destruct HQy. apply Himp; [left|done].
  - lia.
  - apply elem_of_cons in Hx as [->|Hx]; [done|]. by apply IH.
Qed.

Lemma safeMovesAt_sound b q :
  well_formed b → revealedSafe b → cluesCorrect b → flagsOnMines b →
  inBounds b (row q) (col q) = true →
  ∃ ms, safeMovesAt b q = Ok ms ∧
        ∀ p, p ∈ ms → ∃ c, getCell (cells b) p = Ok c ∧ hasMine c = false.
Proof.
  intros Hwf Hrs Hcc Hfm Hin.
  destruct (getCell_well_formed b q Hwf Hin) as [cell Hcell].
  unfold safeMovesAt. rewrite Hcell. simpl.
  assert (∃ ms : list Position, Ok [] = Ok ms ∧
            ∀ p, p ∈ ms → ∃ c, getCell (cells b) p = Ok c ∧ hasMine c = false) as Hnone.
  { exists []. split; [done|]. intros p Hp. by apply elem_of_nil in Hp. }
  destruct (bool_decide (state cell = revealed) && (adjacentMines cell >? 0)) eqn:Htest;
    [|done].
  apply andb_true_iff in Htest as [Hrev%bool_decide_eq_true _].
  rewrite statesAround_Ok, positionsInState_Ok
    by (done || apply getAdjacentPositions_inBounds). simpl.
  set (adj := getAdjacentPositions b q).
  destruct ((Z.of_nat (length (filter (λ s, s = flagged) (stateAt b <$> adj)))
             =? adjacentMines cell)
            && (0 <? Z.of_nat (length (filter (λ p, stateAt b p = hidden) adj))))
    eqn:Hfire; [|done].
  apply andb_true_iff in Hfire as [Hcount%Z.eqb_eq _].
  eexists. split; [done|]. intros p [Hhid Hp]%list_elem_of_filter.
  assert (inBounds b (row p) (col p) = true) as Hpin
    by (by eapply getAdjacentPositions_inBounds).
  destruct (getCell_well_formed b p Hwf Hpin) as [c Hc].
  exists c. split; [done|].
  destruct (hasMine c) eqn:Hmine; [|done]. exfalso.
  rewrite (Hcc q cell Hcell (Hrs q cell Hcell Hrev)) in Hcount.
  unfold mineNeighbours in Hcount. fold adj in Hcount.
  rewrite length_filter_fmap in Hcount. apply Nat2Z.inj in Hcount.
  assert (stateAt b p = flagged) as Hflag.
  { apply (filter_same_count (fun r => stateAt b r = flagged)
             (fun r => mineAt b r = true) adj); [|done|done|].
    - intros r Hr Hfl.
      destruct (getCell_well_formed b r Hwf (getAdjacentPositions_inBounds _ _ _ Hr))
        as [cr Hcr].
      rewrite (mineAt_Ok _ _ _ Hcr). apply (Hfm r cr Hcr).
      by rewrite <- (stateAt_Ok _ _ _ Hcr).
    - by rewrite (mineAt_Ok _ _ _ Hc). }
  congruence.
Qed.

Lemma removeDuplicatesFrom_subset seen l p :
  p ∈ removeDuplicatesFrom seen l → p ∈ l.
Proof.
  revert seen. induction l as [|x l IH]; intros seen; simpl; [done|].
  case_bool_decide.
  - intros H'. right. by eapply IH.
  - intros [->|H']%elem_of_cons; [left|right]. by eapply IH.
Qed.

Lemma findSafeMoves_sound b :
  well_formed b → revealedSafe b → cluesCorrect b → flagsOnMines b →
  ∃ l, findSafeMoves b = Ok l ∧
       ∀ p, p ∈ l → ∃ c, getCell (cells b) p = Ok c ∧ hasMine c = false.
Proof.
  intros Hwf Hrs Hcc Hfm. unfold findSafeMoves.
  destruct (foldR_preserves
              (fun acc q => ms ← safeMovesAt b q; Ok (acc ++ ms))
              (fun acc : list Position =>
                 ∀ p, p ∈ acc → ∃ c, getCell (cells b) p = Ok c ∧ hasMine c = false)
              (gridPositions (height b) (width b)) [])
    as (acc & -> & Hacc).
  - intros p Hp. by apply elem_of_nil in Hp.
  - intros q acc Hq Hacc.
    destruct (safeMovesAt_sound b q Hwf Hrs Hcc Hfm) as (ms & -> & Hms).
    { by apply elem_of_gridPositions_inBounds. }
    simpl. eexists. split; [done|].
    intros p [?|?]%elem_of_app; auto.
  - simpl. eexists. split; [done|]. intros p Hp.
    apply Hacc. by eapply removeDuplicatesFrom_subset.
Qed.

Lemma safeMovesAt_inBounds b q :
  well_formed b → inBounds b (row q) (col q) = true →
  ∃ ms, safeMovesAt b q = Ok ms ∧
        ∀ p, p ∈ ms → inBounds b (row p) (col p) = true.
Proof.
  intros Hwf Hin.
  destruct (getCell_well_formed b q Hwf Hin) as [cell Hcell].
  unfold safeMovesAt. rewrite Hcell. simpl.
  assert (∃ ms : list Position, Ok [] = Ok ms ∧
            ∀ p, p ∈ ms → inBounds b (row p) (col p) = true) as Hnone.
  { exists []. split; [done|]. intros p Hp. by apply elem_of_nil in Hp. }
  destruct (bool_decide (state cell = revealed) && (adjacentMines cell >? 0)); [|done].
  rewrite statesAround_Ok, positionsInState_Ok
    by (done || apply getAdjacentPositions_inBounds). simpl.
  destruct (_ && _); [|done].
  eexists. split; [done|]. intros p [_ Hp]%list_elem_of_filter.
  by eapply getAdjacentPositions_inBounds.
Qed.

Lemma findSafeMoves_inBounds b :
  well_formed b →
  ∃ l, findSafeMoves b = Ok l ∧ ∀ p, p ∈ l → inBounds b (row p) (col p) = true.
Proof.
  intros Hwf. unfold findSafeMoves.
  destruct (foldR_preserves
              (fun acc q => ms ← safeMovesAt b q; Ok (acc ++ ms))
              (fun acc : list Position =>
                 ∀ p, p ∈ acc → inBounds b (row p) (col p) = true)
              (gridPositions (height b) (width b)) [])
    as (acc & -> & Hacc).
  - intros p Hp. by apply elem_of_nil in Hp.
  - intros q acc Hq Hacc.
    destruct (safeMovesAt_inBounds b q Hwf) as (ms & -> & Hms).
    { by apply elem_of_gridPositions_inBounds. }
    simpl. eexists. split; [done|].
    intros p [?|?]%elem_of_app; auto.
  - simpl. eexists. split; [done|]. intros p Hp.
    apply Hacc. by eapply removeDuplicatesFrom_subset.
Qed.

(** *** The logical branch *)

Lemma logicalMovesAt_same b q acc acc' :
  logicalMovesAt b q acc = Ok acc' → acc' = acc.
Proof.
  unfold logicalMovesAt. intros H.
  apply bind_Ok in H as (cell & _ & H).
  destruct (bool_decide (state cell = revealed) && (adjacentMines cell >? 0));
    [|congruence].
  apply bind_Ok in H as (sts & _ & H). apply bind_Ok in H as (hs & _ & H).
  destruct (_ && _); congruence.
Qed.

Lemma findLogicalMoves_nil b l : findLogicalMoves b = Ok l → l = [].
Proof.
  unfold findLogicalMoves.
  assert (∀ qs acc, foldR (fun acc q => logicalMovesAt b q acc) qs acc = Ok l → l = acc)
    as Hgen; [|apply Hgen].
  induction qs as [|q qs IH]; intros acc; simpl.
  - congruence.
  - intros H. apply bind_Ok in H as (acc' & Hq & H).
    apply logicalMovesAt_same in Hq as ->. by apply IH.
Qed.

Lemma logicalMovesAt_Ok b q acc :
  well_formed b → inBounds b (row q) (col q) = true →
  logicalMovesAt b q acc = Ok acc.
Proof.
  intros Hwf Hin. destruct (getCell_well_formed b q Hwf Hin) as [cell Hcell].
  unfold logicalMovesAt. rewrite Hcell. simpl.
  destruct (bool_decide (state cell = revealed) && (adjacentMines cell >? 0)); [|done].
  rewrite statesAround_Ok, positionsInState_Ok
    by (done || apply getAdjacentPositions_inBounds). simpl.
  by destruct (_ && _).
Qed.

Lemma findLogicalMoves_Ok b : well_formed b → findLogicalMoves b = Ok [].
Proof.
  intros Hwf. unfold findLogicalMoves.
  destruct (foldR_preserves (fun acc q => logicalMovesAt b q acc)
              (fun acc => acc = []) (gridPositions (height b) (width b)) [])
    as (acc & -> & ->); [done| |done].
  intros q acc Hq ->. exists []. split; [|done].
  apply logicalMovesAt_Ok; [done|]. by apply elem_of_gridPositions_inBounds.
Qed.

(** *** [analyzeBoard] returns *)

Lemma calculateInformationGain_total b p :
  well_formed b → inBounds b (row p) (col p) = true →
  ∃ n, calculateInformationGain b p = Ok n.
Proof.
  intros Hwf Hin. destruct (getCell_well_formed b p Hwf Hin) as [c Hc].
  unfold calculateInformationGain. rewrite Hc. simpl.
  destruct (adjacentMines c =? 0); [by eexists|].
  rewrite positionsInState_Ok by (done || apply getAdjacentPositions_inBounds).
  by eexists.
Qed.

Lemma selectBestSafeMove_total b safeMoves :
  well_formed b → safeMoves ≠ [] →
  (∀ p, p ∈ safeMoves → inBounds b (row p) (col p) = true) →
  ∃ best, selectBestSafeMove b safeMoves = Ok best ∧
          inBounds b (row best) (col best) = true.
Proof.
  intros Hwf Hne Hin. unfold selectBestSafeMove.
  destruct safeMoves as [|first rest]; [done|].
  destruct rest as [|second rest].
  { exists first. split; [done|]. apply Hin. left. }
  destruct (foldR_preserves
              (fun st move =>
                 informationGain ← calculateInformationGain b move;
                 Ok (if informationGain >? st.2 then (move, informationGain) else st))
              (fun st : Position * Z => inBounds b (row st.1) (col st.1) = true)
              (first :: second :: rest) (first, 0)) as (st & -> & Hst).
  - apply Hin. left.
  - intros move st Hmove Hst.
    destruct (calculateInformationGain_total b move Hwf (Hin move Hmove)) as [n ->].
    simpl. eexists. split; [done|]. destruct (n >? st.2); [by apply Hin|done].
  - by exists st.1.
Qed.

Lemma explainFrom_total b adj :
  well_formed b → (∀ q, q ∈ adj → inBounds b (row q) (col q) = true) →
  ∃ why, explainFrom b adj = Ok why.
Proof.
  intros Hwf. induction adj as [|q adj IH]; intros Hin; simpl; [by eexists|].
  destruct (getCell_well_formed b q Hwf) as [c ->]; [apply Hin; left|]. simpl.
  assert (∃ why, explainFrom b adj = Ok why) as Hrest
    by (apply IH; intros q' Hq'; apply Hin; by right).
  destruct (bool_decide (state c = revealed) && (adjacentMines c >? 0)); [|done].
  rewrite positionsInState_Ok by (done || apply getAdjacentPositions_inBounds).
  simpl. destruct (_ =? _); [by eexists|done].
Qed.

Lemma constraintAt_total b st q :
  well_formed b → inBounds b (row q) (col q) = true →
  ∃ st', constraintAt b st q = Ok st'.
Proof.
  intros Hwf Hin. destruct (getCell_well_formed b q Hwf Hin) as [c Hc].
  unfold constraintAt. rewrite Hc. simpl.
  destruct (bool_decide (state c = revealed) && (adjacentMines c >? 0)); [|by eexists].
  rewrite !positionsInState_Ok by (done || apply getAdjacentPositions_inBounds).
  simpl. destruct (_ >? _); by eexists.
Qed.

Lemma calculateSafeProbability_total b p :
  well_formed b → ∃ pr, calculateSafeProbability b p = Ok pr.
Proof.
  intros Hwf. unfold calculateSafeProbability.
  destruct (foldR_preserves (constraintAt b) (fun _ => True)
              (getAdjacentPositions b p) (0, 0%Q)) as ([n q] & -> & _); [done| |].
  - intros x st Hx _. destruct (constraintAt_total b st x Hwf) as [st' ->];
      [by eapply getAdjacentPositions_inBounds|]. by exists st'.
  - simpl. destruct (n =? 0); by eexists.
Qed.

Lemma mapR_total {A B : Type} (f : A -> result B) (l : list A) :
  (∀ x, x ∈ l → ∃ y, f x = Ok y) → ∃ ys, mapR f l = Ok ys.
Proof.
  induction l as [|x l IH]; intros H; simpl; [by eexists|].
  destruct (H x) as [y ->]; [left|]. simpl.
  destruct IH as [ys ->]; [intros z Hz; apply H; by right|]. by eexists.
Qed.

Lemma getCellsByState_total b s :
  well_formed b → ∃ l, getCellsByState b s = Ok l.
Proof.
  intros Hwf.
  change (getCellsByState b s)
    with (positionsInState b s (gridPositions (height b) (width b))).
  rewrite positionsInState_Ok; [by eexists|done|].
  intros q Hq. by apply elem_of_gridPositions_inBounds.
Qed.

Lemma findProbabilityMoves_total b :
  well_formed b → ∃ l, findProbabilityMoves b = Ok l.
Proof.
  intros Hwf. unfold findProbabilityMoves.
  destruct (getCellsByState_total b hidden Hwf) as [hs ->]. simpl.
  destruct (mapR_total (fun q => pr ← calculateSafeProbability b q; Ok (q, pr)) hs)
    as [ms ->]; [|by eexists].
  intros q _. destruct (calculateSafeProbability_total b q Hwf) as [pr ->]. by eexists.
Qed.

Lemma analyzeBoard_total b : well_formed b → ∃ r, analyzeBoard b = Ok r.
Proof.
  intros Hwf. unfold analyzeBoard.
  destruct (negb (bool_decide (gameStatus b = playing)) || firstClick b); [by eexists|].
  destruct (findSafeMoves_inBounds b Hwf) as (safeMoves & -> & Hin). simpl.
  destruct (Z.ltb_spec 0 (Z.of_nat (length safeMoves))) as [Hlen|_].
  - destruct (selectBestSafeMove_total b safeMoves Hwf) as (best & -> & Hbest);
      [by destruct safeMoves|done|].
    simpl. unfold explainSafeMove.
    destruct (explainFrom_total b (getAdjacentPositions b best) Hwf) as [why ->];
      [apply getAdjacentPositions_inBounds|]. by eexists.
  - rewrite (findLogicalMoves_Ok b Hwf). simpl.
    destruct (findProbabilityMoves_total b Hwf) as [l ->]. simpl.
    destruct l; by eexists.
Qed.

(** C9.  On every well-formed board [findLogicalMoves] returns the empty
    list and [analyzeBoard] returns; on any board [findLogicalMoves] can
    return nothing but the empty list, and [analyzeBoard] never returns a
    hint of move type [logical]. *)
Theorem logical_branch_is_dead (b : BoardState) :
  (well_formed b → findLogicalMoves b = Ok [] ∧ ∃ r, analyzeBoard b = Ok r) ∧
  (∀ l, findLogicalMoves b = Ok l → l = []) ∧
  (∀ h, analyzeBoard b = Ok (Some h) → moveType h ≠ logical).
Proof.
  split.
  { intros Hwf. split; [by apply findLogicalMoves_Ok|by apply analyzeBoard_total]. }
  split; [apply findLogicalMoves_nil|].
  intros h. unfold analyzeBoard.
  destruct (negb (bool_decide (gameStatus b = playing)) || firstClick b); [done|].
  intros H. apply bind_Ok in H as (safeMoves & _ & H).
  destruct (0 <? Z.of_nat (length safeMoves)).
  - apply bind_Ok in H as (best & _ & H). apply bind_Ok in H as (why & _ & H).
    by injection H as <-.
  - apply bind_Ok in H as (logicalMoves & Hl & H).
    apply findLogicalMoves_nil in Hl as ->. simpl in H.
    apply bind_Ok in H as (probabilityMoves & _ & H).
    destruct probabilityMoves; [done|]. by injection H as <-.
Qed.

Lemma logical_branch_is_dead_witness :
  findLogicalMoves sampleFlagged = Ok [] ∧ ∃ r, analyzeBoard sampleFlagged = Ok r.
Proof.
  apply (proj1 (logical_branch_is_dead sampleFlagged)).
  split; [done|]. by repeat constructor.
Defined.

(** ** Clues *)

Lemma getAdjacentPositions_filter b p :
  getAdjacentPositions b p = filter (fun q => isNeighbour b p q = true) (squareAround p).
Proof.
  unfold getAdjacentPositions, squareAround.
  generalize (seqZ (row p - 1) 3) as rs. generalize (seqZ (col p - 1) 3) as cs.
  intros cs rs. induction rs as [|r rs IH]; [done|].
  rewrite !bind_cons, filter_app, IH. f_equal.
  clear. induction cs as [|c cs IH]; [done|].
  rewrite !bind_cons, filter_app, IH. f_equal.
  simpl. rewrite filter_cons. unfold isNeighbour. simpl.
  destruct (inBounds b r c && negb ((r =? row p) && (c =? col p))); by case_decide.
Qed.

Lemma count_mines_fold b (cond : Position -> bool) (l : list Position) (n : Z) :
  (∀ q, q ∈ l → cond q = true → ∃ c, getCell (cells b) q = Ok c) →
  foldR (fun count q =>
           if cond q
           then c ← getCell (cells b) q; Ok (if hasMine c then count + 1 else count)
           else Ok count) l n
  = Ok (n + Z.of_nat (length (filter (fun q => mineAt b q = true)
                                (filter (fun q => cond q = true) l)))).
Proof.
  revert n. induction l as [|q l IH]; intros n Hread; simpl.
  - f_equal. lia.
  - assert (∀ q', q' ∈ l → cond q' = true → ∃ c, getCell (cells b) q' = Ok c) as Hread'
      by (intros q' Hq'; apply Hread; by right).
    rewrite filter_cons. destruct (decide (cond q = true)) as [Hc|Hc].
    + rewrite Hc. destruct (Hread q) as [c Hq]; [left|done|]. rewrite Hq. simpl.
      rewrite IH by done. rewrite filter_cons, (mineAt_Ok _ _ _ Hq).
      destruct (hasMine c); case_decide; try done; simpl; f_equal; lia.
    + apply not_true_is_false in Hc. rewrite Hc. simpl. by rewrite IH.
Qed.

Lemma countAdjacentMines_Ok b p :
  well_formed b → countAdjacentMines b p = Ok (mineNeighbours b p).
Proof.
  intros Hwf. unfold countAdjacentMines. fold (squareAround p).
  trans (foldR (fun count q =>
                  if isNeighbour b p q
                  then c ← getCell (cells b) q; Ok (if hasMine c then count + 1 else count)
                  else Ok count) (squareAround p) 0).
  - unfold isNeighbour. generalize (squareAround p) as l. generalize 0 as n.
    intros n l. revert n. induction l as [|q l IH]; intros n; simpl; [done|].
    destruct (inBounds b (row q) (col q)); simpl; [|apply IH].
    destruct (negb ((row q =? row p) && (col q =? col p))); simpl; [|apply IH].
    destruct (getCell (cells b) q); simpl; [apply IH|done|done].
  - rewrite count_mines_fold.
    + unfold mineNeighbours. by rewrite getAdjacentPositions_filter, Z.add_0_l.
    + intros q _ [Hin _]%andb_true_iff. by apply getCell_well_formed.
Qed.

Lemma placer_countAdjacentMines_Ok b p :
  well_formed b → IntelligentMinePlacer.countAdjacentMines b p = Ok (mineNeighbours b p).
Proof.
  intros Hwf. unfold IntelligentMinePlacer.countAdjacentMines, mineNeighbours.
  pose proof (count_mines_fold b (fun _ => true) (getAdjacentPositions b p) 0) as H.
  simpl in H. rewrite H.
  - rewrite Z.add_0_l.
    assert (∀ l : list Position, filter (fun _ => true = true) l = l) as ->; [|done].
    induction l as [|q l IH]; [done|].
    rewrite filter_cons. rewrite decide_True by done. by f_equal.
  - intros q Hq _. apply getCell_well_formed; [done|].
    by eapply getAdjacentPositions_inBounds.
Qed.

Lemma filter_ext_elem {A : Type} (P Q : A -> Prop)
    `{∀ x, Decision (P x)} `{∀ x, Decision (Q x)} (l : list A) :
  (∀ x, x ∈ l → P x ↔ Q x) → filter P l = filter Q l.
Proof.
  induction l as [|x l IH]; intros Hiff; [done|]. rewrite !filter_cons.
  rewrite IH by (intros y Hy; apply Hiff; by right).
  destruct (decide (P x)) as [HP|HP], (decide (Q x)) as [HQ|HQ]; try done.
  - destruct HQ. apply Hiff; [left|done].
  - destruct HP. apply Hiff; [left|done].
Qed.

Lemma mineNeighbours_same b b' q :
  width b' = width b → height b' = height b →
  (∀ r, inBounds b (row r) (col r) = true → mineAt b' r = mineAt b r) →
  mineNeighbours b' q = mineNeighbours b q.
Proof.
  intros Hw Hh Hm. unfold mineNeighbours.
  rewrite (getAdjacentPositions_frame b b') by done.
  do 2 f_equal. apply filter_ext_elem. intros r Hr.
  by rewrite Hm by (by eapply getAdjacentPositions_inBounds).
Qed.

Lemma updCell_ext f g cs p c :
  getCell cs p = Ok c → f c = g c → updCell f cs p = updCell g cs p.
Proof.
  intros Hc Hfg. unfold updCell. rewrite Hc. simpl. f_equal.
  apply getCell_Ok in Hc as (_ & _ & rw & Hrw & Hcell).
  apply list_alter_ext; [|done]. intros rw' Hrw'.
  assert (rw' = rw) as -> by congruence.
  apply list_alter_ext; [|done]. intros c' Hc'. congruence.
Qed.

Lemma clue_loop_spec
    (count : BoardState -> Position -> result Z) (b0 : BoardState) :
  (∀ nb q, well_formed nb → count nb q = Ok (mineNeighbours nb q)) →
  well_formed b0 →
  ∃ nb, foldR (fun newBoard q =>
                 c ← getCell (cells newBoard) q;
                 if negb (hasMine c)
                 then n ← count newBoard q;
                      cs ← updCell (set_adjacentMines n) (cells newBoard) q;
                      Ok (set_cells cs newBoard)
                 else Ok newBoard)
              (gridPositions (height b0) (width b0)) b0 = Ok nb ∧
        nb = set_cells (cells nb) b0 ∧ well_formed nb ∧
        ∀ q c, getCell (cells b0) q = Ok c → getCell (cells nb) q = Ok (withClue b0 q c).
Proof.
  intros Hcount Hwf. apply (grid_loop_spec (withClue b0)); [done|].
  intros done nb q c Hfr Hsh Hcells Hfresh Hc.
  pose proof (Hcells q c Hc) as Hnb. rewrite decide_False in Hnb by done.
  rewrite Hnb. simpl. destruct (hasMine c) eqn:Hm; simpl.
  - exists (cells nb). split; [|by destruct nb].
    apply (updCell_id_Ok _ _ _ c); [done|]. unfold withClue. by rewrite Hm.
  - rewrite Hcount by done. simpl.
    assert (mineNeighbours nb q = mineNeighbours b0 q) as ->.
    { apply mineNeighbours_same; [by rewrite Hfr|by rewrite Hfr|].
      intros r Hr. destruct (getCell_well_formed b0 r Hwf Hr) as [cr Hcr].
      rewrite (mineAt_Ok _ _ _ Hcr), (mineAt_Ok _ _ _ (Hcells r cr Hcr)).
      case_decide; [|done]. unfold withClue. by destruct (hasMine cr) eqn:E. }
    rewrite (updCell_ext (withClue b0 q) (set_adjacentMines (mineNeighbours b0 q)) _ _ c)
      by (done || (unfold withClue; by rewrite Hm)).
    unfold updCell. rewrite Hnb. simpl. eauto.
Qed.

Lemma calculateAdjacentMines_spec b0 :
  well_formed b0 →
  ∃ nb, calculateAdjacentMines b0 = Ok nb ∧
        nb = set_cells (cells nb) b0 ∧ well_formed nb ∧
        ∀ q c, getCell (cells b0) q = Ok c → getCell (cells nb) q = Ok (withClue b0 q c).
Proof. apply clue_loop_spec. intros nb q. apply countAdjacentMines_Ok. Qed.

Lemma placer_calculateAdjacentMines_spec b0 :
  well_formed b0 →
  ∃ nb, IntelligentMinePlacer.calculateAdjacentMines b0 = Ok nb ∧
        nb = set_cells (cells nb) b0 ∧ well_formed nb ∧
        ∀ q c, getCell (cells b0) q = Ok c → getCell (cells nb) q = Ok (withClue b0 q c).
Proof. apply clue_loop_spec. intros nb q. apply placer_countAdjacentMines_Ok. Qed.

Lemma getCell_same_shape b b' q c' :
  well_formed b → well_formed b' → width b' = width b → height b' = height b →
  getCell (cells b') q = Ok c' → ∃ c, getCell (cells b) q = Ok c.
Proof.
  intros Hwf Hwf' Hw Hh Hc'. apply getCell_well_formed; [done|].
  apply getCell_inBounds in Hc'; [|done].
  unfold inBounds in *. by rewrite <- Hw, <- Hh.
Qed.

(** After the clues are computed they are the true counts. *)
Lemma withClue_cluesCorrect b0 nb :
  well_formed b0 → well_formed nb → nb = set_cells (cells nb) b0 →
  (∀ q c, getCell (cells b0) q = Ok c → getCell (cells nb) q = Ok (withClue b0 q c)) →
  cluesCorrect nb.
Proof.
  intros Hwf Hwf' Hfr Hcells q c' Hc' Hm.
  destruct (getCell_same_shape b0 nb q c' Hwf Hwf') as [c Hc];
    [by rewrite Hfr|by rewrite Hfr|done|].
  pose proof (Hcells q c Hc) as Hnb. assert (c' = withClue b0 q c) as -> by congruence.
  assert (hasMine c = false) as Hmc.
  { unfold withClue in Hm. destruct (hasMine c) eqn:E; [simpl in Hm; congruence|done]. }
  unfold withClue. rewrite Hmc. simpl. symmetry.
  apply mineNeighbours_same; [by rewrite Hfr|by rewrite Hfr|].
  intros r Hr. destruct (getCell_well_formed b0 r Hwf Hr) as [cr Hcr].
  rewrite (mineAt_Ok _ _ _ Hcr), (mineAt_Ok _ _ _ (Hcells r cr Hcr)).
  unfold withClue. by destruct (hasMine cr) eqn:E.
Qed.
(** ** The random source *)

Lemma fracQ_bounds q : (0 <= fracQ q)%Q ∧ (fracQ q < 1)%Q.
Proof.
  unfold fracQ. pose proof (Qfloor_le q) as Hlo. pose proof (Qlt_floor q) as Hhi.
  rewrite inject_Z_plus in Hhi. change (inject_Z 1) with 1%Q in Hhi. split; lra.
Qed.

Lemma random_bounds g : (0 <= (random g).1)%Q ∧ ((random g).1 < 1)%Q.
Proof.
  destruct g as [|q g]; simpl; [split; lra|]. apply fracQ_bounds.
Qed.

Lemma randomIndex_lt n g : (0 < n)%nat → ((randomIndex n g).1 < n)%nat.
Proof.
  intros Hn. unfold randomIndex.
  pose proof (random_bounds g) as [Hlo Hhi].
  destruct (random g) as [x g']. cbn [fst] in *.
  set (y := (x * inject_Z (Z.of_nat n))%Q).
  assert (0 < inject_Z (Z.of_nat n))%Q as Hpos.
  { change 0%Q with (inject_Z 0). rewrite <- Zlt_Qlt. lia. }
  assert (0 <= y)%Q as Hy0 by (unfold y; nra).
  assert (y < inject_Z (Z.of_nat n))%Q as Hy1 by (unfold y; nra).
  assert (0 ≤ Qfloor y) as Hf0.
  { change 0 with (Qfloor 0). by apply Qfloor_resp_le. }
  assert (Qfloor y < Z.of_nat n) as Hf1.
  { rewrite Zlt_Qlt. eapply Qle_lt_trans; [apply Qfloor_le|done]. }
  fold y. lia.
Qed.

Lemma shuffleFrom_perm {A : Type} n : ∀ (l : list A) g, (shuffleFrom n l g).1 ≡ₚ l.
Proof.
  induction n as [|n IH]; intros l g; simpl; [done|].
  destruct (randomIndex (length l) g) as [i g'].
  destruct (l !! i) as [x|] eqn:E; [|done].
  specialize (IH (delete i l) g').
  destruct (shuffleFrom n (delete i l) g') as [rest g'']. simpl in *.
  rewrite IH. symmetry. by apply delete_Permutation.
Qed.

Lemma shuffle_perm {A : Type} (l : list A) g : (shuffle l g).1 ≡ₚ l.
Proof. apply shuffleFrom_perm. Qed.

Lemma insertDescending_perm {A : Type} (key : A -> Q) x l :
  insertDescending key x l ≡ₚ x :: l.
Proof.
  induction l as [|y l IH]; simpl; [done|].
  destruct (Qle_bool (key y) (key x)); [done|].
  rewrite IH. apply Permutation_swap.
Qed.

Lemma sortDescending_perm {A : Type} (key : A -> Q) l : sortDescending key l ≡ₚ l.
Proof.
  induction l as [|x l IH]; simpl; [done|].
  unfold sortDescending in *. simpl. by rewrite insertDescending_perm, IH.
Qed.

(** ** Laying mines *)

Lemma createEmptyBoard_well_formed w h : well_formed (createEmptyBoard w h).
Proof.
  split; simpl.
  - by rewrite length_fmap, length_seqZ.
  - apply Forall_fmap, Forall_forall. intros r _. simpl.
    by rewrite length_fmap, length_seqZ.
Qed.

Lemma createEmptyBoard_cell w h q c :
  getCell (cells (createEmptyBoard w h)) q = Ok c →
  c = mkCell hidden false 0 q.
Proof.
  intros (Hr & Hc & rw & Hrw & Hcell)%getCell_Ok. simpl in Hrw.
  apply list_lookup_fmap_Some in Hrw as (r & -> & Hr').
  apply list_lookup_fmap_Some in Hcell as (c' & -> & Hc').
  apply lookup_seqZ in Hr' as [-> _]. apply lookup_seqZ in Hc' as [-> _].
  destruct q. simpl in *. f_equal. f_equal; lia.
Qed.

Lemma elem_of_collectAvailable h w sz q :
  q ∈ collectAvailable h w sz ↔
  isAvailable sz q = true ∧ 0 ≤ row q < h ∧ 0 ≤ col q < w.
Proof.
  unfold collectAvailable. by rewrite list_elem_of_filter, elem_of_gridPositions.
Qed.

Lemma sown_refl sz b0 : well_formed b0 → sown sz b0 b0.
Proof.
  intros Hwf. split; [by destruct b0|]. split; [done|]. intros q c Hq. eauto.
Qed.

Lemma sown_step sz b0 nb pos :
  well_formed b0 → sown sz b0 nb →
  inBounds b0 (row pos) (col pos) = true → isAvailable sz pos = true →
  ∃ cs, updCell (set_hasMine true) (cells nb) pos = Ok cs ∧
        sown sz b0 (set_cells cs nb).
Proof.
  intros Hwf0 (Hfr & Hwf & Hcells) Hin Hav.
  destruct (getCell_well_formed b0 pos Hwf0 Hin) as [c0 Hc0].
  destruct (Hcells pos c0 Hc0) as (c1 & Hc1 & Hrel).
  assert (∃ cs, updCell (set_hasMine true) (cells nb) pos = Ok cs) as [cs Hcs].
  { unfold updCell. rewrite Hc1. simpl. eauto. }
  exists cs. split; [done|]. split; [|split].
  - simpl. rewrite Hfr. reflexivity.
  - by eapply well_formed_updCell.
  - intros q c Hq. simpl. destruct (decide (q = pos)) as [->|Hne].
    + assert (c = c0) as -> by congruence. eexists.
      split; [by eapply getCell_updCell_eq|]. right. split; [|done].
      destruct Hrel as [->|[-> _]]; done.
    + rewrite (getCell_updCell_ne _ _ _ _ _ Hcs Hne). by apply Hcells.
Qed.

(** From mines laid on the empty board to the generated board. *)
Lemma sown_minedFrom sz w h nb m b :
  sown sz (createEmptyBoard w h) nb →
  b = set_cells (cells b) (set_mineCount m nb) → well_formed b →
  (∀ q c, getCell (cells nb) q = Ok c →
          getCell (cells b) q = Ok (withClue (set_mineCount m nb) q c)) →
  width b = w ∧ height b = h ∧ minedFrom sz b.
Proof.
  intros (Hfr & Hwf & Hcells) Hb Hwfb Hclue.
  assert (well_formed (set_mineCount m nb)) as Hwfm
    by (by apply (well_formed_frame nb)).
  split; [by rewrite Hb, Hfr|]. split; [by rewrite Hb, Hfr|].
  split; [done|]. split; [by rewrite Hb, Hfr|]. split.
  - by apply (withClue_cluesCorrect (set_mineCount m nb)).
  - intros q c Hq.
    destruct (getCell_same_shape (createEmptyBoard w h) b q c) as [c0 Hc0];
      [apply createEmptyBoard_well_formed|done|by rewrite Hb, Hfr|by rewrite Hb, Hfr|done|].
    destruct (Hcells q c0 Hc0) as (c1 & Hc1 & Hrel).
    pose proof (Hclue q c1 Hc1) as Hc. rewrite Hq in Hc. injection Hc as ->.
    apply createEmptyBoard_cell in Hc0 as ->.
    unfold withClue. destruct Hrel as [->|[-> Hav]]; simpl; split; done.
Qed.

Lemma placeMines_spec w h m sz g :
  ∃ b g', placeMines (createEmptyBoard w h) m sz g = Ok (b, g') ∧
          width b = w ∧ height b = h ∧ minedFrom sz b.
Proof.
  unfold placeMines.
  pose proof (shuffle_perm (collectAvailable h w sz) g) as Hperm. simpl.
  destruct (shuffle (collectAvailable h w sz) g) as [shuffled g']. simpl in Hperm.
  set (b0 := createEmptyBoard w h).
  set (n := Z.to_nat (Z.min m (Z.of_nat (length (collectAvailable h w sz))))).
  destruct (foldR_preserves
              (fun nb q => cs ← updCell (set_hasMine true) (cells nb) q;
                           Ok (set_cells cs nb))
              (fun nb => sown sz b0 (set_mineCount 0 nb) ∧ mineCount nb = m)
              (take n shuffled) (set_mineCount m b0))
    as (nb & Hnb & Hsown & Hm).
  - split; [|done]. apply sown_refl. apply createEmptyBoard_well_formed.
  - intros q nb Hq [Hs Hmc].
    assert (q ∈ collectAvailable h w sz) as (Hav & Hr & Hc)%elem_of_collectAvailable.
    { rewrite <- Hperm. by eapply subseteq_take. }
    destruct (sown_step sz b0 (set_mineCount 0 nb) q) as (cs & Hcs & Hs');
      [apply createEmptyBoard_well_formed|done|by apply inBounds_true|done|].
    simpl in Hcs. rewrite Hcs. simpl. eexists. split; [done|]. by split.
  - change (mkBoard (cells b0) (width b0) (height b0) m (revealedCount b0)
              (flaggedCount b0) (gameStatus b0) (firstClick b0))
      with (set_mineCount m b0).
    rewrite Hnb. simpl.
    assert (nb = set_mineCount m (set_mineCount 0 nb)) as Hnb'
      by (destruct nb; simpl in *; by subst).
    pose proof Hsown as (Hfr & Hwf & Hcells).
    assert (well_formed nb) as Hwfn by (by apply (well_formed_frame (set_mineCount 0 nb))).
    destruct (calculateAdjacentMines_spec nb Hwfn) as (b & -> & Hb & Hwfb & Hclue).
    simpl. exists b, g'. split; [done|].
    apply (sown_minedFrom sz w h (set_mineCount 0 nb) m b).
    + done.
    + rewrite Hb at 1. by rewrite Hnb' at 1.
    + done.
    + intros q c Hq. rewrite (Hclue q c Hq). by rewrite <- Hnb'.
Qed.
(** ** The anti-clustering placement *)

Section Placement.
Import IntelligentMinePlacer.
Variable Math_sqrt : Q -> Q.

Lemma scorePositions_fst available placed w h g :
  (scorePositions Math_sqrt available placed w h g).1.*1 = available.
Proof.
  revert g. induction available as [|pos rest IH]; intros g; simpl; [done|].
  destruct (calculatePositionScore Math_sqrt pos placed w h g) as [s g'].
  specialize (IH g').
  destruct (scorePositions Math_sqrt rest placed w h g') as [scored g''].
  simpl in *. by f_equal.
Qed.

Lemma selectMinePosition_spec available placed w h g :
  ∃ sel, selectMinePosition Math_sqrt available placed w h g = Ok sel ∧
         ∀ pos, sel.1 = Some pos → pos ∈ available.
Proof.
  unfold selectMinePosition. case_bool_decide as Hempty.
  { eexists. split; [done|]. done. }
  case_bool_decide as Hfirst.
  { destruct (randomIndex (length available) g) as [i g'].
    eexists. split; [done|]. simpl. intros pos Hpos.
    by eapply list_elem_of_lookup_2. }
  pose proof (scorePositions_fst available placed w h g) as Hfst.
  destruct (scorePositions Math_sqrt available placed w h g) as [scored g'].
  simpl in Hfst.
  set (sorted := sortDescending snd scored).
  set (top := take (Nat.min 5 (length sorted)) sorted).
  assert (length sorted = length available) as Hlen.
  { unfold sorted. rewrite (Permutation_length (sortDescending_perm snd scored)).
    by rewrite <- Hfst, length_fmap. }
  assert (0 < length top)%nat as Htop.
  { unfold top. rewrite length_take. lia. }
  pose proof (randomIndex_lt (length top) g' Htop) as Hidx.
  destruct (randomIndex (length top) g') as [i g'']. simpl in Hidx.
  destruct (lookup_lt_is_Some_2 top i Hidx) as [cand Hcand].
  rewrite Hcand. eexists. split; [done|]. simpl. intros pos [= <-].
  rewrite <- Hfst. apply list_elem_of_fmap_2.
  rewrite <- (sortDescending_perm snd scored).
  eapply subseteq_take. by eapply list_elem_of_lookup_2.
Qed.

Lemma removePosition_subset p available q :
  q ∈ removePosition p available → q ∈ available.
Proof.
  induction available as [|x l IH]; simpl; [done|].
  destruct ((row x =? row p) && (col x =? col p)).
  - intros ?. by right.
  - intros [->|?]%elem_of_cons; [left|right; auto].
Qed.

Lemma createBoardWithMines_spec w h m sz g :
  ∃ b g', createBoardWithMines Math_sqrt w h m sz g = Ok (b, g') ∧
          width b = w ∧ height b = h ∧ minedFrom sz b.
Proof.
  unfold createBoardWithMines.
  set (b0 := createEmptyBoard w h).
  destruct (foldR_preserves (placeOne Math_sqrt w h)
              (fun st => sown sz b0 (pl_board st) ∧
                         ∀ q, q ∈ pl_available st → q ∈ collectAvailable h w sz)
              (seq 0 (Z.to_nat (Z.min m (Z.of_nat (length (collectAvailable h w sz))))))
              (mkPlacing b0 (collectAvailable h w sz) [] g))
    as (st & Hst & Hsown & _).
  - split; [|done]. apply sown_refl, createEmptyBoard_well_formed.
  - intros i st _ [Hs Hav]. unfold placeOne.
    destruct (selectMinePosition_spec (pl_available st) (pl_placed st) w h (pl_rng st))
      as ([sel g1] & -> & Hsel). simpl in *.
    destruct sel as [pos|]; [|eexists; split; [done|]; by split].
    assert (pos ∈ collectAvailable h w sz) as (Hpa & Hr & Hc)%elem_of_collectAvailable
      by (by apply Hav, Hsel).
    destruct (sown_step sz b0 (pl_board st) pos) as (cs & -> & Hs');
      [apply createEmptyBoard_well_formed|done|by apply inBounds_true|done|].
    simpl. eexists. split; [done|]. split; [done|]. simpl.
    intros q Hq%removePosition_subset. by apply Hav.
  - rewrite Hst. simpl.
    set (m' := Z.of_nat (length (pl_placed st))).
    set (nb := pl_board st) in *.
    assert (well_formed (set_mineCount m' nb)) as Hwfm.
    { destruct Hsown as (_ & ? & _). by apply (well_formed_frame nb). }
    destruct (placer_calculateAdjacentMines_spec _ Hwfm) as (b & Hb & Hfr & Hwfb & Hclue).
    change (mkBoard (cells nb) (width nb) (height nb) m' (revealedCount nb)
              (flaggedCount nb) (gameStatus nb) (firstClick nb))
      with (set_mineCount m' nb).
    rewrite Hb. simpl. exists b, (pl_rng st). split; [done|].
    by apply (sown_minedFrom sz w h nb m' b).
Qed.

(** *** The solvability check *)

Lemma simulateReveal_spec tb progress move :
  well_formed tb → inBounds tb (row move) (col move) = true →
  ∃ st, simulateReveal (tb, progress) move = Ok st ∧ well_formed st.1 ∧
        width st.1 = width tb ∧ height st.1 = height tb.
Proof.
  intros Hwf Hin. destruct (getCell_well_formed tb move Hwf Hin) as [c Hc].
  unfold simulateReveal. simpl. rewrite Hc. simpl.
  case_bool_decide; [|by eexists].
  unfold setState, updCell. rewrite Hc. simpl. eexists. split; [done|]. simpl.
  split; [|done].
  apply (well_formed_frame (set_cells (alter (alter (set_state revealed)
           (Z.to_nat (col move))) (Z.to_nat (row move)) (cells tb)) tb)); try done.
  eapply well_formed_updCell; [done|]. unfold updCell. by rewrite Hc.
Qed.

Lemma solveLoop_total n : ∀ tb progress,
  well_formed tb → ∃ out, solveLoop n tb progress = Ok out.
Proof.
  induction n as [|n IH]; intros tb progress Hwf; simpl; [by eexists|].
  destruct progress; [|by eexists].
  destruct (findSafeMoves_inBounds tb Hwf) as (safeMoves & -> & Hmoves). simpl.
  assert (∃ st, (if 0 <? Z.of_nat (length safeMoves)
                 then foldR simulateReveal safeMoves (tb, false)
                 else Ok (tb, false)) = Ok st ∧ well_formed st.1) as (st & -> & Hwf').
  { destruct (0 <? Z.of_nat (length safeMoves)); [|by eexists].
    destruct (foldR_preserves simulateReveal
                (fun st => well_formed st.1 ∧ width st.1 = width tb ∧
                           height st.1 = height tb)
                safeMoves (tb, false)) as (st & Hst & Hwf' & _); [done| |by eexists].
    intros move [tb1 pr1] Hmove (Hwf1 & Hw1 & Hh1). simpl in *.
    destruct (simulateReveal_spec tb1 pr1 move Hwf1) as (st & Hst & Hwf2 & Hw2 & Hh2).
    { unfold inBounds. rewrite Hw1, Hh1. by apply Hmoves. }
    exists st. split; [done|]. split; [done|]. split; congruence. }
  simpl. destruct (_ >=? _); [by eexists|]. by apply IH.
Qed.

Lemma validateSolvability_total b :
  well_formed b → ∃ r, validateSolvability b = Ok r.
Proof.
  intros Hwf. unfold validateSolvability.
  destruct (solveLoop_total 100 (cloneBoard b) true Hwf) as (out & ->). simpl.
  destruct out; by eexists.
Qed.

Lemma attemptBoards_spec n w h m sz : ∀ g,
  ∃ out, attemptBoards Math_sqrt n w h m sz g = Ok out ∧
         ∀ b, out.1 = Some b → width b = w ∧ height b = h ∧ minedFrom sz b.
Proof.
  induction n as [|n IH]; intros g; simpl; [by eexists|].
  destruct (createBoardWithMines_spec w h m sz g) as (b & g' & -> & Hw & Hh & Hm).
  simpl. destruct (validateSolvability_total b) as [r ->]; [by destruct Hm|].
  simpl. destruct r; [|apply IH].
  eexists. split; [done|]. simpl. by intros b' [= <-].
Qed.

Lemma generateBoard_spec w h m sz g :
  ∃ b g', generateBoard Math_sqrt w h m sz g = Ok (b, g') ∧
          width b = w ∧ height b = h ∧ minedFrom sz b.
Proof.
  unfold generateBoard.
  destruct (attemptBoards_spec 50 w h m sz g) as ([out g1] & -> & Hout). simpl in *.
  destruct out as [b|].
  - exists b, g1. split; [done|]. by apply Hout.
  - apply placeMines_spec.
Qed.
End Placement.

Lemma minedFrom_safe sz b r c :
  minedFrom (Some sz) b →
  isInSafeZone sz r c = true → inBounds b r c = true →
  ∃ cell, getCell (cells b) (mkPosition r c) = Ok cell ∧ hasMine cell = false.
Proof.
  intros (Hwf & _ & _ & Hcells) Hsafe Hin.
  destruct (getCell_well_formed b (mkPosition r c) Hwf Hin) as [cell Hcell].
  exists cell. split; [done|]. destruct (Hcells _ _ Hcell) as [_ Hav].
  destruct (hasMine cell); [|done]. specialize (Hav eq_refl).
  simpl in Hav. by rewrite Hsafe in Hav.
Qed.

(** C6.  Whatever the dimensions, the mine count, the random source and the
    scores, [generateBoard] called with a safe zone returns a board on which
    the safe-zone position and each in-bounds cell within Chebyshev distance 1
    of it have no mine; so do, taken alone, the anti-clustering placement
    [createBoardWithMines] and the fallback placement [placeMines]. *)
Theorem first_click_safety (Math_sqrt : Q -> Q) (w h m : Z) (sz : Position) (g : Rng) :
  (∃ b g', IntelligentMinePlacer.generateBoard Math_sqrt w h m (Some sz) g = Ok (b, g') ∧
           ∀ r c, Z.abs (r - row sz) ≤ 1 → Z.abs (c - col sz) ≤ 1 →
                  inBounds b r c = true →
                  ∃ cell, getCell (cells b) (mkPosition r c) = Ok cell ∧
                          hasMine cell = false) ∧
  (∃ b g', IntelligentMinePlacer.createBoardWithMines Math_sqrt w h m (Some sz) g
           = Ok (b, g') ∧
           ∀ r c, Z.abs (r - row sz) ≤ 1 → Z.abs (c - col sz) ≤ 1 →
                  inBounds b r c = true →
                  ∃ cell, getCell (cells b) (mkPosition r c) = Ok cell ∧
                          hasMine cell = false) ∧
  (∃ b g', placeMines (createEmptyBoard w h) m (Some sz) g = Ok (b, g') ∧
           ∀ r c, Z.abs (r - row sz) ≤ 1 → Z.abs (c - col sz) ≤ 1 →
                  inBounds b r c = true →
                  ∃ cell, getCell (cells b) (mkPosition r c) = Ok cell ∧
                          hasMine cell = false).
Proof.
  assert (∀ b, minedFrom (Some sz) b →
            ∀ r c, Z.abs (r - row sz) ≤ 1 → Z.abs (c - col sz) ≤ 1 →
                   inBounds b r c = true →
                   ∃ cell, getCell (cells b) (mkPosition r c) = Ok cell ∧
                           hasMine cell = false) as Hsafe.
  { intros b Hm r c Hr Hc Hin. apply (minedFrom_safe sz); [done| |done].
    unfold isInSafeZone. apply andb_true_iff. split; by apply Z.leb_le. }
  split; [|split].
  - destruct (generateBoard_spec Math_sqrt w h m (Some sz) g) as (b & g' & Hg & _ & _ & Hm).
    exists b, g'. split; [done|]. by apply Hsafe.
  - destruct (createBoardWithMines_spec Math_sqrt w h m (Some sz) g)
      as (b & g' & Hg & _ & _ & Hm).
    exists b, g'. split; [done|]. by apply Hsafe.
  - destruct (placeMines_spec w h m (Some sz) g) as (b & g' & Hg & _ & _ & Hm).
    exists b, g'. split; [done|]. by apply Hsafe.
Qed.

Lemma first_click_safety_witness :
  ∃ b g', IntelligentMinePlacer.generateBoard (fun q => q) 4 1 1
            (Some (mkPosition 0 0)) [] = Ok (b, g') ∧
          ∀ r c, Z.abs (r - 0) ≤ 1 → Z.abs (c - 0) ≤ 1 →
                 inBounds b r c = true →
                 ∃ cell, getCell (cells b) (mkPosition r c) = Ok cell ∧
                         hasMine cell = false.
Proof.
  exact (proj1 (first_click_safety (fun q => q) 4 1 1 (mkPosition 0 0) [])).
Defined.

(** ** Boards a game can be on *)

(** A step that only rewrites states keeps the clues right. *)
Lemma cluesCorrect_preserved b b' :
  well_formed b → well_formed b' → width b' = width b → height b' = height b →
  (∀ q c, getCell (cells b) q = Ok c →
     ∃ c', getCell (cells b') q = Ok c' ∧
           hasMine c' = hasMine c ∧ adjacentMines c' = adjacentMines c) →
  cluesCorrect b → cluesCorrect b'.
Proof.
  intros Hwf Hwf' Hw Hh Hcells Hcc q c' Hc' Hm.
  destruct (getCell_same_shape b b' q c' Hwf Hwf' Hw Hh Hc') as [c Hc].
  destruct (Hcells q c Hc) as (c'' & Hc'' & Hm' & Ha').
  assert (c'' = c') as -> by congruence.
  rewrite Ha', (Hcc q c Hc) by congruence. symmetry.
  apply mineNeighbours_same; [done|done|].
  intros r Hr. destruct (getCell_well_formed b r Hwf Hr) as [cr Hcr].
  destruct (Hcells r cr Hcr) as (cr' & Hcr' & Hmr & _).
  by rewrite (mineAt_Ok _ _ _ Hcr), (mineAt_Ok _ _ _ Hcr').
Qed.

Lemma revealStep_fields b' c c' :
  revealStep b' c c' → hasMine c' = hasMine c ∧ adjacentMines c' = adjacentMines c.
Proof. intros [->|[[-> _]|(_ & _ & [->| ->])]]; done. Qed.

Lemma flagStep_fields c c' :
  flagStep c c' → hasMine c' = hasMine c ∧ adjacentMines c' = adjacentMines c.
Proof. intros [->|[[_ ->]|[_ ->]]]; done. Qed.

Lemma minedFrom_invariants sz b :
  minedFrom sz b →
  well_formed b ∧ revealedSafe b ∧ cluesCorrect b ∧ minesConcealed b.
Proof.
  intros (Hwf & Hs & Hcc & Hcells). split; [done|]. split; [|split; [done|]].
  - intros q c Hq Hr. destruct (Hcells q c Hq) as [Hh _]. congruence.
  - intros _ q c Hq. destruct (Hcells q c Hq) as [Hh _]. auto.
Qed.

Lemma reachable_invariants Math_sqrt b :
  reachable Math_sqrt b →
  well_formed b ∧ revealedSafe b ∧ cluesCorrect b ∧ minesConcealed b.
Proof.
  induction 1 as [w h m sz g b g' Hgen
                 | b p b' Hreach (Hwf & Hrs & Hcc & Hmc) Hrev
                 | b p b' Hreach (Hwf & Hrs & Hcc & Hmc) Hflag].
  - destruct (generateBoard_spec Math_sqrt w h m sz g) as (b1 & g1 & Hg & _ & _ & Hm).
    assert (b1 = b) as -> by congruence. by eapply minedFrom_invariants.
  - destruct (revealCell_effect b p Hwf) as (b1 & Hr & Hwf' & Hw & Hh & _ & Hs & Hcells).
    assert (b1 = b') as -> by congruence.
    split; [done|]. split; [|split].
    + intros q c' Hc' Hstate.
      destruct (getCell_same_shape b b' q c' Hwf Hwf' Hw Hh Hc') as [c Hc].
      destruct (Hcells q c Hc) as (c'' & Hc'' & Hstep).
      assert (c'' = c') as -> by congruence.
      destruct Hstep as [->|[[-> Hm]|(_ & _ & [->| ->])]]; try done.
      by apply (Hrs q c).
    + apply (cluesCorrect_preserved b b'); try done.
      intros q c Hc. destruct (Hcells q c Hc) as (c' & Hc' & Hstep).
      exists c'. split; [done|]. by eapply revealStep_fields.
    + intros Hplay q c' Hc'.
      destruct (getCell_same_shape b b' q c' Hwf Hwf' Hw Hh Hc') as [c Hc].
      destruct (Hcells q c Hc) as (c'' & Hc'' & Hstep).
      assert (c'' = c') as -> by congruence.
      assert (gameStatus b = playing) as Hplay0.
      { destruct Hs as [?|[?|[? _]]]; congruence. }
      destruct Hstep as [->|[[-> _]|(Hl & _)]]; [by apply (Hmc Hplay0 q)|auto|congruence].
  - destruct (toggleFlag_effect b p Hwf)
      as (b1 & Hr & Hwf' & Hw & Hh & _ & _ & Hs & Hcells).
    assert (b1 = b') as -> by congruence.
    split; [done|]. split; [|split].
    + intros q c' Hc' Hstate.
      destruct (getCell_same_shape b b' q c' Hwf Hwf' Hw Hh Hc') as [c Hc].
      destruct (Hcells q c Hc) as (c'' & Hc'' & Hstep).
      assert (c'' = c') as -> by congruence.
      destruct Hstep as [->|[[_ ->]|[_ ->]]]; try done.
      by apply (Hrs q c).
    + apply (cluesCorrect_preserved b b'); try done.
      intros q c Hc. destruct (Hcells q c Hc) as (c' & Hc' & Hstep).
      exists c'. split; [done|]. by eapply flagStep_fields.
    + intros Hplay q c' Hc'.
      destruct (getCell_same_shape b b' q c' Hwf Hwf' Hw Hh Hc') as [c Hc].
      destruct (Hcells q c Hc) as (c'' & Hc'' & Hstep).
      assert (c'' = c') as -> by congruence.
      destruct Hstep as [->|[[_ ->]|[_ ->]]]; [|auto|auto].
      apply (Hmc ltac:(congruence) q c Hc).
Qed.

Lemma sampleBoard_reachable : reachable (fun q => q) sampleBoard.
Proof. eapply reach_generate. exact sampleBoard_generated. Qed.

(** ** Safe moves *)

(** C1, as stated, fails: on the sample game, after a reveal at (0,1) and a
    flag on the mine-free cell (0,0), the mine at (0,2) is reported safe. *)
Lemma safe_move_on_a_mine :
  ∃ b l c,
    reachable (fun q => q) b ∧
    findSafeMoves b = Ok l ∧ mkPosition 0 2 ∈ l ∧
    getCell (cells b) (mkPosition 0 2) = Ok c ∧ hasMine c = true.
Proof.
  eexists _, _, _. split.
  - eapply reach_flag with (p := mkPosition 0 0).
    + eapply reach_reveal with (p := mkPosition 0 1); [exact sampleBoard_reachable|].
      vm_compute. reflexivity.
    + vm_compute. reflexivity.
  - split; [vm_compute; reflexivity|]. split; [left|].
    split; [vm_compute; reflexivity|reflexivity].
Qed.

(** C1.  On every board reachable by [generateBoard], [revealCell] and
    [toggleFlag] on which every flagged cell holds a mine, [findSafeMoves]
    returns, and every position it returns is a cell without a mine. *)
Theorem safe_moves_sound (Math_sqrt : Q -> Q) (b : BoardState) :
  reachable Math_sqrt b → flagsOnMines b →
  ∃ l, findSafeMoves b = Ok l ∧
       ∀ p, p ∈ l → ∃ c, getCell (cells b) p = Ok c ∧ hasMine c = false.
Proof.
  intros (Hwf & Hrs & Hcc & _)%reachable_invariants Hfm.
  by apply findSafeMoves_sound.
Qed.

Lemma flagsOnMinesb_sound b : flagsOnMinesb b = true → flagsOnMines b.
Proof.
  unfold flagsOnMinesb. rewrite forallb_forall. intros Hall q c Hq Hf.
  apply getCell_Ok in Hq as (_ & _ & rw & Hrw & Hc).
  assert (forallb (fun c => implb (bool_decide (state c = flagged)) (hasMine c)) rw = true)
    as Hrow.
  { apply Hall. apply list_elem_of_In. by eapply list_elem_of_lookup_2. }
  rewrite forallb_forall in Hrow.
  assert (implb (bool_decide (state c = flagged)) (hasMine c) = true) as Himp.
  { apply Hrow. apply list_elem_of_In. by eapply list_elem_of_lookup_2. }
  by rewrite bool_decide_true in Himp.
Qed.

Lemma sampleFlagged_reachable : reachable (fun q => q) sampleFlagged.
Proof.
  eapply reach_flag with (p := mkPosition 0 2).
  - eapply reach_reveal with (p := mkPosition 0 1); [exact sampleBoard_reachable|].
    vm_compute. reflexivity.
  - vm_compute. reflexivity.
Qed.

Lemma safe_moves_sound_witness :
  ∃ l, findSafeMoves sampleFlagged = Ok l ∧
       ∀ p, p ∈ l → ∃ c, getCell (cells sampleFlagged) p = Ok c ∧ hasMine c = false.
Proof.
  apply (safe_moves_sound (fun q => q) sampleFlagged sampleFlagged_reachable).
  apply flagsOnMinesb_sound. vm_compute. reflexivity.
Defined.

(** ** Losing *)

(** C5, as stated, fails: a flagged mine cannot be revealed. *)
Lemma flagged_mine_not_revealed :
  ∃ b c,
    reachable (fun q => q) b ∧ gameStatus b = playing ∧
    getCell (cells b) (mkPosition 0 2) = Ok c ∧ hasMine c = true ∧
    revealCell b (mkPosition 0 2) = Ok b.
Proof.
  eexists _, _. split.
  - eapply reach_flag with (p := mkPosition 0 2); [exact sampleBoard_reachable|].
    vm_compute. reflexivity.
  - split; [reflexivity|]. split; [vm_compute; reflexivity|].
    split; [reflexivity|]. vm_compute. reflexivity.
Qed.

(** C5.  On a reachable board in status [playing], revealing a cell that
    holds a mine and is not flagged returns a board in status [lost] where
    that cell is [exploded] and every other cell holding a mine is in state
    [mine]; on a flagged cell [revealCell] returns the board as it is. *)
Theorem loss_detection (Math_sqrt : Q -> Q) (b : BoardState) (p : Position) (c : Cell) :
  reachable Math_sqrt b → gameStatus b = playing →
  getCell (cells b) p = Ok c → hasMine c = true →
  (state c ≠ flagged →
   ∃ b', revealCell b p = Ok b' ∧ gameStatus b' = lost ∧
         getCell (cells b') p = Ok (set_state exploded c) ∧
         ∀ q cq, q ≠ p → getCell (cells b') q = Ok cq → hasMine cq = true →
                 state cq = mine) ∧
  (state c = flagged → revealCell b p = Ok b).
Proof.
  intros (Hwf & Hrs & _ & Hmc)%reachable_invariants Hplay Hc Hm.
  split; [|intros Hf; eapply revealCell_locked; eauto].
  intros Hnf.
  assert (state c ≠ revealed) as Hnr.
  { intros Hr. specialize (Hrs p c Hc Hr). congruence. }
  assert (outOfBounds b p = false) as Hb.
  { rewrite outOfBounds_inBounds. apply negb_false_iff. by eapply getCell_inBounds. }
  destruct (revealCell_mine b p c Hwf Hb Hc Hnr Hnf Hm)
    as (b' & Hrev & Hwf' & Hfr & Hp & Hq).
  exists b'. split; [done|]. split; [by rewrite Hfr|]. split; [done|].
  intros q cq Hne Hcq Hmq.
  destruct (getCell_same_shape b b' q cq Hwf Hwf') as [cq0 Hcq0];
    [by rewrite Hfr|by rewrite Hfr|done|].
  rewrite (Hq q cq0 Hne Hcq0) in Hcq. injection Hcq as <-.
  unfold showMine in *.
  destruct (Hmc Hplay q cq0 Hcq0) as [Hs|[Hs|Hs]];
    destruct (hasMine cq0) eqn:E; rewrite Hs in *; simpl in *; congruence.
Qed.
Lemma loss_detection_witness :
  (state (mkCell hidden true 0 (mkPosition 0 2)) ≠ flagged →
   ∃ b', revealCell sampleBoard (mkPosition 0 2) = Ok b' ∧ gameStatus b' = lost ∧
         getCell (cells b') (mkPosition 0 2)
         = Ok (set_state exploded (mkCell hidden true 0 (mkPosition 0 2))) ∧
         ∀ q cq, q ≠ mkPosition 0 2 → getCell (cells b') q = Ok cq →
                 hasMine cq = true → state cq = mine) ∧
  (state (mkCell hidden true 0 (mkPosition 0 2)) = flagged →
   revealCell sampleBoard (mkPosition 0 2) = Ok sampleBoard).
Proof.
  apply (loss_detection (fun q => q) sampleBoard (mkPosition 0 2)
           (mkCell hidden true 0 (mkPosition 0 2)) sampleBoard_reachable);
    reflexivity.
Defined.

(** ** Adaptive mine count *)

(** The decimal literals are the correctly rounded quotients. *)
Lemma decimal_literals :
  lit_0_8 = numDiv (numberOfZ 8) (numberOfZ 10) ∧
  lit_0_7 = numDiv (numberOfZ 7) (numberOfZ 10) ∧
  lit_0_6 = numDiv (numberOfZ 6) (numberOfZ 10) ∧
  lit_0_5 = numDiv (numberOfZ 5) (numberOfZ 10) ∧
  lit_0_3 = numDiv (numberOfZ 3) (numberOfZ 10).
Proof. repeat split; vm_compute; reflexivity. Qed.

(** [Math.floor(baseMines * 0.7)] is 7, 28 and 69: the integer quotient of
    [7 * baseMines] by 10 on each tier. *)
Lemma floor_of_base d :
  Math_floor (numMul (numberOfZ (baseMines (difficultySettings d))) lit_0_7)
  = 7 * baseMines (difficultySettings d) / 10.
Proof. destruct d; vm_compute; reflexivity. Qed.

Lemma calculateMineCount_adjusted s :
  3 ≤ gamesPlayed s →
  calculateMineCount s =
    Z.max (7 * baseMines (difficultySettings (preferredDifficulty s)) / 10)
          (Z.min (maxMines (difficultySettings (preferredDifficulty s)))
                 (baseMines (difficultySettings (preferredDifficulty s))
                  + totalAdjustment s)).
Proof.
  intros Hplayed. unfold calculateMineCount.
  destruct (Z.ltb_spec (gamesPlayed s) 3) as [|_]; [lia|].
  rewrite floor_of_base.
  unfold totalAdjustment, winRateAdjustment, trendAdjustment, streakAdjustment,
    hintAdjustment, analyzeRecentPerformance, winRate, hintsPerGame.
  f_equal. f_equal. f_equal.
  change (numGt lit_0_8 lit_0_7) with true.
  change (numGt lit_0_6 lit_0_7) with false.
  destruct (numGt (numDiv (numberOfZ (gamesWon s)) (numberOfZ (gamesPlayed s))) lit_0_8),
           (numGt (numDiv (numberOfZ (gamesWon s)) (numberOfZ (gamesPlayed s))) lit_0_6),
           (numLt (numDiv (numberOfZ (gamesWon s)) (numberOfZ (gamesPlayed s))) lit_0_3),
           (numLt (numDiv (numberOfZ (gamesWon s)) (numberOfZ (gamesPlayed s))) lit_0_5),
           (numGt (numDiv (numberOfZ (hintsUsed s)) (numberOfZ (gamesPlayed s))) (numberOfZ 3)),
           (Z.gtb_spec (currentStreak s) 2),
           (Z.ltb_spec (currentStreak s) (-2)),
           (Z.geb_spec (currentStreak s) 5),
           (Z.leb_spec (currentStreak s) (-3));
    simpl; lia.
Qed.

Lemma forallb_seqZ (f : Z -> bool) a n x :
  forallb f (seqZ a n) = true → a ≤ x < a + n → f x = true.
Proof.
  intros Hall Hx. rewrite forallb_forall in Hall.
  apply Hall, list_elem_of_In, elem_of_seqZ. lia.
Qed.

Lemma winRateBandsAgree_spec n played won :
  winRateBandsAgree n = true → 1 ≤ played < 1 + n → 0 ≤ won ≤ played →
  winRateAdjustment (mkStats played won 0 0 0 beginner)
  = exactWinRateAdjustment (mkStats played won 0 0 0 beginner).
Proof.
  intros Hall Hplayed Hwon. unfold winRateBandsAgree in Hall.
  apply (forallb_seqZ _ _ _ played) in Hall; [|lia].
  apply (forallb_seqZ _ _ _ won) in Hall; [|lia].
  by apply Z.eqb_eq in Hall.
Qed.

Lemma winRateBandsAgree_100 : winRateBandsAgree 100 = true.
Proof. vm_compute. reflexivity. Qed.

Lemma winRateAdjustment_fields s :
  winRateAdjustment s
  = winRateAdjustment (mkStats (gamesPlayed s) (gamesWon s) 0 0 0 beginner) ∧
  exactWinRateAdjustment s
  = exactWinRateAdjustment (mkStats (gamesPlayed s) (gamesWon s) 0 0 0 beginner).
Proof. by destruct s. Qed.

(** Up to a hundred games the win-rate bands of the code are the bands of
    the exact ratio. *)
Lemma winRateAdjustment_exact s :
  0 < gamesPlayed s ≤ 100 → 0 ≤ gamesWon s ≤ gamesPlayed s →
  winRateAdjustment s = exactWinRateAdjustment s.
Proof.
  intros Hplayed Hwon.
  destruct (winRateAdjustment_fields s) as [-> ->].
  apply (winRateBandsAgree_spec 100); [exact winRateBandsAgree_100|lia|lia].
Qed.

(** They are bands of the rounded quotient: with 4000000000000001 wins in
    5000000000000001 games the exact ratio is above 0.8, the quotient is the
    double 0.8, and the win rate adds 1 where the exact ratio would add 3. *)
Lemma winRateAdjustment_rounds :
  let s := mkStats 5000000000000001 4000000000000001 0 0 0 beginner in
  winRate s = lit_0_8 ∧ winRateAdjustment s = 1 ∧ exactWinRateAdjustment s = 3 ∧
  calculateMineCount s = 11.
Proof. repeat split; vm_compute; reflexivity. Qed.

(** C10.  With fewer than 3 games played [calculateMineCount] is the tier's
    base mine count; from 3 games on it is
    [max (floor (0.7 * baseMines)) (min maxMines (baseMines + adjustment))]
    with [adjustment] the sum of the win-rate, trend, streak and hint
    adjustments, the win rate and the hints per game being the quotients the
    code computes; in both cases it lies between [floor (0.7 * baseMines)]
    and the tier's [maxMines]. *)
Theorem calculateMineCount_bounds (s : PlayerStats) :
  let settings := difficultySettings (preferredDifficulty s) in
  (gamesPlayed s < 3 → calculateMineCount s = baseMines settings) ∧
  (3 ≤ gamesPlayed s →
   calculateMineCount s =
     Z.max (7 * baseMines settings / 10)
           (Z.min (maxMines settings) (baseMines settings + totalAdjustment s))) ∧
  7 * baseMines settings / 10 ≤ calculateMineCount s ≤ maxMines settings.
Proof.
  intros settings.
  assert (gamesPlayed s < 3 → calculateMineCount s = baseMines settings) as Hnew.
  { intros Hlt. unfold calculateMineCount.
    by destruct (Z.ltb_spec (gamesPlayed s) 3) as [|]; [|lia]. }
  split; [done|]. split; [apply calculateMineCount_adjusted|].
  destruct (Z.lt_ge_cases (gamesPlayed s) 3) as [Hlt|Hge].
  - rewrite (Hnew Hlt). subst settings. by destruct (preferredDifficulty s).
  - rewrite (calculateMineCount_adjusted s Hge). fold settings.
    assert (7 * baseMines settings / 10 ≤ maxMines settings)
      by (subst settings; by destruct (preferredDifficulty s)).
    lia.
Qed.

Lemma calculateMineCount_bounds_witness :
  calculateMineCount (mkStats 10 9 0 0 6 intermediate) = 46 ∧
  calculateMineCount (mkStats 2 2 0 0 2 expert) = 99 ∧
  calculateMineCount (mkStats 5000000000000001 4000000000000001 0 0 0 beginner) = 11.
Proof.
  split; [|split].
  - rewrite (proj1 (proj2 (calculateMineCount_bounds (mkStats 10 9 0 0 6 intermediate))));
      [vm_compute; reflexivity|simpl; lia].
  - rewrite (proj1 (calculateMineCount_bounds (mkStats 2 2 0 0 2 expert)));
      [reflexivity|simpl; lia].
  - rewrite (proj1 (proj2 (calculateMineCount_bounds
               (mkStats 5000000000000001 4000000000000001 0 0 0 beginner))));
      [vm_compute; reflexivity|simpl; lia].
Defined.

(** * Further properties of the code *)

(** ** The board model *)

Lemma NoDup_squareAround p : NoDup (squareAround p).
Proof.
  unfold squareAround. apply NoDup_bind; [| |apply NoDup_seqZ].
  - intros r1 r2 q _ _
      (c1 & ->%list_elem_of_singleton & _)%list_elem_of_bind
      (c2 & [= -> _]%list_elem_of_singleton & _)%list_elem_of_bind. done.
  - intros r _. apply NoDup_bind; [| |apply NoDup_seqZ].
    + intros c1 c2 q _ _ ->%list_elem_of_singleton [= ->]%list_elem_of_singleton. done.
    + intros c _. apply NoDup_singleton.
Qed.

Lemma isValidPosition_inBounds b p : isValidPosition b p = inBounds b (row p) (col p).
Proof. done. Qed.

Lemma length_getAdjacentPositions b p : (length (getAdjacentPositions b p) ≤ 8)%nat.
Proof.
  rewrite getAdjacentPositions_filter.
  assert (length (squareAround p) = 9%nat) as Hlen by done.
  assert (p ∈ squareAround p) as Hp.
  { unfold squareAround. apply list_elem_of_bind. exists (row p).
    split; [|apply elem_of_seqZ; lia].
    apply list_elem_of_bind. exists (col p). split; [|apply elem_of_seqZ; lia].
    destruct p. left. }
  pose proof (length_filter_lt (fun q => isNeighbour b p q = true) _ p Hp) as Hlt.
  rewrite Hlen in Hlt. apply Nat.lt_succ_r, Hlt.
  unfold isNeighbour. rewrite !Z.eqb_refl. simpl. by rewrite andb_false_r.
Qed.

Lemma NoDup_getAdjacentPositions b p : NoDup (getAdjacentPositions b p).
Proof. rewrite getAdjacentPositions_filter. apply NoDup_filter, NoDup_squareAround. Qed.

(** X1.  The neighbours of [p] are exactly the valid positions other than
    [p] within one row and one column of it; they are listed once each, so
    there are at most 8; and on a valid [p] the relation is symmetric. *)
Theorem getAdjacentPositions_neighbourhood (b : BoardState) (p : Position) :
  NoDup (getAdjacentPositions b p) ∧
  (length (getAdjacentPositions b p) ≤ 8)%nat ∧
  (∀ q, q ∈ getAdjacentPositions b p ↔
        isValidPosition b q = true ∧ q ≠ p ∧
        Z.abs (row q - row p) ≤ 1 ∧ Z.abs (col q - col p) ≤ 1) ∧
  (∀ q, isValidPosition b p = true →
        q ∈ getAdjacentPositions b p → p ∈ getAdjacentPositions b q).
Proof.
  split; [apply NoDup_getAdjacentPositions|].
  split; [apply length_getAdjacentPositions|]. split.
  - intros q. rewrite elem_of_getAdjacentPositions, isValidPosition_inBounds. tauto.
  - intros q Hp (Hq & Hr & Hc & Hne)%elem_of_getAdjacentPositions.
    apply elem_of_getAdjacentPositions. rewrite <- isValidPosition_inBounds.
    repeat split; [done|lia|lia|congruence].
Qed.

Lemma getAdjacentPositions_neighbourhood_witness :
  mkPosition 0 2 ∈ getAdjacentPositions sampleBoard (mkPosition 0 3).
Proof.
  apply (proj2 (proj2 (proj2 (getAdjacentPositions_neighbourhood sampleBoard
                                (mkPosition 0 2)))) (mkPosition 0 3)); [done|].
  apply elem_of_getAdjacentPositions. by vm_compute.
Defined.

(** X2.  On a board of [height] rows of [width] cells, [isValidPosition]
    accepts exactly the positions whose cell can be read: reading any other
    position throws.  It is the negation of the guard [revealCell] and
    [toggleFlag] start with. *)
Theorem valid_positions_are_the_readable_ones (b : BoardState) (p : Position) :
  well_formed b →
  (isValidPosition b p = true ↔ ∃ c, getCell (cells b) p = Ok c) ∧
  (isValidPosition b p = false ↔ getCell (cells b) p = TypeError) ∧
  isValidPosition b p = negb (outOfBounds b p).
Proof.
  intros Hwf.
  assert (isValidPosition b p = true ↔ ∃ c, getCell (cells b) p = Ok c) as Hiff.
  { split.
    - intros Hv. by apply getCell_well_formed.
    - intros [c Hc]. by eapply getCell_inBounds. }
  split; [done|]. split.
  - split.
    + intros Hv. destruct (getCell (cells b) p) as [c| |] eqn:E; [|done|].
      * assert (isValidPosition b p = true) by (apply Hiff; eauto). congruence.
      * exfalso. unfold getCell in E. repeat case_match; done.
    + intros Ht. destruct (isValidPosition b p) eqn:E; [|done].
      destruct (proj1 Hiff eq_refl) as [c Hc]. congruence.
  - rewrite outOfBounds_inBounds, negb_involutive. done.
Qed.

Lemma valid_positions_are_the_readable_ones_witness :
  (isValidPosition sampleBoard (mkPosition 0 3) = true ↔
   ∃ c, getCell (cells sampleBoard) (mkPosition 0 3) = Ok c) ∧
  (isValidPosition sampleBoard (mkPosition 0 3) = false ↔
   getCell (cells sampleBoard) (mkPosition 0 3) = TypeError) ∧
  isValidPosition sampleBoard (mkPosition 0 3)
  = negb (outOfBounds sampleBoard (mkPosition 0 3)).
Proof.
  exact (valid_positions_are_the_readable_ones sampleBoard (mkPosition 0 3)
           sampleBoard_well_formed).
Defined.

(** X3.  On such a board [getCellsByState] never throws and returns,
    without repetition, exactly the positions whose cell is in the state
    asked for. *)
Theorem getCellsByState_lists_the_state (b : BoardState) (s : CellState) :
  well_formed b →
  ∃ l, getCellsByState b s = Ok l ∧ NoDup l ∧
       ∀ p, p ∈ l ↔ ∃ c, getCell (cells b) p = Ok c ∧ state c = s.
Proof.
  intros Hwf.
  change (getCellsByState b s)
    with (positionsInState b s (gridPositions (height b) (width b))).
  rewrite positionsInState_Ok; [|done|intros q Hq; by apply elem_of_gridPositions_inBounds].
  eexists. split; [done|]. split; [apply NoDup_filter, NoDup_gridPositions|].
  intros p. rewrite list_elem_of_filter, elem_of_gridPositions_inBounds. split.
  - intros [Hs Hin]. destruct (getCell_well_formed b p Hwf Hin) as [c Hc].
    exists c. split; [done|]. by rewrite <- (stateAt_Ok _ _ _ Hc).
  - intros (c & Hc & Hs). split; [by rewrite (stateAt_Ok _ _ _ Hc)|].
    by eapply getCell_inBounds.
Qed.

Lemma getCellsByState_lists_the_state_witness :
  ∃ l, getCellsByState sampleFlagged flagged = Ok l ∧ NoDup l ∧
       ∀ p, p ∈ l ↔ ∃ c, getCell (cells sampleFlagged) p = Ok c ∧ state c = flagged.
Proof.
  apply (getCellsByState_lists_the_state sampleFlagged flagged).
  split; [done|]. by repeat constructor.
Defined.

(** Two well-formed grids of the same size with the same cells are equal. *)
Lemma cells_ext b1 b2 :
  well_formed b1 → well_formed b2 →
  width b2 = width b1 → height b2 = height b1 →
  (∀ q c, getCell (cells b1) q = Ok c → getCell (cells b2) q = Ok c) →
  cells b1 = cells b2.
Proof.
  intros [Hh1 Hw1] [Hh2 Hw2] Hw Hh Hcells.
  rewrite Forall_forall in Hw1, Hw2.
  apply list_eq_same_length with (Z.to_nat (height b1)); [by rewrite Hh2, Hh|done|].
  intros i rw1 rw2 Hi Hrw1 Hrw2.
  pose proof (Hw1 rw1 (list_elem_of_lookup_2 _ _ _ Hrw1)) as Hl1.
  pose proof (Hw2 rw2 (list_elem_of_lookup_2 _ _ _ Hrw2)) as Hl2.
  apply list_eq_same_length with (Z.to_nat (width b1)); [by rewrite Hl2, Hw|done|].
  intros j c1 c2 Hj Hc1 Hc2.
  assert (getCell (cells b1) (mkPosition (Z.of_nat i) (Z.of_nat j)) = Ok c1) as H1.
  { apply getCell_Ok. simpl. rewrite !Nat2Z.id. split; [lia|]. split; [lia|]. eauto. }
  apply Hcells, getCell_Ok in H1 as (_ & _ & rw & Hrw & Hc). simpl in *.
  rewrite !Nat2Z.id in *. congruence.
Qed.

Lemma mineNeighbours_range b q : 0 ≤ mineNeighbours b q ≤ 8.
Proof.
  unfold mineNeighbours. split; [lia|].
  pose proof (length_filter (fun r => mineAt b r = true) (getAdjacentPositions b q)).
  pose proof (length_getAdjacentPositions b q). lia.
Qed.

(** ** Clues, again *)

(** X4.  On a well-formed board [calculateAdjacentMines] returns a board that
    differs from it in the clues only: a cell with a mine is untouched, a
    cell without one gets the number of mines around it, between 0 and 8.
    Running it again changes nothing. *)
Theorem calculateAdjacentMines_sets_true_counts (b : BoardState) :
  well_formed b →
  ∃ b', calculateAdjacentMines b = Ok b' ∧
        b' = set_cells (cells b') b ∧ well_formed b' ∧
        (∀ q c, getCell (cells b) q = Ok c →
           getCell (cells b') q
           = Ok (if hasMine c then c else set_adjacentMines (mineNeighbours b' q) c) ∧
           0 ≤ mineNeighbours b' q ≤ 8) ∧
        calculateAdjacentMines b' = Ok b'.
Proof.
  intros Hwf.
  destruct (calculateAdjacentMines_spec b Hwf) as (b' & Hcalc & Hfr & Hwf' & Hcells).
  pose proof (withClue_cluesCorrect b b' Hwf Hwf' Hfr Hcells) as Hcc.
  assert (∀ q, mineNeighbours b' q = mineNeighbours b q) as Hmn.
  { intros q. apply mineNeighbours_same; [by rewrite Hfr|by rewrite Hfr|].
    intros r Hr. destruct (getCell_well_formed b r Hwf Hr) as [cr Hcr].
    rewrite (mineAt_Ok _ _ _ Hcr), (mineAt_Ok _ _ _ (Hcells r cr Hcr)).
    unfold withClue. by destruct (hasMine cr) eqn:E. }
  exists b'. split; [done|]. split; [done|]. split; [done|]. split.
  { intros q c Hq. split; [|apply mineNeighbours_range].
    rewrite (Hcells q c Hq), Hmn. done. }
  destruct (calculateAdjacentMines_spec b' Hwf') as (b'' & Hcalc' & Hfr' & Hwf'' & Hcells').
  rewrite Hcalc'. f_equal.
  assert (cells b' = cells b'') as Heq.
  { apply cells_ext; [done|done|by rewrite Hfr'|by rewrite Hfr'|].
    intros q c' Hq'. rewrite (Hcells' q c' Hq'). f_equal.
    unfold withClue. destruct (hasMine c') eqn:Hm; [done|].
    rewrite <- (Hcc q c' Hq' Hm). by destruct c'. }
  rewrite Hfr', <- Heq. by destruct b'.
Qed.

Lemma calculateAdjacentMines_sets_true_counts_witness :
  ∃ b', calculateAdjacentMines sampleBoard = Ok b' ∧
        b' = set_cells (cells b') sampleBoard ∧ well_formed b' ∧
        (∀ q c, getCell (cells sampleBoard) q = Ok c →
           getCell (cells b') q
           = Ok (if hasMine c then c else set_adjacentMines (mineNeighbours b' q) c) ∧
           0 ≤ mineNeighbours b' q ≤ 8) ∧
        calculateAdjacentMines b' = Ok b'.
Proof.
  exact (calculateAdjacentMines_sets_true_counts sampleBoard sampleBoard_well_formed).
Defined.

(** ** Counting cells *)

(** Changing what holds at one position of a duplicate-free list changes
    the count by that position only. *)
Lemma filter_count_change {A : Type} `{EqDecision A} (P P' : A -> Prop)
    `{∀ x, Decision (P x)} `{∀ x, Decision (P' x)} (l : list A) (p : A) :
  NoDup l → p ∈ l → (∀ q, q ∈ l → q ≠ p → P q ↔ P' q) →
  (length (filter P' l) + (if decide (P p) then 1 else 0)
   = length (filter P l) + (if decide (P' p) then 1 else 0))%nat.
Proof.
  induction l as [|x l IH]; intros Hnd Hp Hsame; [by apply elem_of_nil in Hp|].
  apply NoDup_cons in Hnd as [Hx Hnd]. rewrite !filter_cons.
  destruct (decide (x = p)) as [->|Hne].
  - assert (filter P' l = filter P l) as ->.
    { apply filter_ext_elem. intros q Hq. symmetry. apply Hsame; [by right|].
      intros ->. done. }
    destruct (decide (P p)), (decide (P' p)); simpl; lia.
  - apply elem_of_cons in Hp as [->|Hp]; [done|].
    specialize (IH Hnd Hp (fun q Hq => Hsame q (list_elem_of_further _ _ _ Hq))).
    assert (P x ↔ P' x) as Hxx by (apply Hsame; [left|done]).
    destruct (decide (P x)) as [HP|HP], (decide (P' x)) as [HP'|HP']; simpl;
      try lia; tauto.
Qed.

Lemma filter_count_same {A : Type} (P P' : A -> Prop)
    `{∀ x, Decision (P x)} `{∀ x, Decision (P' x)} (l : list A) :
  (∀ q, q ∈ l → P q ↔ P' q) → length (filter P' l) = length (filter P l).
Proof. intros Hsame. f_equal. apply filter_ext_elem. intros q Hq. symmetry. auto. Qed.

Lemma filter_count_none {A : Type} (P : A -> Prop) `{∀ x, Decision (P x)} (l : list A) :
  (∀ q, q ∈ l → ¬ P q) → length (filter P l) = 0%nat.
Proof.
  induction l as [|x l IH]; intros Hno; [done|].
  rewrite filter_cons. destruct (decide (P x)) as [HP|_].
  - destruct (Hno x); [left|done].
  - apply IH. intros q Hq. apply Hno. by right.
Qed.

(** A write at [p] moves the number of mines by what it does to the cell at
    [p]. *)
Lemma minesOnBoard_updCell f b p cs c :
  well_formed b → getCell (cells b) p = Ok c → updCell f (cells b) p = Ok cs →
  (minesOnBoard (set_cells cs b) + (if hasMine c then 1 else 0)
   = minesOnBoard b + (if hasMine (f c) then 1 else 0))%nat.
Proof.
  intros Hwf Hc Hu. unfold minesOnBoard. simpl.
  pose proof (filter_count_change
                (fun q => mineAt b q = true) (fun q => mineAt (set_cells cs b) q = true)
                (gridPositions (height b) (width b)) p) as Hcount.
  cbv beta in Hcount.
  rewrite (mineAt_Ok b p c Hc) in Hcount.
  rewrite (mineAt_Ok (set_cells cs b) p (f c)) in Hcount
    by (simpl; by eapply getCell_updCell_eq).
  assert (∀ x : bool, (if decide (x = true) then 1 else 0)%nat = (if x then 1 else 0)%nat)
    as Hd by (by intros []).
  rewrite !Hd in Hcount. apply Hcount.
  - apply NoDup_gridPositions.
  - apply elem_of_gridPositions_inBounds. by eapply getCell_inBounds.
  - intros q _ Hne. unfold mineAt. simpl.
    by rewrite (getCell_updCell_ne f (cells b) p cs q Hu Hne).
Qed.

Lemma minesOnBoard_same b b' :
  width b' = width b → height b' = height b →
  (∀ q, q ∈ gridPositions (height b) (width b) → mineAt b' q = mineAt b q) →
  minesOnBoard b' = minesOnBoard b.
Proof.
  intros Hw Hh Hsame. unfold minesOnBoard. rewrite Hw, Hh.
  apply filter_count_same. intros q Hq. by rewrite Hsame.
Qed.

Lemma withClue_mines b0 nb :
  well_formed b0 → nb = set_cells (cells nb) b0 →
  (∀ q c, getCell (cells b0) q = Ok c → getCell (cells nb) q = Ok (withClue b0 q c)) →
  minesOnBoard nb = minesOnBoard b0.
Proof.
  intros Hwf Hfr Hcells. apply minesOnBoard_same; [by rewrite Hfr|by rewrite Hfr|].
  intros q Hq%elem_of_gridPositions_inBounds.
  destruct (getCell_well_formed b0 q Hwf Hq) as [c Hc].
  rewrite (mineAt_Ok _ _ _ Hc), (mineAt_Ok _ _ _ (Hcells q c Hc)).
  unfold withClue. by destruct (hasMine c) eqn:E.
Qed.

Lemma mineAt_createEmptyBoard w h q : mineAt (createEmptyBoard w h) q = false.
Proof.
  unfold mineAt.
  destruct (getCell (cells (createEmptyBoard w h)) q) as [c| |] eqn:Hc; [|done..].
  by rewrite (createEmptyBoard_cell w h q c Hc).
Qed.

Lemma minesOnBoard_createEmptyBoard w h : minesOnBoard (createEmptyBoard w h) = 0%nat.
Proof.
  apply filter_count_none. intros q _. by rewrite mineAt_createEmptyBoard.
Qed.

Lemma NoDup_collectAvailable h w sz : NoDup (collectAvailable h w sz).
Proof. apply NoDup_filter, NoDup_gridPositions. Qed.

(** Laying mines on distinct free cells, one after the other. *)
Lemma lay_mines_count b0 l :
  well_formed b0 → NoDup l →
  (∀ q, q ∈ l → inBounds b0 (row q) (col q) = true ∧ mineAt b0 q = false) →
  ∃ nb, foldR (fun nb q => cs ← updCell (set_hasMine true) (cells nb) q;
                           Ok (set_cells cs nb)) l b0 = Ok nb ∧
        nb = set_cells (cells nb) b0 ∧ well_formed nb ∧
        (minesOnBoard nb = minesOnBoard b0 + length l)%nat.
Proof.
  intros Hwf Hnd Hfree.
  destruct (foldR_invariant
              (fun nb q => cs ← updCell (set_hasMine true) (cells nb) q;
                           Ok (set_cells cs nb))
              (fun done nb =>
                 nb = set_cells (cells nb) b0 ∧ well_formed nb ∧
                 (minesOnBoard nb = minesOnBoard b0 + length done)%nat ∧
                 ∀ q, q ∉ done → mineAt nb q = mineAt b0 q)
              l b0) as (nb & Hnb & Hfr & Hwfn & Hcount & _).
  - split; [by destruct b0|]. split; [done|]. split; [simpl; lia|done].
  - intros done x rest nb Hl (Hfr & Hwfn & Hcount & Hsame).
    rewrite Hl in Hnd. apply NoDup_app in Hnd as (_ & Hdis & Hnd').
    assert (x ∉ done) as Hx by (intros Hin; apply (Hdis x Hin); left).
    destruct (Hfree x) as [Hin Hno].
    { rewrite Hl. apply elem_of_app. right. left. }
    assert (inBounds nb (row x) (col x) = true) as Hin'
      by (rewrite Hfr; exact Hin).
    destruct (getCell_well_formed nb x Hwfn Hin') as [c Hc].
    assert (∃ cs, updCell (set_hasMine true) (cells nb) x = Ok cs) as [cs Hcs].
    { eexists. apply updCell_Ok. split; [by exists c|done]. }
    rewrite Hcs. simpl. eexists. split; [done|].
    split; [by rewrite Hfr|]. split; [by eapply well_formed_updCell|].
    split.
    + pose proof (minesOnBoard_updCell _ nb x cs c Hwfn Hc Hcs) as Hstep.
      assert (hasMine c = false) as Hc0.
      { rewrite <- (mineAt_Ok nb x c Hc), Hsame; done. }
      rewrite Hc0 in Hstep. simpl in Hstep. rewrite length_app. simpl. lia.
    + intros q Hq. apply not_elem_of_app in Hq as [Hq Hqx].
      rewrite <- (Hsame q Hq).
      unfold mineAt. simpl. rewrite (getCell_updCell_ne _ _ _ _ q Hcs); [done|].
      intros ->. apply Hqx. left.
  - by exists nb.
Qed.

Lemma placeMines_count w h m sz g b g' :
  placeMines (createEmptyBoard w h) m sz g = Ok (b, g') →
  minesOnBoard b
  = Z.to_nat (Z.min m (Z.of_nat (length (collectAvailable h w sz)))) ∧
  mineCount b = m ∧
  revealedCount b = 0 ∧ flaggedCount b = 0 ∧ firstClick b = true.
Proof.
  unfold placeMines.
  pose proof (shuffle_perm (collectAvailable h w sz) g) as Hperm. simpl.
  destruct (shuffle (collectAvailable h w sz) g) as [shuffled g1]. simpl in Hperm.
  set (b0 := createEmptyBoard w h).
  set (n := Z.to_nat (Z.min m (Z.of_nat (length (collectAvailable h w sz))))).
  change (mkBoard (cells b0) (width b0) (height b0) m (revealedCount b0)
            (flaggedCount b0) (gameStatus b0) (firstClick b0))
    with (set_mineCount m b0).
  assert (well_formed (set_mineCount m b0)) as Hwf0
    by (by apply (well_formed_frame b0), createEmptyBoard_well_formed).
  destruct (lay_mines_count (set_mineCount m b0) (take n shuffled)) as (nb & Hnb & Hfr & Hwfn & Hcount).
  - done.
  - apply (sublist_NoDup _ shuffled); [|apply sublist_take].
    rewrite Hperm. apply NoDup_collectAvailable.
  - intros q Hq.
    assert (q ∈ collectAvailable h w sz) as (Hav & Hr & Hc)%elem_of_collectAvailable.
    { rewrite <- Hperm. by eapply subseteq_take. }
    split; [by apply inBounds_true|].
    apply (mineAt_createEmptyBoard w h q).
  - rewrite Hnb. simpl.
    destruct (calculateAdjacentMines_spec nb Hwfn) as (b' & -> & Hb & Hwfb & Hclue).
    simpl. intros [= <- <-].
    rewrite (withClue_mines nb b' Hwfn Hb Hclue), Hcount.
    change (minesOnBoard (set_mineCount m b0)) with (minesOnBoard b0).
    unfold b0. rewrite minesOnBoard_createEmptyBoard, length_take.
    rewrite (Permutation_length Hperm). split; [unfold n; lia|].
    rewrite Hb. simpl. by rewrite Hfr.
Qed.

Lemma removePosition_spec p l :
  NoDup l → p ∈ l →
  NoDup (IntelligentMinePlacer.removePosition p l) ∧
  (p ∉ (IntelligentMinePlacer.removePosition p l)) ∧
  S (length (IntelligentMinePlacer.removePosition p l)) = length l.
Proof.
  induction l as [|x l IH]; intros Hnd Hp; [by apply elem_of_nil in Hp|].
  apply NoDup_cons in Hnd as [Hx Hnd]. simpl.
  destruct ((row x =? row p) && (col x =? col p)) eqn:E.
  - apply andb_true_iff in E as [Hr%Z.eqb_eq Hc%Z.eqb_eq].
    assert (x = p) as -> by (destruct x, p; simpl in *; congruence).
    done.
  - apply elem_of_cons in Hp as [->|Hp].
    { rewrite !Z.eqb_refl in E. done. }
    destruct (IH Hnd Hp) as (Hnd' & Hno & Hlen).
    split; [|split].
    + apply NoDup_cons. split; [|done].
      intros Hin. by apply Hx, (removePosition_subset p).
    + intros [->|Hin]%elem_of_cons; [|done].
      rewrite !Z.eqb_refl in E. done.
    + simpl. by rewrite Hlen.
Qed.

Section PlacementCount.
Import IntelligentMinePlacer.
Variable Math_sqrt : Q -> Q.

Lemma selectMinePosition_some available placed w h g :
  available ≠ [] →
  ∃ pos g', selectMinePosition Math_sqrt available placed w h g = Ok (Some pos, g') ∧
            pos ∈ available.
Proof.
  intros Hne.
  destruct (selectMinePosition_spec Math_sqrt available placed w h g)
    as ([sel g'] & Hsel & Hin).
  assert (is_Some sel) as [pos ->]; [|exists pos, g'; split; [done|by apply Hin]].
  revert Hsel. unfold selectMinePosition.
  rewrite bool_decide_eq_false_2 by (by destruct available).
  case_bool_decide as Hfirst.
  { pose proof (randomIndex_lt (length available) g) as Hidx.
    destruct (randomIndex (length available) g) as [i g1]. simpl in Hidx.
    intros [= <- _]. apply lookup_lt_is_Some_2, Hidx. destruct available; simpl; [done|lia]. }
  destruct (scorePositions Math_sqrt available placed w h g) as [scored g1].
  destruct (randomIndex _ g1) as [i g2].
  destruct (_ !! i); [|done]. by intros [= <- _].
Qed.

Lemma createBoardWithMines_count w h m sz g b g' :
  createBoardWithMines Math_sqrt w h m sz g = Ok (b, g') →
  minesOnBoard b
  = Z.to_nat (Z.min m (Z.of_nat (length (collectAvailable h w sz)))) ∧
  mineCount b = Z.of_nat (minesOnBoard b) ∧
  revealedCount b = 0 ∧ flaggedCount b = 0 ∧ firstClick b = true.
Proof.
  unfold createBoardWithMines.
  set (b0 := createEmptyBoard w h).
  set (avail := collectAvailable h w sz).
  set (n := Z.to_nat (Z.min m (Z.of_nat (length avail)))).
  destruct (foldR_invariant (placeOne Math_sqrt w h)
              (fun (done : list nat) st =>
                 pl_board st = set_cells (cells (pl_board st)) b0 ∧
                 well_formed (pl_board st) ∧
                 minesOnBoard (pl_board st) = length done ∧
                 length (pl_placed st) = length done ∧
                 NoDup (pl_available st) ∧
                 (length (pl_available st) + length done = length avail)%nat ∧
                 ∀ q, q ∈ pl_available st →
                      inBounds b0 (row q) (col q) = true ∧ mineAt (pl_board st) q = false)
              (seq 0 n) (mkPlacing b0 avail [] g))
    as (st & Hst & Hfr & Hwf & Hcount & Hplaced & _).
  - simpl. split; [done|]. split; [apply createEmptyBoard_well_formed|].
    split; [apply minesOnBoard_createEmptyBoard|]. split; [done|].
    split; [apply NoDup_collectAvailable|]. split; [lia|].
    intros q (Hav & Hr & Hc)%elem_of_collectAvailable.
    split; [by apply inBounds_true|apply mineAt_createEmptyBoard].
  - intros done i rest st Hl (Hfr & Hwf & Hcount & Hplaced & Hnd & Hlen & Hav).
    assert (length done < n)%nat as Hlt.
    { apply (f_equal length) in Hl. rewrite length_seq, length_app in Hl.
      simpl in Hl. lia. }
    assert (pl_available st ≠ []) as Hne.
    { intros Hnil. rewrite Hnil in Hlen. simpl in Hlen. unfold n in Hlt. lia. }
    unfold placeOne.
    destruct (selectMinePosition_some (pl_available st) (pl_placed st) w h (pl_rng st) Hne)
      as (pos & g1 & -> & Hpos). simpl.
    destruct (Hav pos Hpos) as [Hin Hno].
    assert (inBounds (pl_board st) (row pos) (col pos) = true) as Hin'
      by (rewrite Hfr; exact Hin).
    destruct (getCell_well_formed _ pos Hwf Hin') as [c Hc].
    assert (∃ cs, updCell (set_hasMine true) (cells (pl_board st)) pos = Ok cs) as [cs Hcs].
    { eexists. apply updCell_Ok. split; [by exists c|done]. }
    rewrite Hcs. simpl. eexists. split; [done|]. simpl.
    destruct (removePosition_spec pos (pl_available st) Hnd Hpos) as (Hnd' & Hnot & Hlen').
    split; [by rewrite Hfr|]. split; [by eapply well_formed_updCell|].
    rewrite !length_app. simpl.
    split; [|split; [lia|split; [done|split; [lia|]]]].
    + pose proof (minesOnBoard_updCell _ _ pos cs c Hwf Hc Hcs) as Hstep.
      rewrite <- (mineAt_Ok _ _ _ Hc), Hno in Hstep. simpl in Hstep. lia.
    + intros q Hq. destruct (Hav q (removePosition_subset _ _ _ Hq)) as [Hqin Hqno].
      split; [done|]. rewrite <- Hqno. unfold mineAt. simpl.
      rewrite (getCell_updCell_ne _ _ _ _ q Hcs); [done|]. by intros ->.
  - rewrite Hst. simpl.
    set (m' := Z.of_nat (length (pl_placed st))).
    set (nb := pl_board st) in *.
    change (mkBoard (cells nb) (width nb) (height nb) m' (revealedCount nb)
              (flaggedCount nb) (gameStatus nb) (firstClick nb))
      with (set_mineCount m' nb).
    assert (well_formed (set_mineCount m' nb)) as Hwfm
      by (by apply (well_formed_frame nb)).
    destruct (placer_calculateAdjacentMines_spec _ Hwfm) as (b' & -> & Hb & Hwfb & Hclue).
    simpl. intros [= <- <-].
    rewrite (withClue_mines _ b' Hwfm Hb Hclue).
    change (minesOnBoard (set_mineCount m' nb)) with (minesOnBoard nb).
    rewrite Hcount, length_seq. split; [done|].
    rewrite Hb. simpl. unfold m'. rewrite Hplaced, length_seq.
    split; [done|]. fold nb in Hfr. by rewrite Hfr.
Qed.

(** On a board without a revealed cell the hint engine finds no safe move,
    so the simulated solver of [validateSolvability] makes no move at all. *)
Lemma findSafeMoves_unrevealed b :
  well_formed b → (∀ q, stateAt b q ≠ revealed) → findSafeMoves b = Ok [].
Proof.
  intros Hwf Hno. unfold findSafeMoves.
  destruct (foldR_preserves (fun acc q => ms ← safeMovesAt b q; Ok (acc ++ ms))
              (fun acc => acc = []) (gridPositions (height b) (width b)) [])
    as (acc & -> & ->); [done| |done].
  intros q acc Hq%elem_of_gridPositions_inBounds ->.
  destruct (getCell_well_formed b q Hwf Hq) as [c Hc].
  unfold safeMovesAt. rewrite Hc. simpl.
  rewrite bool_decide_eq_false_2; [by eexists|].
  rewrite <- (stateAt_Ok b q c Hc). apply Hno.
Qed.

Lemma validateSolvability_unrevealed b :
  well_formed b → (∀ q, stateAt b q ≠ revealed) →
  validateSolvability b
  = Ok ((revealedCount b >=? width b * height b - mineCount b)
        || jsQuotientGt (revealedCount b) (width b * height b - mineCount b) lit_0_7).
Proof.
  intros Hwf Hno. unfold validateSolvability, cloneBoard.
  change 100%nat with (S (S 98)). cbn [solveLoop].
  rewrite (findSafeMoves_unrevealed b Hwf Hno). simpl.
  by destruct (revealedCount b >=? width b * height b - mineCount b).
Qed.

(** Nothing revealed is no share of the board, whatever the divisor. *)
Lemma jsQuotientGt_zero y : jsQuotientGt 0 y lit_0_7 = false.
Proof.
  unfold jsQuotientGt. change (numberOfZ 0) with (S754_zero false).
  by destruct (numberOfZ y) as [[]|[]| |[] ? ?].
Qed.

Lemma minedFrom_unrevealed sz b q : minedFrom sz b → stateAt b q ≠ revealed.
Proof.
  intros (_ & _ & _ & Hcells). unfold stateAt.
  destruct (getCell (cells b) q) as [c| |] eqn:Hc; [|done..].
  by destruct (Hcells q c Hc) as [-> _].
Qed.

Lemma attemptBoards_count n w h m sz : ∀ g out b,
  attemptBoards Math_sqrt n w h m sz g = Ok out → out.1 = Some b →
  minesOnBoard b
  = Z.to_nat (Z.min m (Z.of_nat (length (collectAvailable h w sz)))) ∧
  mineCount b = Z.of_nat (minesOnBoard b) ∧
  revealedCount b = 0 ∧ flaggedCount b = 0 ∧ firstClick b = true.
Proof.
  induction n as [|n IH]; intros g out b; simpl; [by intros [= <-]|].
  destruct (createBoardWithMines_spec Math_sqrt w h m sz g)
    as (b1 & g1 & Hb1 & Hw & Hh & Hm).
  rewrite Hb1. simpl.
  destruct (validateSolvability_total b1) as [r ->]; [by destruct Hm|].
  simpl. destruct r; [|apply IH].
  intros [= <-] [= <-]. by eapply createBoardWithMines_count.
Qed.

Lemma attemptBoards_rejects n w h m sz :
  Z.of_nat (Z.to_nat (Z.min m (Z.of_nat (length (collectAvailable h w sz))))) < w * h →
  ∀ g, ∃ g1, attemptBoards Math_sqrt n w h m sz g = Ok (None, g1).
Proof.
  intros Hroom. induction n as [|n IH]; intros g; simpl; [by eexists|].
  destruct (createBoardWithMines_spec Math_sqrt w h m sz g)
    as (b1 & g1 & Hb1 & Hw & Hh & Hm).
  destruct (createBoardWithMines_count w h m sz g b1 g1 Hb1)
    as (Hcount & Hmc & Hrc & _).
  rewrite Hb1. simpl.
  rewrite validateSolvability_unrevealed;
    [|by destruct Hm|intros q; by eapply minedFrom_unrevealed].
  rewrite Hw, Hh, Hmc, Hcount, Hrc.
  set (y := w * h - Z.of_nat (Z.to_nat (Z.min m (Z.of_nat (length (collectAvailable h w sz)))))).
  assert (0 < y) as Hy by (unfold y; lia).
  assert ((0 >=? y) = false) as -> by (rewrite Z.geb_leb; by apply Z.leb_gt).
  rewrite jsQuotientGt_zero. apply IH.
Qed.

(** X5.  Whatever the dimensions, the number of mines asked for, the safe
    zone and the random source, [generateBoard] returns a board that holds
    exactly min(mines, free positions) mines (none when that is negative),
    with both counters at zero and [firstClick] set; the [mineCount] field
    is the number asked for whenever that many positions are free. *)
Theorem generateBoard_lays_the_mines w h m sz g :
  ∃ b g', generateBoard Math_sqrt w h m sz g = Ok (b, g') ∧
          minesOnBoard b
          = Z.to_nat (Z.min m (Z.of_nat (length (collectAvailable h w sz)))) ∧
          revealedCount b = 0 ∧ flaggedCount b = 0 ∧ firstClick b = true ∧
          (0 ≤ m ≤ Z.of_nat (length (collectAvailable h w sz)) →
           mineCount b = m ∧ Z.of_nat (minesOnBoard b) = m).
Proof.
  unfold generateBoard.
  destruct (attemptBoards_spec Math_sqrt 50 w h m sz g) as ([out g1] & Hout & _).
  rewrite Hout. simpl. destruct out as [b|].
  - destruct (attemptBoards_count 50 w h m sz g _ b Hout eq_refl)
      as (Hcount & Hmc & Hrc & Hfc & Hfirst).
    exists b, g1. do 5 (split; [done|]). intros Hm. rewrite Hmc, Hcount. lia.
  - destruct (placeMines_spec w h m sz g1) as (b & g' & Hb & _).
    destruct (placeMines_count w h m sz g1 b g' Hb)
      as (Hcount & Hmc & Hrc & Hfc & Hfirst).
    exists b, g'. do 5 (split; [done|]). intros Hm. rewrite Hcount. lia.
Qed.

(** X6.  As long as the board has more cells than mines to lay,
    [validateSolvability] rejects each of the fifty boards built with the
    anti-clustering placement (nothing is revealed on them, so the simulated
    solver never moves): what [generateBoard] returns is the fallback, the
    board [placeMines] builds. *)
Theorem generateBoard_returns_the_fallback w h m sz g :
  Z.of_nat (Z.to_nat (Z.min m (Z.of_nat (length (collectAvailable h w sz))))) < w * h →
  ∃ g1, generateBoard Math_sqrt w h m sz g
        = placeMines (createEmptyBoard w h) m sz g1.
Proof.
  intros Hroom. unfold generateBoard.
  destruct (attemptBoards_rejects 50 w h m sz Hroom g) as [g1 ->].
  by exists g1.
Qed.

End PlacementCount.

Lemma generateBoard_returns_the_fallback_witness :
  Z.of_nat (Z.to_nat (Z.min 1 (Z.of_nat (length (collectAvailable 2 2 None))))) < 2 * 2 ∧
  ∃ g1, IntelligentMinePlacer.generateBoard (fun x => x) 2 2 1 None []
        = placeMines (createEmptyBoard 2 2) 1 None g1.
Proof.
  assert (Z.of_nat (Z.to_nat (Z.min 1 (Z.of_nat (length (collectAvailable 2 2 None)))))
          < 2 * 2) as H by (vm_compute; reflexivity).
  split; [exact H|].
  exact (generateBoard_returns_the_fallback (fun x => x) 2 2 1 None [] H).
Defined.

(** ** The counters *)

Lemma cellsInState_updCell s f b p cs c :
  well_formed b → getCell (cells b) p = Ok c → updCell f (cells b) p = Ok cs →
  (cellsInState s (set_cells cs b) + (if decide (state c = s) then 1 else 0)
   = cellsInState s b + (if decide (state (f c) = s) then 1 else 0))%nat.
Proof.
  intros Hwf Hc Hu. unfold cellsInState. simpl.
  pose proof (filter_count_change
                (fun q => stateAt b q = s) (fun q => stateAt (set_cells cs b) q = s)
                (gridPositions (height b) (width b)) p) as Hcount.
  cbv beta in Hcount.
  rewrite (stateAt_Ok b p c Hc) in Hcount.
  rewrite (stateAt_Ok (set_cells cs b) p (f c)) in Hcount
    by (simpl; by eapply getCell_updCell_eq).
  apply Hcount.
  - apply NoDup_gridPositions.
  - apply elem_of_gridPositions_inBounds. by eapply getCell_inBounds.
  - intros q _ Hne. unfold stateAt. simpl.
    by rewrite (getCell_updCell_ne f (cells b) p cs q Hu Hne).
Qed.

Lemma cellsInState_same s b b' :
  width b' = width b → height b' = height b →
  (∀ q, q ∈ gridPositions (height b) (width b) → stateAt b' q = s ↔ stateAt b q = s) →
  cellsInState s b' = cellsInState s b.
Proof.
  intros Hw Hh Hsame. unfold cellsInState. rewrite Hw, Hh.
  apply filter_count_same. intros q Hq. symmetry. by apply Hsame.
Qed.

Lemma steady_refl nb : well_formed nb → steady nb nb.
Proof. intros Hwf. split; [done|]. by do 4 (split; [done|]). Qed.

Lemma steady_trans nb1 nb2 nb3 : steady nb1 nb2 → steady nb2 nb3 → steady nb1 nb3.
Proof.
  intros (? & ? & ? & ? & ? & ?) (? & ? & ? & ? & ? & ?).
  split; [done|]. do 4 (split; [congruence|]). congruence.
Qed.

(** Revealing a cell that is neither revealed nor flagged, and counting it. *)
Lemma reveal_steady nb p c cs :
  well_formed nb → getCell (cells nb) p = Ok c →
  state c ≠ revealed → state c ≠ flagged →
  setState (cells nb) p revealed = Ok cs →
  steady nb (set_revealedCount (revealedCount nb + 1) (set_cells cs nb)).
Proof.
  intros Hwf Hc Hr Hf Hcs.
  pose proof (cellsInState_updCell revealed _ nb p cs c Hwf Hc Hcs) as Hrev.
  pose proof (cellsInState_updCell flagged _ nb p cs c Hwf Hc Hcs) as Hfl.
  rewrite (decide_False (P := state c = revealed)) in Hrev by done.
  rewrite (decide_True (P := state (set_state revealed c) = revealed)) in Hrev by done.
  rewrite (decide_False (P := state c = flagged)) in Hfl by done.
  rewrite (decide_False (P := state (set_state revealed c) = flagged)) in Hfl by done.
  split.
  { apply (well_formed_updCell _ nb _ _ Hwf) in Hcs.
    by apply (well_formed_frame (set_cells cs nb)). }
  do 3 (split; [done|]). unfold revealedDrift, flaggedDrift.
  change (cellsInState revealed (set_revealedCount (revealedCount nb + 1) (set_cells cs nb)))
    with (cellsInState revealed (set_cells cs nb)).
  change (cellsInState flagged (set_revealedCount (revealedCount nb + 1) (set_cells cs nb)))
    with (cellsInState flagged (set_cells cs nb)).
  simpl. lia.
Qed.

Lemma floodVisit_steady nb stack x nb' stack' :
  well_formed nb → floodVisit (nb, stack) x = Ok (nb', stack') → steady nb nb'.
Proof.
  intros Hwf. unfold floodVisit.
  destruct (getCell (cells nb) x) as [c| |] eqn:Hc; simpl; [|intros HH; discriminate HH..].
  destruct (bool_decide (state c = hidden) && negb (hasMine c)) eqn:E.
  - apply andb_true_iff in E as [Hs%bool_decide_eq_true _].
    destruct (setState (cells nb) x revealed) as [cs| |] eqn:Hcs; simpl; [|by intros [=]..].
    intros [= <- _]. apply (reveal_steady nb x c cs); try done; congruence.
  - intros [= <- _]. by apply steady_refl.
Qed.

Lemma floodInner_steady l : ∀ nb stack st,
  well_formed nb → foldR floodVisit l (nb, stack) = Ok st → steady nb st.1.
Proof.
  induction l as [|x l IH]; intros nb stack st Hwf.
  { intros [= <-]. by apply steady_refl. }
  change (foldR floodVisit (x :: l) (nb, stack))
    with (st' ← floodVisit (nb, stack) x; foldR floodVisit l st').
  destruct (floodVisit (nb, stack) x) as [[nb1 stack1]| |] eqn:Hv; simpl; [|by intros [=]..].
  pose proof (floodVisit_steady _ _ _ _ _ Hwf Hv) as H1.
  intros Hrest. apply (steady_trans _ nb1); [done|].
  apply (IH nb1 stack1); [by destruct H1|done].
Qed.

Lemma floodFill_steady fuel : ∀ nb stack visited nb',
  well_formed nb → floodFill fuel nb stack visited = Ok nb' → steady nb nb'.
Proof.
  induction fuel as [|fuel IH]; intros nb stack visited nb' Hwf Hfill;
    destruct stack as [|current stack].
  - change (Ok nb = Ok nb') in Hfill. injection Hfill as <-. by apply steady_refl.
  - discriminate Hfill.
  - change (Ok nb = Ok nb') in Hfill. injection Hfill as <-. by apply steady_refl.
  - change ((if bool_decide (posKey current ∈ visited)
             then floodFill fuel nb stack visited
             else st ← foldR floodVisit (getAdjacentPositions nb current) (nb, stack);
                  floodFill fuel st.1 st.2 ({[posKey current]} ∪ visited)) = Ok nb')
      in Hfill.
    case_bool_decide; [by eapply IH|].
    destruct (foldR floodVisit _ (nb, stack)) as [st| |] eqn:Hin; simpl in Hfill;
      [|discriminate Hfill..].
    pose proof (floodInner_steady _ _ _ _ Hwf Hin) as H1.
    apply (steady_trans _ st.1); [done|].
    apply (IH st.1 st.2 ({[posKey current]} ∪ visited) nb'); [by destruct H1|done].
Qed.

(** What a reveal does to the counters: nothing at all, or the losing
    branch, or the branch that reveals. *)
Lemma revealCell_counters b p b' :
  well_formed b → revealCell b p = Ok b' →
  b' = b ∨
  (gameStatus b' = lost ∧ firstClick b' = false ∧
   (revealedSafe b → revealedDrift b' = revealedDrift b)) ∨
  (firstClick b' = false ∧
   revealedDrift b' = revealedDrift b ∧ flaggedDrift b' = flaggedDrift b).
Proof.
  intros Hwf Hrev.
  destruct (outOfBounds b p) eqn:Hb.
  { left. unfold revealCell in Hrev. rewrite Hb in Hrev. congruence. }
  assert (inBounds b (row p) (col p) = true) as Hin.
  { rewrite outOfBounds_inBounds in Hb. by apply negb_false_iff in Hb. }
  destruct (getCell_well_formed b p Hwf Hin) as [c Hc].
  destruct (decide (state c = revealed ∨ state c = flagged)) as [Hs|Hs].
  { left. rewrite (revealCell_locked b p c Hc Hs) in Hrev. congruence. }
  assert (state c ≠ revealed ∧ state c ≠ flagged) as [Hr Hf] by tauto.
  right. destruct (hasMine c) eqn:Hm.
  - left. destruct (revealCell_mine b p c Hwf Hb Hc Hr Hf Hm)
      as (b1 & Hrev1 & Hwf' & Hfr & Hp & Hq).
    assert (b1 = b') as -> by congruence.
    split; [by rewrite Hfr|]. split; [by rewrite Hfr|].
    intros Hsafe. unfold revealedDrift. f_equal; [by rewrite Hfr|]. f_equal.
    apply cellsInState_same; [by rewrite Hfr|by rewrite Hfr|].
    intros q Hq'%elem_of_gridPositions_inBounds.
    destruct (getCell_well_formed b q Hwf Hq') as [cq Hcq].
    rewrite (stateAt_Ok b q cq Hcq).
    destruct (decide (q = p)) as [->|Hne].
    + assert (cq = c) as -> by congruence.
      rewrite (stateAt_Ok b' p _ Hp). simpl. split; [done|by intros ?].
    + rewrite (stateAt_Ok b' q _ (Hq q cq Hne Hcq)). unfold showMine.
      destruct (hasMine cq) eqn:Hmq; simpl; [|done].
      assert (state cq ≠ revealed) as Hnr.
      { intros Hst. pose proof (Hsafe q cq Hcq Hst). congruence. }
      destruct (negb (bool_decide (state cq = exploded))); simpl; split; done.
  - right.
    assert (∃ cs, setState (cells b) p revealed = Ok cs) as [cs Hcs].
    { unfold setState, updCell. rewrite Hc. simpl. eauto. }
    set (b0 := set_firstClick false b).
    assert (well_formed b0) as Hwf0 by (by apply (well_formed_frame b)).
    pose proof (reveal_steady b0 p c cs Hwf0 Hc Hr Hf Hcs) as H1.
    set (nb1 := set_revealedCount (revealedCount b0 + 1) (set_cells cs b0)) in *.
    assert ((nb ← (if adjacentMines c =? 0
                   then floodFill (floodFuel b) nb1 [p] ∅ else Ok nb1);
             Ok (if revealedCount nb =? width b * height b - mineCount b
                 then set_gameStatus won nb else nb)) = Ok b') as Hrev'.
    { rewrite <- Hrev. rewrite (revealCell_open b p c) by done. simpl.
      rewrite Hm, Hcs. reflexivity. }
    assert (∃ nb, steady nb1 nb ∧
                  b' = (if revealedCount nb =? width b * height b - mineCount b
                        then set_gameStatus won nb else nb)) as (nb & H2 & ->).
    { destruct (adjacentMines c =? 0).
      - destruct (floodFill (floodFuel b) nb1 [p] ∅) as [nb| |] eqn:Hfill;
          simpl in Hrev'; [|discriminate Hrev'..].
        exists nb. split; [|congruence].
        apply (floodFill_steady _ _ _ _ _ (proj1 H1) Hfill).
      - exists nb1. split; [apply steady_refl, H1|].
        injection Hrev' as <-. reflexivity. }
    pose proof (steady_trans _ _ _ H1 H2) as (_ & _ & _ & Hfc & Hrd & Hfd).
    by destruct (revealedCount nb =? width b * height b - mineCount b).
Qed.

Lemma toggleFlag_steady b p b' :
  well_formed b → toggleFlag b p = Ok b' → steady b b'.
Proof.
  intros Hwf Ht.
  destruct (outOfBounds b p) eqn:Hb.
  { rewrite (toggleFlag_out_of_bounds b p Hb) in Ht.
    injection Ht as <-. by apply steady_refl. }
  assert (inBounds b (row p) (col p) = true) as Hin.
  { rewrite outOfBounds_inBounds in Hb. by apply negb_false_iff in Hb. }
  destruct (getCell_well_formed b p Hwf Hin) as [c Hc].
  destruct (state c) eqn:Hs.
  - destruct (toggleFlag_hidden b p c Hb Hc Hs) as (cs & Hcs & Ht').
    rewrite Ht' in Ht. injection Ht as <-.
    pose proof (cellsInState_updCell revealed _ b p cs c Hwf Hc Hcs) as Hrev.
    pose proof (cellsInState_updCell flagged _ b p cs c Hwf Hc Hcs) as Hfl.
    rewrite (decide_False (P := state c = revealed)) in Hrev by congruence.
    rewrite (decide_False (P := state (set_state flagged c) = revealed)) in Hrev by done.
    rewrite (decide_False (P := state c = flagged)) in Hfl by congruence.
    rewrite (decide_True (P := state (set_state flagged c) = flagged)) in Hfl by done.
    split.
    { apply (well_formed_updCell _ b _ _ Hwf) in Hcs.
      by apply (well_formed_frame (set_cells cs b)). }
    do 3 (split; [done|]). unfold revealedDrift, flaggedDrift.
    change (cellsInState revealed (set_flaggedCount (flaggedCount b + 1) (set_cells cs b)))
      with (cellsInState revealed (set_cells cs b)).
    change (cellsInState flagged (set_flaggedCount (flaggedCount b + 1) (set_cells cs b)))
      with (cellsInState flagged (set_cells cs b)).
    simpl. lia.
  - rewrite (toggleFlag_locked b p c Hc) in Ht by auto.
    injection Ht as <-. by apply steady_refl.
  - destruct (toggleFlag_flagged b p c Hb Hc Hs) as (cs & Hcs & Ht').
    rewrite Ht' in Ht. injection Ht as <-.
    pose proof (cellsInState_updCell revealed _ b p cs c Hwf Hc Hcs) as Hrev.
    pose proof (cellsInState_updCell flagged _ b p cs c Hwf Hc Hcs) as Hfl.
    rewrite (decide_False (P := state c = revealed)) in Hrev by congruence.
    rewrite (decide_False (P := state (set_state hidden c) = revealed)) in Hrev by done.
    rewrite (decide_True (P := state c = flagged)) in Hfl by congruence.
    rewrite (decide_False (P := state (set_state hidden c) = flagged)) in Hfl by done.
    split.
    { apply (well_formed_updCell _ b _ _ Hwf) in Hcs.
      by apply (well_formed_frame (set_cells cs b)). }
    do 3 (split; [done|]). unfold revealedDrift, flaggedDrift.
    change (cellsInState revealed (set_flaggedCount (flaggedCount b - 1) (set_cells cs b)))
      with (cellsInState revealed (set_cells cs b)).
    change (cellsInState flagged (set_flaggedCount (flaggedCount b - 1) (set_cells cs b)))
      with (cellsInState flagged (set_cells cs b)).
    simpl. lia.
  - rewrite (toggleFlag_locked b p c Hc) in Ht by auto.
    injection Ht as <-. by apply steady_refl.
  - rewrite (toggleFlag_locked b p c Hc) in Ht by auto.
    injection Ht as <-. by apply steady_refl.
Qed.

Lemma minedFrom_no_state sz b s : minedFrom sz b → s ≠ hidden → cellsInState s b = 0%nat.
Proof.
  intros (_ & _ & _ & Hcells) Hs. apply filter_count_none. intros q _. unfold stateAt.
  destruct (getCell (cells b) q) as [c| |] eqn:Hc; [|congruence..].
  destruct (Hcells q c Hc) as [-> _]. congruence.
Qed.

Section Play.
Import IntelligentMinePlacer.
Variable Math_sqrt : Q -> Q.

Lemma generateBoard_count w h m sz g b g' :
  generateBoard Math_sqrt w h m sz g = Ok (b, g') →
  minesOnBoard b
  = Z.to_nat (Z.min m (Z.of_nat (length (collectAvailable h w sz)))) ∧
  (mineCount b = m ∨ mineCount b = Z.of_nat (minesOnBoard b)) ∧
  revealedCount b = 0 ∧ flaggedCount b = 0 ∧ firstClick b = true.
Proof.
  unfold generateBoard.
  destruct (attemptBoards_spec Math_sqrt 50 w h m sz g) as ([out g1] & Hout & _).
  rewrite Hout. simpl. destruct out as [b1|].
  - intros [= <- <-].
    destruct (attemptBoards_count Math_sqrt 50 w h m sz g _ b1 Hout eq_refl)
      as (? & ? & ? & ? & ?). auto 10.
  - intros Hb. destruct (placeMines_count w h m sz g1 b g' Hb) as (? & ? & ? & ? & ?).
    auto 10.
Qed.

Lemma reachable_drift (b : BoardState) :
  reachable Math_sqrt b →
  revealedDrift b = 0 ∧ (gameStatus b = playing → flaggedDrift b = 0).
Proof.
  induction 1 as [w h m sz g b g' Hgen
                 | b p b' Hreach [IHr IHf] Hrev
                 | b p b' Hreach [IHr IHf] Hflag].
  - destruct (generateBoard_spec Math_sqrt w h m sz g) as (b1 & g1 & Hg & _ & _ & Hm).
    assert (b1 = b) as -> by congruence.
    destruct (generateBoard_count w h m sz g b g' Hgen) as (_ & _ & Hrc & Hfc & _).
    unfold revealedDrift, flaggedDrift.
    rewrite Hrc, Hfc, !(minedFrom_no_state sz b) by done. done.
  - destruct (reachable_invariants Math_sqrt b Hreach) as (Hwf & Hsafe & _).
    destruct (revealCell_counters b p b' Hwf Hrev)
      as [->|[(Hl & _ & Hd)|(_ & Hrd & Hfd)]].
    + done.
    + split; [by rewrite Hd|]. congruence.
    + split; [congruence|]. intros Hplay. rewrite Hfd. apply IHf.
      destruct (revealCell_status b p b' Hwf Hrev) as [?|[?|?]]; congruence.
  - destruct (reachable_invariants Math_sqrt b Hreach) as (Hwf & _).
    destruct (toggleFlag_steady b p b' Hwf Hflag) as (_ & _ & _ & _ & Hrd & Hfd).
    split; [congruence|]. intros Hplay. rewrite Hfd. apply IHf.
    by rewrite <- (toggleFlag_status b p b' Hwf Hflag).
Qed.


End Play.


(** ** Playing *)

Lemma played_refl b : well_formed b → played b b.
Proof.
  intros Hwf. split; [done|]. do 3 (split; [done|]).
  intros q c Hc. exists c. split; [done|]. split; [by destruct c|done].
Qed.

Lemma played_trans b1 b2 b3 : played b1 b2 → played b2 b3 → played b1 b3.
Proof.
  intros (Hwf2 & Hw2 & Hh2 & Hm2 & Hc2) (Hwf3 & Hw3 & Hh3 & Hm3 & Hc3).
  split; [done|]. do 3 (split; [congruence|]).
  intros q c Hc. destruct (Hc2 q c Hc) as (c2 & Hq2 & He2 & Hk2).
  destruct (Hc3 q c2 Hq2) as (c3 & Hq3 & He3 & Hk3).
  exists c3. split; [done|]. split.
  - rewrite He3 at 1. rewrite He2. by destruct c.
  - intros Hs Hm. specialize (Hk2 Hs Hm). subst c2. by apply Hk3.
Qed.

Lemma applyOp_played b o : well_formed b → ∃ b', applyOp b o = Ok b' ∧ played b b'.
Proof.
  intros Hwf. destruct o as [p|p]; simpl.
  - destruct (revealCell_effect b p Hwf) as (b' & Hr & Hwf' & Hw & Hh & Hm & _ & Hcells).
    exists b'. split; [done|]. split; [done|]. do 3 (split; [done|]).
    intros q c Hc. destruct (Hcells q c Hc) as (c' & Hc' & Hstep).
    exists c'. split; [done|].
    destruct Hstep as [->|[[-> _]|(_ & Hmine & [->| ->])]]; simpl;
      (split; [by destruct c|]); try done.
    all: intros Hs' Hm'; destruct c; unfold set_state; simpl in *; congruence.
  - destruct (toggleFlag_effect b p Hwf)
      as (b' & Hr & Hwf' & Hw & Hh & Hm & _ & _ & Hcells).
    exists b'. split; [done|]. split; [done|]. do 3 (split; [done|]).
    intros q c Hc. destruct (Hcells q c Hc) as (c' & Hc' & Hstep).
    exists c'. split; [done|].
    destruct Hstep as [->|[[Hs ->]|[Hs ->]]]; simpl;
      (split; [by destruct c|]); try done.
    all: intros Hs' Hm'; destruct c; unfold set_state; simpl in *; congruence.
Qed.

Lemma runOps_played ops : ∀ b,
  well_formed b → ∃ b', runOps ops b = Ok b' ∧ played b b'.
Proof.
  induction ops as [|o ops IH]; intros b Hwf.
  - exists b. split; [done|by apply played_refl].
  - destruct (applyOp_played b o Hwf) as (b1 & H1 & Hp1).
    destruct (IH b1 (proj1 Hp1)) as (b2 & H2 & Hp2).
    exists b2. unfold runOps in *. simpl. rewrite H1. simpl.
    split; [done|]. by eapply played_trans.
Qed.

Lemma played_mines b b' : well_formed b → played b b' → minesOnBoard b' = minesOnBoard b.
Proof.
  intros Hwf (_ & Hw & Hh & _ & Hcells). apply minesOnBoard_same; [done|done|].
  intros q Hq%elem_of_gridPositions_inBounds.
  destruct (getCell_well_formed b q Hwf Hq) as [c Hc].
  destruct (Hcells q c Hc) as (c' & Hc' & He & _).
  rewrite (mineAt_Ok _ _ _ Hc), (mineAt_Ok _ _ _ Hc'), He. done.
Qed.

(** X8.  Whatever sequence of reveals and flag toggles is played on a board
    of [height] rows of [width] cells, nothing throws, and the board it ends
    on has the same dimensions, the same [mineCount], the same number of
    mines, and cells that differ from the original ones in their state
    only: no mine moves, no clue and no position changes. *)
Theorem play_changes_states_only (b : BoardState) (ops : list Op) :
  well_formed b →
  ∃ b', runOps ops b = Ok b' ∧ well_formed b' ∧
        width b' = width b ∧ height b' = height b ∧ mineCount b' = mineCount b ∧
        minesOnBoard b' = minesOnBoard b ∧
        ∀ q c, getCell (cells b) q = Ok c →
               ∃ s, getCell (cells b') q = Ok (set_state s c).
Proof.
  intros Hwf. destruct (runOps_played ops b Hwf) as (b' & Hrun & Hp).
  exists b'. split; [done|].
  pose proof (played_mines b b' Hwf Hp) as Hmines.
  destruct Hp as (Hwf' & Hw & Hh & Hm & Hcells).
  do 5 (split; [done|]). intros q c Hc.
  destruct (Hcells q c Hc) as (c' & Hc' & He & _).
  exists (state c'). by rewrite <- He.
Qed.

Lemma play_changes_states_only_witness :
  ∃ b', runOps [Reveal (mkPosition 0 0); ToggleFlag (mkPosition 0 2)] sampleBoard = Ok b' ∧
        well_formed b' ∧
        width b' = width sampleBoard ∧ height b' = height sampleBoard ∧
        mineCount b' = mineCount sampleBoard ∧
        minesOnBoard b' = minesOnBoard sampleBoard ∧
        ∀ q c, getCell (cells sampleBoard) q = Ok c →
               ∃ s, getCell (cells b') q = Ok (set_state s c).
Proof.
  exact (play_changes_states_only sampleBoard
           [Reveal (mkPosition 0 0); ToggleFlag (mkPosition 0 2)]
           sampleBoard_well_formed).
Defined.

(** X9.  A revealed cell without a mine is never touched again: after any
    sequence of reveals and flag toggles it is the very same cell. *)
Theorem revealed_cells_stay_revealed (b b' : BoardState) (ops : list Op)
    (q : Position) (c : Cell) :
  well_formed b → runOps ops b = Ok b' →
  getCell (cells b) q = Ok c → state c = revealed → hasMine c = false →
  getCell (cells b') q = Ok c.
Proof.
  intros Hwf Hrun Hc Hs Hm.
  destruct (runOps_played ops b Hwf) as (b1 & Hrun1 & _ & _ & _ & _ & Hcells).
  assert (b1 = b') as -> by congruence.
  destruct (Hcells q c Hc) as (c' & Hc' & _ & Hkeep).
  by rewrite Hc', (Hkeep Hs Hm).
Qed.

Lemma revealed_cells_stay_revealed_witness :
  ∃ b', runOps [Reveal (mkPosition 0 2); ToggleFlag (mkPosition 0 0)] sampleFlagged = Ok b' ∧
        getCell (cells b') (mkPosition 0 1)
        = Ok (mkCell revealed false 1 (mkPosition 0 1)).
Proof.
  eexists. split; [vm_compute; reflexivity|].
  apply (revealed_cells_stay_revealed sampleFlagged _
           [Reveal (mkPosition 0 2); ToggleFlag (mkPosition 0 0)] (mkPosition 0 1)).
  - split; [done|]. by repeat constructor.
  - vm_compute. reflexivity.
  - reflexivity.
  - reflexivity.
  - reflexivity.
Defined.

Lemma showMine_idem c : showMine (showMine c) = showMine c.
Proof.
  unfold showMine. destruct c as [s m a pos]. simpl.
  destruct m; simpl; [|done].
  destruct (bool_decide (s = exploded)) eqn:E; simpl; [by rewrite E|done].
Qed.

Lemma revealCell_idem b p b' :
  well_formed b → revealCell b p = Ok b' → revealCell b' p = Ok b'.
Proof.
  intros Hwf Hrev.
  destruct (outOfBounds b p) eqn:Hb.
  { unfold revealCell in Hrev. rewrite Hb in Hrev. injection Hrev as <-.
    unfold revealCell. by rewrite Hb. }
  assert (inBounds b (row p) (col p) = true) as Hin.
  { rewrite outOfBounds_inBounds in Hb. by apply negb_false_iff in Hb. }
  destruct (getCell_well_formed b p Hwf Hin) as [c Hc].
  destruct (decide (state c = revealed ∨ state c = flagged)) as [Hs|Hs].
  { pose proof (revealCell_locked b p c Hc Hs) as Hl.
    rewrite Hl in Hrev. injection Hrev as <-. done. }
  assert (state c ≠ revealed ∧ state c ≠ flagged) as [Hr Hf] by tauto.
  destruct (hasMine c) eqn:Hm.
  - destruct (revealCell_mine b p c Hwf Hb Hc Hr Hf Hm)
      as (b1 & Hrev1 & Hwf' & Hfr & Hp & Hq).
    assert (b1 = b') as -> by congruence.
    assert (outOfBounds b' p = false) as Hb'.
    { rewrite Hfr. exact Hb. }
    destruct (revealCell_mine b' p (set_state exploded c) Hwf' Hb' Hp)
      as (b2 & Hrev2 & Hwf2 & Hfr2 & Hp2 & Hq2); [done..|].
    rewrite Hrev2. f_equal.
    assert (cells b' = cells b2) as Hcells.
    { apply cells_ext; [done|done|by rewrite Hfr2|by rewrite Hfr2|].
      intros q cq' Hcq'. destruct (decide (q = p)) as [->|Hne].
      - rewrite Hp2. rewrite Hp in Hcq'. injection Hcq' as <-. done.
      - assert (inBounds b (row q) (col q) = true) as Hqin.
        { pose proof (getCell_inBounds b' q cq' Hwf' Hcq') as Hin'.
          rewrite Hfr in Hin'. exact Hin'. }
        destruct (getCell_well_formed b q Hwf Hqin) as [cq Hcq].
        pose proof (Hq q cq Hne Hcq) as Hshow.
        rewrite Hshow in Hcq'. injection Hcq' as <-.
        rewrite (Hq2 q (showMine cq) Hne Hshow). by rewrite showMine_idem. }
    assert (gameStatus b' = lost) as Hlost by (by rewrite Hfr).
    assert (firstClick b' = false) as Hfirst by (by rewrite Hfr).
    rewrite Hfr2, <- Hcells. clear -Hlost Hfirst.
    destruct b'. simpl in *. by subst.
  - destruct (revealCell_safe b p c Hwf Hb Hc Hr Hf Hm)
      as (nb & Hrev1 & Hwf' & Hframe & Hcells & Hzero & Hnz).
    assert (getCell (cells nb) p = Ok (set_state revealed c)) as Hp.
    { destruct (Z.eq_dec (adjacentMines c) 0) as [Hz|Hz].
      - apply (Hzero Hz p c Hc). by left.
      - by destruct (Hnz Hz) as (_ & ? & _). }
    assert (getCell (cells b') p = Ok (set_state revealed c)) as Hp'.
    { rewrite Hrev1 in Hrev. injection Hrev as <-.
      by destruct (revealedCount nb =? width b * height b - mineCount b). }
    apply (revealCell_locked b' p _ Hp'). by left.
Qed.

(** X10.  Revealing the same position twice in a row is revealing it once:
    whatever the first reveal did (nothing, a flood fill, a win or a loss),
    the second one returns the board unchanged. *)
Theorem revealCell_twice (b : BoardState) (p : Position) :
  well_formed b →
  ∃ b', revealCell b p = Ok b' ∧ revealCell b' p = Ok b'.
Proof.
  intros Hwf. destruct (revealCell_effect b p Hwf) as (b' & Hrev & _).
  exists b'. split; [done|]. by apply (revealCell_idem b p b').
Qed.

Lemma revealCell_twice_witness :
  ∃ b', revealCell sampleBoard (mkPosition 0 2) = Ok b' ∧
        revealCell b' (mkPosition 0 2) = Ok b'.
Proof. exact (revealCell_twice sampleBoard (mkPosition 0 2) sampleBoard_well_formed). Defined.

(** ** The click handlers *)

Section Clicks.
Import IntelligentMinePlacer.
Variable Math_sqrt : Q -> Q.
Variable mines : Z.

Lemma isInSafeZone_near sz q :
  Z.abs (row q - row sz) ≤ 1 → Z.abs (col q - col sz) ≤ 1 →
  isInSafeZone sz (row q) (col q) = true.
Proof. intros Hr Hc. unfold isInSafeZone. apply andb_true_iff. split; lia. Qed.

(** The board the first click is played on: the clicked cell and its
    neighbours are hidden, hold no mine, and the clicked cell has clue 0. *)
Lemma generated_around_click w h p g b g' :
  generateBoard Math_sqrt w h mines (Some p) g = Ok (b, g') →
  0 ≤ row p < h → 0 ≤ col p < w →
  well_formed b ∧ width b = w ∧ height b = h ∧ gameStatus b = playing ∧
  (∃ c, getCell (cells b) p = Ok c ∧ state c = hidden ∧ hasMine c = false ∧
        adjacentMines c = 0) ∧
  ∀ q, q ∈ getAdjacentPositions b p →
       ∃ cq, getCell (cells b) q = Ok cq ∧ state cq = hidden ∧ hasMine cq = false.
Proof.
  intros Hgen Hr Hc.
  destruct (generateBoard_spec Math_sqrt w h mines (Some p) g)
    as (b1 & g1 & Hg & Hw & Hh & Hm).
  assert (b1 = b) as -> by congruence.
  pose proof Hm as (Hwf & Hplay & Hclues & Hcells).
  assert (∀ q, inBounds b (row q) (col q) = true →
               Z.abs (row q - row p) ≤ 1 → Z.abs (col q - col p) ≤ 1 →
               ∃ cq, getCell (cells b) q = Ok cq ∧ state cq = hidden ∧
                     hasMine cq = false) as Hnear.
  { intros q Hin Hqr Hqc.
    destruct (minedFrom_safe p b (row q) (col q) Hm (isInSafeZone_near p q Hqr Hqc) Hin)
      as (cq & Hcq & Hmq).
    assert (mkPosition (row q) (col q) = q) as Hq by (by destruct q).
    rewrite Hq in Hcq. exists cq. split; [done|]. split; [|done].
    by destruct (Hcells q cq Hcq). }
  assert (∀ q, q ∈ getAdjacentPositions b p →
               ∃ cq, getCell (cells b) q = Ok cq ∧ state cq = hidden ∧
                     hasMine cq = false) as Hadj.
  { intros q (Hin & Hqr & Hqc & _)%elem_of_getAdjacentPositions. by apply Hnear. }
  split; [done|]. do 3 (split; [done|]). split; [|done].
  destruct (Hnear p) as (c & Hcp & Hs & Hmp); [apply inBounds_true; lia|lia|lia|].
  exists c. do 3 (split; [done|]).
  rewrite (Hclues p c Hcp Hmp). unfold mineNeighbours.
  rewrite filter_count_none; [done|].
  intros q Hq. destruct (Hadj q Hq) as (cq & Hcq & _ & Hmq).
  rewrite (mineAt_Ok b q cq Hcq). congruence.
Qed.

(** X11.  The first left click of a game, on a cell of the board, never
    loses: the handler generates the mines around the click and reveals the
    clicked cell together with all its neighbours; the board keeps its size
    and is no longer waiting for a first click. *)
Theorem first_click_opens_the_neighbourhood (b : BoardState) (p : Position) (g : Rng) :
  gameStatus b = playing → firstClick b = true →
  inBounds b (row p) (col p) = true →
  ∃ b' g', handleCellClick Math_sqrt mines b p g = Ok (b', g') ∧
           well_formed b' ∧ width b' = width b ∧ height b' = height b ∧
           gameStatus b' ≠ lost ∧ firstClick b' = false ∧
           ∀ q, q = p ∨ q ∈ getAdjacentPositions b p →
                ∃ c, getCell (cells b') q = Ok c ∧
                     state c = revealed ∧ hasMine c = false.
Proof.
  intros Hplay Hfirst Hin. unfold handleCellClick.
  rewrite bool_decide_eq_true_2 by done. rewrite Hfirst. simpl.
  destruct (generateBoard_spec Math_sqrt (width b) (height b) mines (Some p) g)
    as (b1 & g1 & Hg & _).
  apply inBounds_true in Hin as [Hr Hc].
  destruct (generated_around_click _ _ p g b1 g1 Hg Hr Hc)
    as (Hwf & Hw & Hh & Hplay1 & (c & Hcp & Hs & Hm & Hz) & Hadj).
  rewrite Hg. simpl.
  assert (outOfBounds b1 p = false) as Hb.
  { rewrite outOfBounds_inBounds. apply negb_false_iff, inBounds_true. lia. }
  destruct (revealCell_safe b1 p c Hwf Hb Hcp) as
    (nb & Hrev & Hwfn & (Hwn & Hhn & _ & _ & Hgs) & _ & Hzero & _);
    [congruence|congruence|done|].
  rewrite Hrev. simpl. eexists _, g1. split; [done|].
  set (b' := if revealedCount nb =? width b1 * height b1 - mineCount b1
             then set_gameStatus won nb else nb).
  assert (cells b' = cells nb ∧ width b' = width nb ∧ height b' = height nb ∧
          (gameStatus b' = won ∨ gameStatus b' = gameStatus nb)) as (Hcs & Hw' & Hh' & Hst).
  { unfold b'. destruct (revealedCount nb =? _); simpl; auto. }
  assert (∀ q, q = p ∨ q ∈ getAdjacentPositions b p →
               ∃ c, getCell (cells b') q = Ok c ∧
                    state c = revealed ∧ hasMine c = false) as Hopen.
  { intros q Hq. rewrite Hcs.
    assert (∃ cq, getCell (cells b1) q = Ok cq ∧ hasMine cq = false ∧
                  revealedBy b1 p q cq) as (cq & Hcq & Hmq & Hby).
    { destruct Hq as [->|Hq].
      - exists c. split; [done|]. split; [done|by left].
      - rewrite <- (getAdjacentPositions_frame b b1 p Hw Hh) in Hq.
        destruct (Hadj q Hq) as (cq & Hcq & Hsq & Hmq).
        exists cq. split; [done|]. split; [done|]. right.
        split; [done|]. split; [done|]. exists p. split; [constructor|done]. }
    exists (set_state revealed cq). split; [|by split].
    by apply (Hzero Hz q cq Hcq). }
  split; [by apply (well_formed_frame nb)|].
  split; [congruence|]. split; [congruence|]. split.
  { destruct Hst as [?|?]; congruence. }
  split; [|done].
  destruct (revealCell_counters b1 p b' Hwf Hrev) as [Heq|[(Hl & _)|(? & _)]].
  - exfalso. destruct (Hopen p (or_introl eq_refl)) as (c' & Hc' & Hs' & _).
    rewrite Heq, Hcp in Hc'. congruence.
  - destruct Hst as [?|?]; congruence.
  - done.
Qed.

Lemma click_effect st e :
  well_formed st.1 →
  ∃ st', click Math_sqrt mines st e = Ok st' ∧ well_formed st'.1 ∧
         (gameStatus st.1 ≠ playing → st' = st).
Proof.
  intros Hwf. destruct st as [b g]. simpl in Hwf.
  destruct e as [p|p]; simpl; unfold handleCellClick, handleCellRightClick.
  - case_bool_decide as Hplay; simpl.
    + assert (∃ b1 g1, (if firstClick b
                        then generateBoard Math_sqrt (width b) (height b) mines (Some p) g
                        else Ok (b, g)) = Ok (b1, g1) ∧ well_formed b1)
        as (b1 & g1 & -> & Hwf1).
      { destruct (firstClick b); [|by exists b, g].
        destruct (generateBoard_spec Math_sqrt (width b) (height b) mines (Some p) g)
          as (b1 & g1 & Hg & _ & _ & Hm).
        exists b1, g1. split; [done|]. by destruct Hm. }
      simpl. destruct (revealCell_effect b1 p Hwf1) as (b2 & -> & Hwf2 & _).
      simpl. eexists. split; [done|]. split; [done|]. done.
    + eexists. split; [done|]. by split.
  - case_bool_decide as Hplay; simpl.
    + destruct (toggleFlag_effect b p Hwf) as (b2 & -> & Hwf2 & _).
      simpl. eexists. split; [done|]. split; [done|]. done.
    + eexists. split; [done|]. by split.
Qed.

(** X12.  Through the click handlers a game that is won or lost is over:
    whatever the player clicks afterwards, the board (and the random
    source) stay exactly as they are; and no sequence of clicks on a board
    of [height] rows of [width] cells throws. *)
Theorem clicks_after_game_over (es : list Click) (b : BoardState) (g : Rng) :
  well_formed b →
  ∃ b' g', runClicks Math_sqrt mines es (b, g) = Ok (b', g') ∧ well_formed b' ∧
           (gameStatus b ≠ playing → b' = b ∧ g' = g).
Proof.
  revert b g. induction es as [|e es IH]; intros b g Hwf.
  - exists b, g. by split.
  - destruct (click_effect (b, g) e Hwf) as ([b1 g1] & H1 & Hwf1 & Hover1).
    destruct (IH b1 g1 Hwf1) as (b2 & g2 & H2 & Hwf2 & Hover2).
    exists b2, g2. unfold runClicks in *. simpl. rewrite H1. simpl.
    split; [done|]. split; [done|]. intros Hover.
    specialize (Hover1 Hover). injection Hover1 as -> ->. by apply Hover2.
Qed.

End Clicks.

Lemma first_click_opens_the_neighbourhood_witness :
  ∃ b' g', handleCellClick (fun q => q) 1 (createEmptyBoard 4 1) (mkPosition 0 0) []
           = Ok (b', g') ∧
           well_formed b' ∧ width b' = 4 ∧ height b' = 1 ∧
           gameStatus b' ≠ lost ∧ firstClick b' = false ∧
           ∀ q, q = mkPosition 0 0 ∨
                q ∈ getAdjacentPositions (createEmptyBoard 4 1) (mkPosition 0 0) →
                ∃ c, getCell (cells b') q = Ok c ∧
                     state c = revealed ∧ hasMine c = false.
Proof.
  apply (first_click_opens_the_neighbourhood (fun q => q) 1 (createEmptyBoard 4 1)
           (mkPosition 0 0) []); reflexivity.
Defined.

Lemma clicks_after_game_over_witness :
  ∃ b0, revealCell sampleBoard (mkPosition 0 2) = Ok b0 ∧ gameStatus b0 = lost ∧
        runClicks (fun q => q) 1 [LeftClick (mkPosition 0 0); RightClick (mkPosition 0 3)]
          (b0, []) = Ok (b0, []).
Proof.
  eexists. split; [vm_compute; reflexivity|]. split; [reflexivity|].
  match goal with
  | |- runClicks _ _ ?es (?b0, _) = _ =>
      destruct (clicks_after_game_over (fun q => q) 1 es b0 [])
        as (b' & g' & Hrun & _ & Hover)
  end.
  - split; [reflexivity|]. by repeat constructor.
  - destruct Hover as [-> ->]; [discriminate|]. exact Hrun.
Defined.

(** ** Winning *)

Lemma filter_disjoint_count {A : Type} (P Q : A -> Prop)
    `{∀ x, Decision (P x)} `{∀ x, Decision (Q x)} (l : list A) :
  (∀ x, x ∈ l → P x → Q x → False) →
  (length (filter P l) + length (filter Q l) ≤ length l)%nat ∧
  ((length (filter P l) + length (filter Q l) = length l)%nat →
   ∀ x, x ∈ l → P x ∨ Q x).
Proof.
  induction l as [|x l IH]; intros Hdis.
  { split; [done|]. intros _ x Hx. by apply elem_of_nil in Hx. }
  destruct IH as [IHle IHeq].
  { intros y Hy. apply Hdis. by right. }
  rewrite !filter_cons.
  destruct (decide (P x)) as [HP|HP], (decide (Q x)) as [HQ|HQ]; simpl.
  - destruct (Hdis x); [left|done|done].
  - split; [lia|]. intros Hlen y [->|Hy]%elem_of_cons; [by left|].
    apply IHeq; [lia|done].
  - split; [lia|]. intros Hlen y [->|Hy]%elem_of_cons; [by right|].
    apply IHeq; [lia|done].
  - split; [lia|]. intros Hlen. lia.
Qed.

Lemma length_gridPositions h w :
  length (gridPositions h w) = (Z.to_nat h * Z.to_nat w)%nat.
Proof.
  unfold gridPositions.
  assert (∀ (rs : list Z), length (r ← rs; c ← seqZ 0 w; [mkPosition r c])
                           = (length rs * Z.to_nat w)%nat) as Hrows.
  { induction rs as [|r rs IH]; [done|].
    change (length ((c ← seqZ 0 w; [mkPosition r c]) ++
                    (r ← rs; c ← seqZ 0 w; [mkPosition r c]))
            = (S (length rs) * Z.to_nat w)%nat).
    rewrite length_app, IH. simpl. f_equal.
    rewrite <- (length_seqZ 0 w).
    generalize (seqZ 0 w). intros cs.
    induction cs as [|c cs IHc]; [done|]. simpl. by rewrite <- IHc. }
  by rewrite Hrows, length_seqZ.
Qed.

(** When the counter says that all cells but the mines are revealed, they
    are. *)
Lemma cleared_by_count b :
  well_formed b → revealedSafe b →
  Z.of_nat (cellsInState revealed b) = width b * height b - Z.of_nat (minesOnBoard b) →
  ∀ q c, getCell (cells b) q = Ok c → hasMine c = false → state c = revealed.
Proof.
  intros Hwf Hsafe Hcount q c Hc Hm.
  pose proof (getCell_inBounds b q c Hwf Hc) as Hin.
  pose proof Hin as [Hr Hcl]%inBounds_true.
  destruct (filter_disjoint_count
              (fun q => stateAt b q = revealed) (fun q => mineAt b q = true)
              (gridPositions (height b) (width b))) as [_ Hall].
  { intros x Hx%elem_of_gridPositions_inBounds Hs Hmx.
    destruct (getCell_well_formed b x Hwf Hx) as [cx Hcx].
    rewrite (stateAt_Ok _ _ _ Hcx) in Hs. rewrite (mineAt_Ok _ _ _ Hcx) in Hmx.
    pose proof (Hsafe x cx Hcx Hs). congruence. }
  destruct (Hall) with (x := q) as [Hs|Hmq].
  - fold (cellsInState revealed b). fold (minesOnBoard b).
    rewrite length_gridPositions.
    assert (Z.of_nat (Z.to_nat (height b) * Z.to_nat (width b)) = width b * height b)
      by (rewrite Nat2Z.inj_mul; nia).
    lia.
  - by apply elem_of_gridPositions_inBounds.
  - by rewrite (stateAt_Ok _ _ _ Hc) in Hs.
  - rewrite (mineAt_Ok _ _ _ Hc) in Hmq. congruence.
Qed.

Lemma revealCell_cases b p b' :
  well_formed b → revealCell b p = Ok b' →
  b' = b ∨ gameStatus b' = lost ∨
  ∃ c, getCell (cells b) p = Ok c ∧ hasMine c = false ∧ state c ≠ revealed.
Proof.
  intros Hwf Hrev.
  destruct (outOfBounds b p) eqn:Hb.
  { left. unfold revealCell in Hrev. rewrite Hb in Hrev. congruence. }
  assert (inBounds b (row p) (col p) = true) as Hin.
  { rewrite outOfBounds_inBounds in Hb. by apply negb_false_iff in Hb. }
  destruct (getCell_well_formed b p Hwf Hin) as [c Hc].
  destruct (decide (state c = revealed ∨ state c = flagged)) as [Hs|Hs].
  { left. rewrite (revealCell_locked b p c Hc Hs) in Hrev. congruence. }
  assert (state c ≠ revealed ∧ state c ≠ flagged) as [Hr Hf] by tauto.
  right. destruct (hasMine c) eqn:Hm.
  - left. destruct (revealCell_mine b p c Hwf Hb Hc Hr Hf Hm)
      as (b1 & Hrev1 & _ & Hfr & _).
    assert (b1 = b') as -> by congruence. by rewrite Hfr.
  - right. by exists c.
Qed.

Section Winning.
Variable Math_sqrt : Q -> Q.

Lemma reachable_won (b : BoardState) :
  reachable Math_sqrt b →
  mineCount b = Z.of_nat (minesOnBoard b) → gameStatus b = won →
  revealedCount b = width b * height b - mineCount b.
Proof.
  induction 1 as [w h m sz g b g' Hgen
                 | b p b' Hreach IH Hrev
                 | b p b' Hreach IH Hflag]; intros Hmines Hwon.
  - destruct (generateBoard_spec Math_sqrt w h m sz g) as (b1 & g1 & Hg & _ & _ & Hm).
    assert (b1 = b) as -> by congruence.
    destruct Hm as (_ & Hplay & _). congruence.
  - destruct (reachable_invariants Math_sqrt b Hreach) as (Hwf & Hsafe & _).
    destruct (applyOp_played b (Reveal p) Hwf) as (b1 & Hb1 & Hp).
    simpl in Hb1. assert (b1 = b') as -> by congruence.
    pose proof (played_mines b b' Hwf Hp) as Hsame.
    destruct Hp as (_ & Hw & Hh & Hmc & _).
    assert (mineCount b = Z.of_nat (minesOnBoard b)) as Hmines0 by congruence.
    destruct (revealCell_effect b p Hwf) as (b1 & Hb1' & _ & _ & _ & _ & Hst & _).
    assert (b1 = b') as -> by congruence.
    destruct Hst as [Hst|[Hst|[_ Hst]]]; [|congruence|done].
    assert (gameStatus b = won) as Hwon0 by congruence.
    specialize (IH Hmines0 Hwon0).
    destruct (revealCell_cases b p b' Hwf Hrev) as [->|[Hl|(c & Hc & Hm & Hs)]];
      [done|congruence|].
    exfalso. apply Hs. apply (cleared_by_count b Hwf Hsafe) with (q := p); [|done|done].
    destruct (reachable_drift Math_sqrt b Hreach) as [Hd _].
    unfold revealedDrift in Hd. lia.
  - destruct (reachable_invariants Math_sqrt b Hreach) as (Hwf & _).
    destruct (applyOp_played b (ToggleFlag p) Hwf) as (b1 & Hb1 & Hp).
    simpl in Hb1. assert (b1 = b') as -> by congruence.
    pose proof (played_mines b b' Hwf Hp) as Hsame.
    destruct (toggleFlag_effect b p Hwf)
      as (b1 & Hb1' & _ & Hw & Hh & Hmc & Hrc & Hgs & _).
    assert (b1 = b') as -> by congruence.
    rewrite Hw, Hh, Hmc, Hrc. apply IH; congruence.
Qed.

(** X13.  On a board a game can reach, with [mineCount] the number of mines
    on it, the status [won] means what it says: the counter has reached the
    number of mine-free cells, and every mine-free cell is revealed. *)
Theorem won_means_cleared (b : BoardState) :
  reachable Math_sqrt b → mineCount b = Z.of_nat (minesOnBoard b) →
  gameStatus b = won →
  revealedCount b = width b * height b - mineCount b ∧
  ∀ q c, getCell (cells b) q = Ok c → hasMine c = false → state c = revealed.
Proof.
  intros Hreach Hmines Hwon.
  pose proof (reachable_won b Hreach Hmines Hwon) as Hcount.
  split; [done|].
  destruct (reachable_invariants Math_sqrt b Hreach) as (Hwf & Hsafe & _).
  apply (cleared_by_count b Hwf Hsafe).
  destruct (reachable_drift Math_sqrt b Hreach) as [Hd _].
  unfold revealedDrift in Hd. lia.
Qed.

End Winning.

Lemma won_means_cleared_witness :
  ∃ b, runOps [Reveal (mkPosition 0 0); Reveal (mkPosition 0 3)] sampleBoard = Ok b ∧
       revealedCount b = width b * height b - mineCount b ∧
       ∀ q c, getCell (cells b) q = Ok c → hasMine c = false → state c = revealed.
Proof.
  eexists. split; [vm_compute; reflexivity|].
  apply (won_means_cleared (fun q => q)).
  - eapply reach_reveal with (p := mkPosition 0 3).
    + eapply reach_reveal with (p := mkPosition 0 0); [exact sampleBoard_reachable|].
      vm_compute. reflexivity.
    + vm_compute. reflexivity.
  - vm_compute. reflexivity.
  - reflexivity.
Defined.

(** ** The hint engine *)

Lemma elem_of_removeDuplicatesFrom l : ∀ seen p,
  p ∈ removeDuplicatesFrom seen l ↔ p ∈ l ∧ posKey p ∉ seen.
Proof.
  induction l as [|x l IH]; intros seen p; simpl.
  { split; [by intros ?%elem_of_nil|by intros [?%elem_of_nil _]]. }
  case_bool_decide as Hseen.
  - rewrite IH, elem_of_cons. split; [tauto|].
    intros [[->|Hp] Hno]; [done|done].
  - rewrite elem_of_cons, IH, elem_of_cons, not_elem_of_union, not_elem_of_singleton.
    split.
    + intros [->|(Hp & Hne & Hno)]; [by split; [left|]|by split; [right|]].
    + intros [[->|Hp] Hno]; [by left|].
      destruct (decide (p = x)) as [->|Hne]; [by left|right].
      split; [done|]. split; [|done]. intros Heq. by apply Hne, posKey_inj.
Qed.

Lemma NoDup_removeDuplicatesFrom l : ∀ seen, NoDup (removeDuplicatesFrom seen l).
Proof.
  induction l as [|x l IH]; intros seen; simpl; [constructor|].
  case_bool_decide as Hseen; [apply IH|].
  apply NoDup_cons. split; [|apply IH].
  rewrite elem_of_removeDuplicatesFrom, not_elem_of_union, not_elem_of_singleton.
  tauto.
Qed.




Lemma safeMovesAt_spec b q :
  well_formed b → inBounds b (row q) (col q) = true →
  ∃ ms, safeMovesAt b q = Ok ms ∧
        ∀ p, p ∈ ms ↔ satisfiedClue b q ∧ p ∈ getAdjacentPositions b q ∧
                      stateAt b p = hidden.
Proof.
  intros Hwf Hin.
  destruct (getCell_well_formed b q Hwf Hin) as [cell Hcell].
  unfold safeMovesAt. rewrite Hcell. simpl.
  assert (¬ satisfiedClue b q →
          ∃ ms : list Position, Ok [] = Ok ms ∧
            ∀ p, p ∈ ms ↔ satisfiedClue b q ∧ p ∈ getAdjacentPositions b q ∧
                          stateAt b p = hidden) as Hnone.
  { intros Hno. exists []. split; [done|]. intros p. split; [by intros ?%elem_of_nil|].
    by intros [? _]. }
  destruct (bool_decide (state cell = revealed) && (adjacentMines cell >? 0)) eqn:Htest.
  2:{ apply Hnone. intros (c & Hc & Hs & Hpos & _).
      assert (c = cell) as -> by congruence.
      apply andb_false_iff in Htest as [Ht|Ht].
      - by apply bool_decide_eq_false in Ht.
      - lia. }
  apply andb_true_iff in Htest as [Hrev%bool_decide_eq_true Hpos].
  rewrite statesAround_Ok, positionsInState_Ok
    by (done || apply getAdjacentPositions_inBounds). simpl.
  set (adj := getAdjacentPositions b q).
  rewrite length_filter_fmap.
  destruct (Z.eqb_spec (Z.of_nat (length (filter (λ r, stateAt b r = flagged) adj)))
              (adjacentMines cell)) as [Hcount|Hcount]; simpl.
  2:{ apply Hnone. intros (c & Hc & _ & _ & Heq).
      assert (c = cell) as -> by congruence. done. }
  assert (satisfiedClue b q) as Hsat.
  { exists cell. split; [done|]. split; [done|]. split; [lia|done]. }
  destruct (Z.ltb_spec 0 (Z.of_nat (length (filter (λ p, stateAt b p = hidden) adj))))
    as [Hlen|Hlen].
  - eexists. split; [done|]. intros p. rewrite list_elem_of_filter. tauto.
  - exists []. split; [done|]. intros p. split; [by intros ?%elem_of_nil|].
    intros (_ & Hp & Hh).
    assert (p ∈ filter (λ p, stateAt b p = hidden) adj) as Hp'
      by (by apply list_elem_of_filter).
    destruct (filter (λ p, stateAt b p = hidden) adj); [done|simpl in Hlen; lia].
Qed.

Lemma satisfiedClue_inBounds b q :
  well_formed b → satisfiedClue b q → inBounds b (row q) (col q) = true.
Proof. intros Hwf (c & Hc & _). by eapply getCell_inBounds. Qed.

(** X15.  On a board of [height] rows of [width] cells [findSafeMoves]
    never throws and returns, each once, exactly the hidden cells that
    touch a revealed clue with as many flags around it as the clue says. *)
Theorem findSafeMoves_exactly (b : BoardState) :
  well_formed b →
  ∃ l, findSafeMoves b = Ok l ∧ NoDup l ∧
       ∀ p, p ∈ l ↔
            stateAt b p = hidden ∧
            ∃ q, satisfiedClue b q ∧ p ∈ getAdjacentPositions b q.
Proof.
  intros Hwf. unfold findSafeMoves.
  destruct (foldR_invariant
              (fun acc q => ms ← safeMovesAt b q; Ok (acc ++ ms))
              (fun (done : list Position) (acc : list Position) =>
                 ∀ p, p ∈ acc ↔
                      stateAt b p = hidden ∧
                      ∃ q, q ∈ done ∧ satisfiedClue b q ∧ p ∈ getAdjacentPositions b q)
              (gridPositions (height b) (width b)) [])
    as (acc & -> & Hacc).
  - intros p. split; [by intros ?%elem_of_nil|].
    by intros (_ & q & ?%elem_of_nil & _).
  - intros done q rest acc Hl Hacc.
    destruct (safeMovesAt_spec b q Hwf) as (ms & -> & Hms).
    { apply elem_of_gridPositions_inBounds. rewrite Hl, elem_of_app. right. left. }
    simpl. eexists. split; [done|]. intros p.
    rewrite elem_of_app, Hacc, Hms. split.
    + intros [(Hh & r & Hr & Hsat & Hp)|(Hsat & Hp & Hh)].
      * split; [done|]. exists r. split; [|done]. apply elem_of_app. by left.
      * split; [done|]. exists q. split; [|done]. apply elem_of_app. right. left.
    + intros (Hh & r & [Hr|Hr%list_elem_of_singleton]%elem_of_app & Hsat & Hp).
      * left. split; [done|]. by exists r.
      * subst r. by right.
  - simpl. eexists. split; [done|]. split; [apply NoDup_removeDuplicatesFrom|].
    intros p. unfold removeDuplicatePositions.
    rewrite elem_of_removeDuplicatesFrom, Hacc. split.
    + intros [(Hh & q & _ & Hsat & Hp) _]. split; [done|]. by exists q.
    + intros (Hh & q & Hsat & Hp). split; [|apply not_elem_of_empty]. split; [done|].
      exists q. split; [|done].
      by apply elem_of_gridPositions_inBounds, satisfiedClue_inBounds.
Qed.


Lemma findSafeMoves_exactly_witness :
  ∃ l, findSafeMoves sampleFlagged = Ok l ∧ NoDup l ∧
       ∀ p, p ∈ l ↔
            stateAt sampleFlagged p = hidden ∧
            ∃ q, satisfiedClue sampleFlagged q ∧ p ∈ getAdjacentPositions sampleFlagged q.
Proof.
  apply (findSafeMoves_exactly sampleFlagged).
  split; [done|]. by repeat constructor.
Defined.

Lemma findSafeMoves_hidden b :
  well_formed b →
  ∃ l, findSafeMoves b = Ok l ∧
       ∀ p, p ∈ l → inBounds b (row p) (col p) = true ∧ stateAt b p = hidden.
Proof.
  intros Hwf. unfold findSafeMoves.
  destruct (foldR_preserves
              (fun acc q => ms ← safeMovesAt b q; Ok (acc ++ ms))
              (fun acc : list Position =>
                 ∀ p, p ∈ acc → inBounds b (row p) (col p) = true ∧ stateAt b p = hidden)
              (gridPositions (height b) (width b)) [])
    as (acc & -> & Hacc).
  - by intros p ?%elem_of_nil.
  - intros q acc Hq Hacc.
    destruct (safeMovesAt_spec b q Hwf) as (ms & -> & Hms);
      [by apply elem_of_gridPositions_inBounds|].
    simpl. eexists. split; [done|].
    intros p [Hp|Hp]%elem_of_app; [by apply Hacc|].
    apply Hms in Hp as (_ & Hp & Hh). split; [|done].
    by eapply getAdjacentPositions_inBounds.
  - simpl. eexists. split; [done|]. intros p Hp.
    apply Hacc. by eapply removeDuplicatesFrom_subset.
Qed.

Lemma calculateInformationGain_nonneg b p n :
  calculateInformationGain b p = Ok n → 0 ≤ n.
Proof.
  unfold calculateInformationGain. intros (c & _ & Hn)%bind_Ok.
  destruct (adjacentMines c =? 0); [injection Hn as <-; lia|].
  apply bind_Ok in Hn as (l & _ & [= <-]). lia.
Qed.

(** What a loop keeps, for the runs that do not throw. *)
Lemma foldR_keeps {A S : Type} (f : S -> A -> result S) (P : S -> Prop) (l : list A) :
  ∀ s s', foldR f l s = Ok s' → P s →
          (∀ x s s', x ∈ l → P s → f s x = Ok s' → P s') → P s'.
Proof.
  induction l as [|x l IH]; intros s s' Hrun Hs Hstep; simpl in Hrun.
  { by injection Hrun as <-. }
  apply bind_Ok in Hrun as (s1 & H1 & Hrun).
  apply (IH s1 s' Hrun).
  - apply (Hstep x s s1); [left|done|done].
  - intros y t t' Hy. apply Hstep. by right.
Qed.

Lemma selectBestSafeMove_elem b safeMoves best :
  selectBestSafeMove b safeMoves = Ok best → best ∈ safeMoves.
Proof.
  unfold selectBestSafeMove.
  destruct safeMoves as [|first rest]; [done|].
  destruct rest as [|second rest]; [intros [= <-]; left|].
  intros (st & Hst & [= <-])%bind_Ok.
  apply (foldR_keeps _ (fun st => st.1 ∈ first :: second :: rest) _ _ _ Hst); [left|].
  intros x s s' Hx Hs (n & _ & [= <-])%bind_Ok.
  by destruct (n >? s.2).
Qed.

(** X16.  Among the safe moves it is given, all on the board,
    [selectBestSafeMove] returns one whose information gain (10 for a cell
    with clue 0, the number of hidden neighbours otherwise) is the largest. *)
Theorem selectBestSafeMove_maximises_gain (b : BoardState) (safeMoves : list Position) :
  well_formed b → safeMoves ≠ [] →
  (∀ p, p ∈ safeMoves → inBounds b (row p) (col p) = true) →
  ∃ best gain,
    selectBestSafeMove b safeMoves = Ok best ∧ best ∈ safeMoves ∧
    calculateInformationGain b best = Ok gain ∧
    ∀ m gm, m ∈ safeMoves → calculateInformationGain b m = Ok gm → gm ≤ gain.
Proof.
  intros Hwf Hne Hin. unfold selectBestSafeMove.
  destruct safeMoves as [|first rest]; [done|].
  destruct (calculateInformationGain_total b first Hwf) as [g1 Hg1];
    [apply Hin; left|].
  destruct rest as [|second rest].
  { exists first, g1. split; [done|]. split; [left|]. split; [done|].
    intros m gm ->%list_elem_of_singleton Hgm. assert (gm = g1) by congruence. lia. }
  set (l := first :: second :: rest) in *.
  destruct (foldR_invariant
              (fun st move =>
                 informationGain ← calculateInformationGain b move;
                 Ok (if informationGain >? st.2 then (move, informationGain) else st))
              (fun (done : list Position) (st : Position * Z) =>
                 st.1 ∈ l ∧ 0 ≤ st.2 ∧
                 (∀ m gm, m ∈ done → calculateInformationGain b m = Ok gm → gm ≤ st.2) ∧
                 (st = (first, 0) ∨ calculateInformationGain b st.1 = Ok st.2))
              l (first, 0)) as (st & -> & Hbest & Hpos & Hmax & Hval).
  - split; [left|]. split; [done|]. split; [|by left].
    by intros m gm ?%elem_of_nil.
  - intros done move rest' st Hl (Hbest & Hpos & Hmax & Hval).
    assert (move ∈ l) as Hmove by (rewrite Hl, elem_of_app; right; left).
    destruct (calculateInformationGain_total b move Hwf (Hin move Hmove)) as [n Hn].
    rewrite Hn. simpl. eexists. split; [done|].
    destruct (Z.gtb_spec n st.2) as [Hgt|Hle]; simpl.
    + split; [done|]. split; [lia|]. split; [|by right].
      intros m gm [Hm|Hm%list_elem_of_singleton]%elem_of_app Hgm.
      * specialize (Hmax m gm Hm Hgm). lia.
      * subst m. assert (gm = n) by congruence. lia.
    + split; [done|]. split; [done|]. split; [|done].
      intros m gm [Hm|Hm%list_elem_of_singleton]%elem_of_app Hgm.
      * by apply (Hmax m gm).
      * subst m. assert (gm = n) by congruence. lia.
  - simpl. destruct Hval as [->|Hval].
    + exists first, g1. split; [done|]. split; [done|]. split; [done|].
      intros m gm Hm Hgm. simpl in *.
      pose proof (Hmax m gm Hm Hgm).
      pose proof (calculateInformationGain_nonneg b first g1 Hg1). lia.
    + exists st.1, st.2. split; [done|]. split; [done|]. split; [done|]. done.
Qed.

Lemma selectBestSafeMove_maximises_gain_witness :
  ∃ best gain,
    selectBestSafeMove sampleFlagged [mkPosition 0 0; mkPosition 0 3] = Ok best ∧
    best ∈ [mkPosition 0 0; mkPosition 0 3] ∧
    calculateInformationGain sampleFlagged best = Ok gain ∧
    ∀ m gm, m ∈ [mkPosition 0 0; mkPosition 0 3] →
            calculateInformationGain sampleFlagged m = Ok gm → gm ≤ gain.
Proof.
  apply (selectBestSafeMove_maximises_gain sampleFlagged).
  - split; [done|]. by repeat constructor.
  - done.
  - intros p [->|[->|[]%elem_of_nil]%elem_of_cons]%elem_of_cons; reflexivity.
Defined.



Lemma mapR_Forall2 {A B : Type} (f : A -> result B) (l : list A) :
  ∀ ys, mapR f l = Ok ys → Forall2 (fun x y => f x = Ok y) l ys.
Proof.
  induction l as [|x l IH]; intros ys; simpl.
  { intros [= <-]. constructor. }
  intros (y & Hy & (ys' & Hys & [= <-])%bind_Ok)%bind_Ok.
  constructor; [done|by apply IH].
Qed.

Lemma findProbabilityMoves_unsorted b :
  well_formed b →
  ∃ ms, findProbabilityMoves b = Ok (sortDescending snd ms) ∧
        ms.*1 = filter (fun q => stateAt b q = hidden)
                       (gridPositions (height b) (width b)) ∧
        ∀ e, e ∈ ms → calculateSafeProbability b e.1 = Ok e.2.
Proof.
  intros Hwf. unfold findProbabilityMoves.
  change (getCellsByState b hidden)
    with (positionsInState b hidden (gridPositions (height b) (width b))).
  rewrite positionsInState_Ok;
    [|done|intros q Hq; by apply elem_of_gridPositions_inBounds].
  simpl. set (hs := filter _ _).
  destruct (mapR_total (fun q => pr ← calculateSafeProbability b q; Ok (q, pr)) hs)
    as [ms Hms].
  { intros q _. destruct (calculateSafeProbability_total b q Hwf) as [pr ->]. by eexists. }
  rewrite Hms. simpl. exists ms. split; [done|].
  apply mapR_Forall2 in Hms. clear -Hms.
  induction Hms as [|q e hs ms He Hms [IH1 IH2]]; [split; [done|by intros e ?%elem_of_nil]|].
  apply bind_Ok in He as (pr & Hpr & [= <-]). split.
  - by rewrite fmap_cons, IH1.
  - intros e [->|He]%elem_of_cons; [done|by apply IH2].
Qed.



(** X18.  What [analyzeBoard] answers on a board of [height] rows of
    [width] cells: never an exception; a hint only while the game is on and
    past its first click, and then always one that points at a hidden cell
    of the board, either a safe move with confidence 1 or, when there is no
    safe move, a hidden cell with its probability as confidence; and no
    hint at all only when the game is not on, is at its first click, or has
    no hidden cell left. *)
Theorem analyzeBoard_hints_a_hidden_cell (b : BoardState) :
  well_formed b →
  ∃ r, analyzeBoard b = Ok r ∧
       (∀ h, r = Some h →
          gameStatus b = playing ∧ firstClick b = false ∧
          isValidPosition b (suggestedMove h) = true ∧
          stateAt b (suggestedMove h) = hidden ∧
          ((moveType h = safe ∧ confidence h = 1%Q ∧
            ∃ l, findSafeMoves b = Ok l ∧ suggestedMove h ∈ l) ∨
           (moveType h = probability ∧ findSafeMoves b = Ok [] ∧
            calculateSafeProbability b (suggestedMove h) = Ok (confidence h)))) ∧
       (r = None →
          gameStatus b ≠ playing ∨ firstClick b = true ∨
          ∀ q c, getCell (cells b) q = Ok c → state c ≠ hidden).
Proof.
  intros Hwf. unfold analyzeBoard.
  destruct (bool_decide (gameStatus b = playing)) eqn:Hplay; simpl.
  2:{ apply bool_decide_eq_false in Hplay. eexists. split; [done|].
      split; [done|]. intros _. by left. }
  apply bool_decide_eq_true in Hplay.
  destruct (firstClick b) eqn:Hfirst.
  { eexists. split; [done|]. split; [done|]. intros _. right. by left. }
  destruct (findSafeMoves_hidden b Hwf) as (safeMoves & Hsafe & Hin).
  rewrite Hsafe. simpl.
  destruct (Z.ltb_spec 0 (Z.of_nat (length safeMoves))) as [Hlen|Hlen].
  - destruct (selectBestSafeMove_total b safeMoves Hwf) as (best & Hbest & _);
      [by destruct safeMoves|intros p Hp; by apply Hin|].
    rewrite Hbest. simpl. unfold explainSafeMove.
    destruct (explainFrom_total b (getAdjacentPositions b best) Hwf) as [why ->];
      [apply getAdjacentPositions_inBounds|].
    simpl. eexists. split; [done|]. split; [|done].
    intros h [= <-]. simpl.
    pose proof (selectBestSafeMove_elem b safeMoves best Hbest) as Hel.
    destruct (Hin best Hel) as [Hb Hh].
    do 2 (split; [done|]). split; [by rewrite isValidPosition_inBounds|].
    split; [done|]. left. split; [done|]. split; [done|]. by exists safeMoves.
  - assert (safeMoves = []) as -> by (destruct safeMoves; [done|simpl in Hlen; lia]).
    rewrite (findLogicalMoves_Ok b Hwf). simpl.
    destruct (findProbabilityMoves_unsorted b Hwf) as (ms & Hl & Hfst & Hval).
    rewrite Hl. simpl.
    pose proof (sortDescending_perm snd ms) as Hperm.
    destruct (sortDescending snd ms) as [|bestMove rest] eqn:Hsort.
    + eexists. split; [done|]. split; [done|]. intros _. right. right.
      intros q c Hc Hh.
      apply Permutation_nil_l in Hperm. subst ms. simpl in Hfst.
      assert (q ∈ filter (fun q => stateAt b q = hidden)
                     (gridPositions (height b) (width b))) as Hq.
      { apply list_elem_of_filter. split; [by rewrite (stateAt_Ok _ _ _ Hc)|].
        apply elem_of_gridPositions_inBounds. by eapply getCell_inBounds. }
      rewrite <- Hfst in Hq. by apply elem_of_nil in Hq.
    + eexists. split; [done|]. split; [|done].
      intros h [= <-]. simpl.
      assert (bestMove ∈ ms) as Hbm by (rewrite <- Hperm; left).
      assert (bestMove.1 ∈ filter (fun q => stateAt b q = hidden)
                             (gridPositions (height b) (width b))) as Hq.
      { rewrite <- Hfst. by apply list_elem_of_fmap_2. }
      apply list_elem_of_filter in Hq as [Hh Hq%elem_of_gridPositions_inBounds].
      do 2 (split; [done|]). split; [by rewrite isValidPosition_inBounds|].
      split; [done|]. right. split; [done|]. split; [done|]. by apply Hval.
Qed.

Lemma analyzeBoard_hints_a_hidden_cell_witness :
  ∃ r, analyzeBoard sampleFlagged = Ok r ∧
       (∀ h, r = Some h →
          gameStatus sampleFlagged = playing ∧ firstClick sampleFlagged = false ∧
          isValidPosition sampleFlagged (suggestedMove h) = true ∧
          stateAt sampleFlagged (suggestedMove h) = hidden ∧
          ((moveType h = safe ∧ confidence h = 1%Q ∧
            ∃ l, findSafeMoves sampleFlagged = Ok l ∧ suggestedMove h ∈ l) ∨
           (moveType h = probability ∧ findSafeMoves sampleFlagged = Ok [] ∧
            calculateSafeProbability sampleFlagged (suggestedMove h)
            = Ok (confidence h)))) ∧
       (r = None →
          gameStatus sampleFlagged ≠ playing ∨ firstClick sampleFlagged = true ∨
          ∀ q c, getCell (cells sampleFlagged) q = Ok c → state c ≠ hidden).
Proof.
  apply (analyzeBoard_hints_a_hidden_cell sampleFlagged).
  split; [done|]. by repeat constructor.
Defined.

(** ** Statistics and difficulty *)


Lemma updatePerformanceMetrics_losses run : ∀ s,
  run ≠ [] → Forall (fun r => r_won r = false) run →
  currentStreak (foldl updatePerformanceMetrics s run)
  = Z.min 0 (currentStreak s) - Z.of_nat (length run).
Proof.
  induction run as [|r run IH]; intros s Hne Hall; [done|].
  apply Forall_cons in Hall as [Hr Hall]. simpl.
  destruct run as [|r' run'].
  { simpl. rewrite Hr. lia. }
  rewrite IH by done. simpl. rewrite Hr. lia.
Qed.


Lemma recordGames_invariant games : ∀ st,
  (0 ≤ currentStreak (loadPlayerStats st) ∧
   0 ≤ gamesWon (loadPlayerStats st) ≤ gamesPlayed (loadPlayerStats st)) →
  0 ≤ currentStreak (loadPlayerStats (recordGames games st)) ∧
  0 ≤ gamesWon (loadPlayerStats (recordGames games st))
    ≤ gamesPlayed (loadPlayerStats (recordGames games st)).
Proof.
  induction games as [|[accepted r] games IH]; intros st Hst; [done|].
  unfold recordGames in *. simpl. apply IH.
  unfold savePlayerStats. destruct accepted; simpl; [|done].
  destruct (r_won r); lia.
Qed.

(** X20.  Statistics kept by [updatePlayerStats] never show a losing
    streak: starting from an empty store, after any series of games
    (whether or not the browser accepts each write) the stored streak is
    not negative and the wins do not exceed the games; so the adapter
    never sees a declining trend in them, and neither of
    [calculateMineCount]'s two streak adjustments is negative. *)
Theorem stored_streak_is_never_negative (games : list (bool * GameResult)) :
  let stats := loadPlayerStats (recordGames games None) in
  0 ≤ currentStreak stats ∧ 0 ≤ gamesWon stats ≤ gamesPlayed stats ∧
  (analyzeRecentPerformance stats).1 ≠ declining ∧
  0 ≤ trendAdjustment stats ∧ 0 ≤ streakAdjustment stats.
Proof.
  intros stats.
  destruct (recordGames_invariant games None) as [Hstreak Hwon]; [simpl; lia|].
  fold stats in Hstreak, Hwon. split; [done|]. split; [done|].
  unfold analyzeRecentPerformance, trendAdjustment, streakAdjustment.
  destruct (Z.gtb_spec (currentStreak stats) 2),
           (Z.ltb_spec (currentStreak stats) (-2)),
           (Z.geb_spec (currentStreak stats) 5),
           (Z.leb_spec (currentStreak stats) (-3)); simpl; repeat split; (done || lia).
Qed.

(** X21.  [getDifficultyRecommendation] moves at most one step up: with
    fewer than five games it answers beginner; otherwise it keeps the
    preferred level, or promotes beginner to intermediate (win rate above
    0.8, less than one hint a game) or intermediate to expert (above 0.7,
    less than two hints), or sends a player whose win rate is below 0.3
    back to beginner, the two ratios being the quotients the code computes.
    Expert is never recommended to a beginner. *)
Theorem getDifficultyRecommendation_steps (s : PlayerStats) :
  let r := (getDifficultyRecommendation s).1 in
  (gamesPlayed s < 5 → r = beginner) ∧
  (5 ≤ gamesPlayed s →
   (r = preferredDifficulty s ∧
    ¬ (numLt (winRate s) lit_0_3 = true ∧ preferredDifficulty s ≠ beginner)) ∨
   (preferredDifficulty s = beginner ∧ r = intermediate ∧
    numGt (winRate s) lit_0_8 = true ∧
    numLt (hintsPerGame s) (numberOfZ 1) = true) ∨
   (preferredDifficulty s = intermediate ∧ r = expert ∧
    numGt (winRate s) lit_0_7 = true ∧
    numLt (hintsPerGame s) (numberOfZ 2) = true) ∨
   (preferredDifficulty s ≠ beginner ∧ r = beginner ∧
    numLt (winRate s) lit_0_3 = true)) ∧
  (preferredDifficulty s = beginner → r ≠ expert).
Proof.
  intros r. subst r. unfold getDifficultyRecommendation. cbv zeta.
  destruct (Z.ltb_spec (gamesPlayed s) 5) as [Hlt|Hge]; cbn [fst].
  { split; [done|]. split; [lia|done]. }
  split; [lia|].
  destruct (Z.gtb_spec (gamesPlayed s) 0) as [_|]; [|lia].
  fold (winRate s) (hintsPerGame s).
  generalize (numGt (winRate s) lit_0_8) (numGt (winRate s) lit_0_7)
             (numLt (winRate s) lit_0_3)
             (numLt (hintsPerGame s) (numberOfZ 1))
             (numLt (hintsPerGame s) (numberOfZ 2)).
  intros above8 above7 below3 hints1 hints2.
  destruct (preferredDifficulty s) eqn:Hd, above8, above7, below3, hints1, hints2; simpl;
    (split; [intros _|done]);
    try (left; split; [done|]; by intros [? ?]);
    try (right; left; by repeat split);
    try (right; right; left; by repeat split);
    try (right; right; right; by repeat split).
Qed.

(** The ratios are the rounded quotients: with 1000000000000001 wins in
    3333333333333337 games the exact ratio is below 0.3, the quotient is the
    double 0.3, and an expert stays expert. *)
Lemma getDifficultyRecommendation_rounds :
  let s := mkStats 3333333333333337 1000000000000001 0 0 0 expert in
  10 * gamesWon s < 3 * gamesPlayed s ∧ winRate s = lit_0_3 ∧
  (getDifficultyRecommendation s).1 = expert.
Proof. repeat split; vm_compute; reflexivity. Qed.

Lemma length_filter_split {A : Type} (P : A -> Prop) `{∀ x, Decision (P x)} (l : list A) :
  (length (filter P l) + length (filter (fun x => ¬ P x) l) = length l)%nat.
Proof.
  induction l as [|x l IH]; [done|]. rewrite !filter_cons.
  destruct (decide (P x)), (decide (¬ P x)); simpl; try lia; tauto.
Qed.

(** The safe zone takes at most nine positions away. *)
Lemma length_collectAvailable h w sz :
  0 ≤ h → 0 ≤ w → w * h - 9 ≤ Z.of_nat (length (collectAvailable h w sz)).
Proof.
  intros Hh Hw. unfold collectAvailable.
  pose proof (length_filter_split (fun q => isAvailable sz q = true) (gridPositions h w))
    as Hsplit.
  rewrite length_gridPositions in Hsplit.
  assert (length (filter (fun q => ¬ isAvailable sz q = true) (gridPositions h w)) ≤ 9)%nat
    as Hzone.
  { destruct sz as [p|]; simpl.
    - change 9%nat with (length (squareAround p)).
      apply submseteq_length, NoDup_submseteq.
      + apply NoDup_filter, NoDup_gridPositions.
      + intros q [Hq _]%list_elem_of_filter.
        apply not_true_is_false, negb_false_iff in Hq.
        unfold isInSafeZone in Hq. apply andb_true_iff in Hq as [Hr Hc].
        unfold squareAround. apply list_elem_of_bind. exists (row q).
        split; [|apply elem_of_seqZ; lia].
        apply list_elem_of_bind. exists (col q).
        split; [destruct q; left|apply elem_of_seqZ; lia].
    - rewrite filter_count_none; [lia|]. intros q _ Hq. by apply Hq. }
  nia.
Qed.

Lemma calculateMineCount_fits s :
  0 ≤ calculateMineCount s ≤
  baseWidth (difficultySettings (preferredDifficulty s))
  * baseHeight (difficultySettings (preferredDifficulty s)) - 9.
Proof.
  destruct (Z.lt_ge_cases (gamesPlayed s) 3) as [Hlt|Hge].
  - unfold calculateMineCount.
    destruct (Z.ltb_spec (gamesPlayed s) 3) as [_|]; [|lia].
    by destruct (preferredDifficulty s).
  - rewrite (calculateMineCount_adjusted s Hge).
    generalize (totalAdjustment s). intros t.
    destruct (preferredDifficulty s);
      cbn [difficultySettings baseMines maxMines baseWidth baseHeight].
    + change (7 * 10 / 10) with 7. lia.
    + change (7 * 40 / 10) with 28. lia.
    + change (7 * 99 / 10) with 69. lia.
Qed.

Section Fit.
Import IntelligentMinePlacer.
Variable Math_sqrt : Q -> Q.

(** X22.  The mine counts of the adapter always fit its boards: on the
    board of the player's difficulty, whatever the first click and the
    random source, [generateBoard] lays exactly [calculateMineCount]
    mines and records that number in [mineCount]. *)
Theorem adapter_mine_counts_fit (s : PlayerStats) (p : Position) (g : Rng) :
  let settings := difficultySettings (preferredDifficulty s) in
  ∃ b g', generateBoard Math_sqrt (baseWidth settings) (baseHeight settings)
            (calculateMineCount s) (Some p) g = Ok (b, g') ∧
          mineCount b = calculateMineCount s ∧
          Z.of_nat (minesOnBoard b) = calculateMineCount s ∧
          calculateMineCount s < width b * height b.
Proof.
  intros settings.
  destruct (generateBoard_spec Math_sqrt (baseWidth settings) (baseHeight settings)
              (calculateMineCount s) (Some p) g) as (b & g' & Hgen & Hw & Hh & _).
  exists b, g'. split; [done|].
  destruct (generateBoard_count Math_sqrt _ _ _ _ _ _ _ Hgen) as (Hcount & Hmc & _).
  pose proof (calculateMineCount_fits s) as Hfit. fold settings in Hfit.
  pose proof (length_collectAvailable (baseHeight settings) (baseWidth settings) (Some p))
    as Havail.
  assert (0 ≤ baseHeight settings ∧ 0 ≤ baseWidth settings) as [H1 H2]
    by (subst settings; by destruct (preferredDifficulty s)).
  specialize (Havail H1 H2).
  rewrite Hw, Hh. split; [|split]; [|lia..].
  destruct Hmc as [->| ->]; [done|]. lia.
Qed.

End Fit.

(** ** Board utilities *)

Lemma getCellCount_Ok b s :
  well_formed b → getCellCount b s = Ok (Z.of_nat (cellsInState s b)).
Proof.
  intros Hwf. unfold getCellCount, cellsInState.
  assert (∀ l n, (∀ q, q ∈ l → inBounds b (row q) (col q) = true) →
            foldR (fun count q =>
                     c ← getCell (cells b) q;
                     Ok (if bool_decide (state c = s) then count + 1 else count)) l n
            = Ok (n + Z.of_nat (length (filter (fun q => stateAt b q = s) l)))) as Hloop.
  { induction l as [|q l IH]; intros n Hin; simpl; [f_equal; lia|].
    destruct (getCell_well_formed b q Hwf) as [c Hc]; [apply Hin; left|].
    rewrite Hc. simpl. rewrite IH by (intros r Hr; apply Hin; by right).
    rewrite filter_cons, (stateAt_Ok b q c Hc). f_equal.
    case_bool_decide; [rewrite decide_True by done|rewrite decide_False by done];
      simpl; lia. }
  rewrite Hloop; [done|]. intros q. by apply elem_of_gridPositions_inBounds.
Qed.



Section Stats.
Variable Math_sqrt : Q -> Q.


End Stats.


(** X24.  [findCells] returns, each once, exactly the positions whose cell
    satisfies the predicate; [getCellCount] is the number of cells in the
    state; [getCellAt] answers [null] exactly off the board and the cell
    itself on it.  None of them throws on a board of [height] rows of
    [width] cells. *)
Theorem board_queries (b : BoardState) (predicate : Cell -> bool) (s : CellState)
    (p : Position) :
  well_formed b →
  (∃ l, findCells b predicate = Ok l ∧ NoDup l ∧
        ∀ q, q ∈ l ↔ ∃ c, getCell (cells b) q = Ok c ∧ predicate c = true) ∧
  (∃ l, getCellsByState b s = Ok l ∧ getCellCount b s = Ok (Z.of_nat (length l))) ∧
  (isValidPosition b p = false → getCellAt b p = Ok None) ∧
  (isValidPosition b p = true →
   ∃ c, getCellAt b p = Ok (Some c) ∧ getCell (cells b) p = Ok c).
Proof.
  intros Hwf. split; [|split; [|split]].
  - set (holds := fun q => match getCell (cells b) q with
                           | Ok c => predicate c
                           | _ => false
                           end).
    unfold findCells. rewrite (filterR_Ok _ holds).
    + eexists. split; [done|]. split; [apply NoDup_filter, NoDup_gridPositions|].
      intros q. rewrite list_elem_of_filter, elem_of_gridPositions_inBounds.
      unfold holds. split.
      * intros [Hq Hin]. destruct (getCell (cells b) q) as [c| |]; [|done..].
        by exists c.
      * intros (c & Hc & Hp). rewrite Hc. split; [done|]. by eapply getCell_inBounds.
    + intros q Hq%elem_of_gridPositions_inBounds.
      destruct (getCell_well_formed b q Hwf Hq) as [c Hc].
      unfold holds. by rewrite Hc.
  - change (getCellsByState b s)
      with (positionsInState b s (gridPositions (height b) (width b))).
    rewrite positionsInState_Ok;
      [|done|intros q Hq; by apply elem_of_gridPositions_inBounds].
    eexists. split; [done|]. by rewrite getCellCount_Ok.
  - intros Hv. unfold getCellAt.
    change ((row p <? 0) || (row p >=? height b) || (col p <? 0) || (col p >=? width b))
      with (outOfBounds b p).
    rewrite outOfBounds_inBounds, <- isValidPosition_inBounds, Hv. done.
  - intros Hv. unfold getCellAt.
    change ((row p <? 0) || (row p >=? height b) || (col p <? 0) || (col p >=? width b))
      with (outOfBounds b p).
    rewrite outOfBounds_inBounds, <- isValidPosition_inBounds, Hv. simpl.
    destruct (getCell_well_formed b p Hwf) as [c Hc];
      [by rewrite <- isValidPosition_inBounds|].
    rewrite Hc. by exists c.
Qed.

Lemma board_queries_witness :
  (∃ l, findCells sampleFlagged hasMine = Ok l ∧ NoDup l ∧
        ∀ q, q ∈ l ↔ ∃ c, getCell (cells sampleFlagged) q = Ok c ∧ hasMine c = true) ∧
  (∃ l, getCellsByState sampleFlagged hidden = Ok l ∧
        getCellCount sampleFlagged hidden = Ok (Z.of_nat (length l))) ∧
  (isValidPosition sampleFlagged (mkPosition 1 1) = false →
   getCellAt sampleFlagged (mkPosition 1 1) = Ok None) ∧
  (isValidPosition sampleFlagged (mkPosition 1 1) = true →
   ∃ c, getCellAt sampleFlagged (mkPosition 1 1) = Ok (Some c) ∧
        getCell (cells sampleFlagged) (mkPosition 1 1) = Ok c).
Proof.
  apply (board_queries sampleFlagged hasMine hidden (mkPosition 1 1)).
  split; [done|]. by repeat constructor.
Defined.


Lemma getAdjacentCells_Ok b p :
  well_formed b →
  ∃ cs, getAdjacentCells b p = Ok cs ∧
        Forall2 (fun q c => getCell (cells b) q = Ok c) (getAdjacentPositions b p) cs.
Proof.
  intros Hwf.
  assert (getAdjacentCells b p
          = mapR (fun q => getCell (cells b) q) (getAdjacentPositions b p)) as ->.
  { unfold getAdjacentCells, getAdjacentPositions, inBounds. f_equal.
    apply list_bind_ext; [intros r|done]. apply list_bind_ext; [intros c|done].
    destruct ((r >=? 0) && (r <? height b) && (c >=? 0) && (c <? width b));
      destruct (r =? row p), (c =? col p); done. }
  destruct (mapR_total (fun q => getCell (cells b) q) (getAdjacentPositions b p))
    as [cs Hcs].
  { intros q Hq. apply getCell_well_formed; [done|].
    by eapply getAdjacentPositions_inBounds. }
  exists cs. split; [done|]. by apply mapR_Forall2.
Qed.

Lemma filter_cells_positions b s (l : list Position) (cs : list Cell) :
  Forall2 (fun q c => getCell (cells b) q = Ok c) l cs →
  length (filter (fun c => state c = s) cs)
  = length (filter (fun q => stateAt b q = s) l).
Proof.
  induction 1 as [|q c l cs Hc _ IH]; [done|].
  rewrite !filter_cons, (stateAt_Ok b q c Hc).
  destruct (decide (state c = s)); simpl; by rewrite IH.
Qed.

Lemma anyR_spec {A : Type} (f : A -> result bool) (l : list A) :
  (∀ x, x ∈ l → ∃ v, f x = Ok v) →
  ∃ r, anyR f l = Ok r ∧ (r = true ↔ ∃ x, x ∈ l ∧ f x = Ok true).
Proof.
  induction l as [|x l IH]; intros Htot; simpl.
  { exists false. split; [done|]. split; [done|]. by intros (x & ?%elem_of_nil & _). }
  destruct (Htot x) as [v Hv]; [left|]. rewrite Hv. simpl. destruct v.
  - exists true. split; [done|]. split; [|done]. intros _. exists x. split; [left|done].
  - destruct IH as (r & -> & Hr); [intros y Hy; apply Htot; by right|].
    exists r. split; [done|]. rewrite Hr. split.
    + intros (y & Hy & Hfy). exists y. split; [by right|done].
    + intros (y & [->|Hy]%elem_of_cons & Hfy); [congruence|]. by exists y.
Qed.

Lemma hasHiddenNeighbour_count b q :
  hasHiddenNeighbour b q ↔
  0 < Z.of_nat (length (filter (fun r => stateAt b r = hidden)
                          (getAdjacentPositions b q))).
Proof.
  unfold hasHiddenNeighbour. split.
  - intros (p & Hp & Hh).
    assert (p ∈ filter (fun r => stateAt b r = hidden) (getAdjacentPositions b q)) as Hin
      by (by apply list_elem_of_filter).
    destruct (filter _ _); [by apply elem_of_nil in Hin|simpl; lia].
  - intros Hlen.
    destruct (filter (fun r => stateAt b r = hidden) (getAdjacentPositions b q))
      as [|p l] eqn:E; [simpl in Hlen; lia|].
    assert (p ∈ filter (fun r => stateAt b r = hidden) (getAdjacentPositions b q)) as Hin
      by (rewrite E; left).
    apply list_elem_of_filter in Hin as [Hh Hp]. by exists p.
Qed.

Lemma findSafeMoves_from_clue b l p :
  well_formed b → findSafeMoves b = Ok l → p ∈ l →
  ∃ q, satisfiedClue b q ∧ hasHiddenNeighbour b q.
Proof.
  intros Hwf. unfold findSafeMoves. intros (acc & Hacc & [= <-])%bind_Ok Hp.
  apply removeDuplicatesFrom_subset in Hp.
  revert p Hp.
  apply (foldR_keeps _ (fun acc : list Position =>
                          ∀ p, p ∈ acc → ∃ q, satisfiedClue b q ∧ hasHiddenNeighbour b q)
           _ _ _ Hacc).
  - by intros p ?%elem_of_nil.
  - intros q s s' Hq%elem_of_gridPositions_inBounds Hs (ms & Hms & [= <-])%bind_Ok p.
    intros [Hp|Hp]%elem_of_app; [by apply (Hs p)|].
    destruct (safeMovesAt_spec b q Hwf Hq) as (ms' & Hms' & Hspec).
    assert (ms' = ms) as -> by congruence.
    apply Hspec in Hp as (Hsat & Hadj & Hh). exists q. split; [done|]. by exists p.
Qed.

(** X26.  [isBoardSolvable] never throws on a board of [height] rows of
    [width] cells, and answers [true] exactly when the game is on and
    either waits for its first click or shows a revealed clue with a hidden
    neighbour whose flags alone, or whose flags and hidden neighbours
    together, are as many as the clue says.  In particular it is [true]
    whenever the game is on and [findSafeMoves] finds a move. *)
Theorem isBoardSolvable_iff (b : BoardState) :
  well_formed b →
  ∃ r, isBoardSolvable b = Ok r ∧
       (r = true ↔
        gameStatus b = playing ∧
        (firstClick b = true ∨
         ∃ q, (satisfiedClue b q ∨ forcedClue b q) ∧ hasHiddenNeighbour b q)) ∧
       (∀ l, gameStatus b = playing → findSafeMoves b = Ok l → l ≠ [] → r = true).
Proof.
  intros Hwf.
  enough (∃ r, isBoardSolvable b = Ok r ∧
       (r = true ↔
        gameStatus b = playing ∧
        (firstClick b = true ∨
         ∃ q, (satisfiedClue b q ∨ forcedClue b q) ∧ hasHiddenNeighbour b q)))
    as (r & Hr & Hiff).
  { exists r. split; [done|]. split; [done|]. intros l Hplay Hl Hne.
    apply Hiff. split; [done|]. right.
    destruct l as [|p l]; [done|].
    destruct (findSafeMoves_from_clue b (p :: l) p Hwf Hl) as (q & Hsat & Hhid); [left|].
    exists q. split; [by left|done]. }
  unfold isBoardSolvable.
  destruct (bool_decide (gameStatus b = playing)) eqn:Hplay; simpl.
  2:{ apply bool_decide_eq_false in Hplay. exists false. split; [done|].
      split; [done|]. by intros [? _]. }
  apply bool_decide_eq_true in Hplay.
  destruct (firstClick b) eqn:Hfirst.
  { exists true. split; [done|]. split; [|done]. intros _. split; [done|by left]. }
  match goal with |- context [anyR ?f _] => set (test := f) end.
  assert (∀ q, inBounds b (row q) (col q) = true →
               ∃ v, test q = Ok v ∧
                    (v = true ↔ (satisfiedClue b q ∨ forcedClue b q) ∧
                                hasHiddenNeighbour b q)) as Htest.
  { intros q Hq. unfold test.
    destruct (getCell_well_formed b q Hwf Hq) as [cell Hcell]. rewrite Hcell. simpl.
    assert (∀ P, (satisfiedClue b q ∨ forcedClue b q) ∧ P →
                 state cell = revealed ∧ 0 < adjacentMines cell) as Hclue.
    { intros P [[(c & Hc & ? & ? & _)|(c & Hc & ? & ? & _)] _];
        assert (c = cell) as -> by congruence; done. }
    destruct (bool_decide (state cell = revealed) && (adjacentMines cell >? 0)) eqn:Hrev.
    2:{ exists false. split; [done|]. split; [done|]. intros [Hs Hn]%Hclue.
        apply andb_false_iff in Hrev as [Hrev|Hrev].
        - by apply bool_decide_eq_false in Hrev.
        - lia. }
    apply andb_true_iff in Hrev as [Hs%bool_decide_eq_true Hn].
    destruct (getAdjacentCells_Ok b q Hwf) as (cs & -> & Hcs). simpl.
    pose proof (filter_cells_positions b flagged _ _ Hcs) as Hnf.
    pose proof (filter_cells_positions b hidden _ _ Hcs) as Hnh.
    rewrite !Hnf, !Hnh. clear Hnf Hnh.
    set (nf := Z.of_nat (length (filter (fun r => stateAt b r = flagged)
                                   (getAdjacentPositions b q)))).
    set (nh := Z.of_nat (length (filter (fun r => stateAt b r = hidden)
                                   (getAdjacentPositions b q)))).
    assert (satisfiedClue b q ↔ nf = adjacentMines cell) as Hsat.
    { split.
      - intros (c & Hc & _ & _ & Heq). assert (c = cell) as -> by congruence. done.
      - intros Heq. exists cell. repeat split; (done || lia). }
    assert (forcedClue b q ↔ nf + nh = adjacentMines cell) as Hforced.
    { split.
      - intros (c & Hc & _ & _ & Heq). assert (c = cell) as -> by congruence. done.
      - intros Heq. exists cell. repeat split; (done || lia). }
    assert (hasHiddenNeighbour b q ↔ 0 < nh) as Hhid
      by apply hasHiddenNeighbour_count.
    destruct (Z.eqb_spec nf (adjacentMines cell)), (Z.gtb_spec nh 0),
             (Z.eqb_spec (nf + nh) (adjacentMines cell)); simpl;
      eexists; (split; [done|]); rewrite Hhid, Hsat, Hforced;
      (split; [intros ?|intros [[?|?] ?]]; (done || lia)). }
  destruct (anyR_spec test (gridPositions (height b) (width b))) as (r & Hr & Hany).
  { intros q Hq%elem_of_gridPositions_inBounds.
    destruct (Htest q Hq) as (v & Hv & _). by exists v. }
  exists r. split; [done|]. rewrite Hany. split.
  - intros (q & Hq%elem_of_gridPositions_inBounds & Hv). split; [done|]. right.
    exists q. destruct (Htest q Hq) as (v & Hv' & Hiff).
    apply Hiff. congruence.
  - intros [_ [Hf|(q & Hq)]]; [congruence|].
    assert (inBounds b (row q) (col q) = true) as Hin.
    { destruct Hq as [[(c & Hc & _)|(c & Hc & _)] _]; by eapply getCell_inBounds. }
    exists q. split; [by apply elem_of_gridPositions_inBounds|].
    destruct (Htest q Hin) as (v & Hv & Hiff).
    rewrite Hv. f_equal. by apply Hiff.
Qed.

Lemma isBoardSolvable_iff_witness :
  ∃ r, isBoardSolvable sampleFlagged = Ok r ∧
       (r = true ↔
        gameStatus sampleFlagged = playing ∧
        (firstClick sampleFlagged = true ∨
         ∃ q, (satisfiedClue sampleFlagged q ∨ forcedClue sampleFlagged q) ∧
              hasHiddenNeighbour sampleFlagged q)) ∧
       (∀ l, gameStatus sampleFlagged = playing → findSafeMoves sampleFlagged = Ok l →
             l ≠ [] → r = true).
Proof.
  apply (isBoardSolvable_iff sampleFlagged).
  split; [done|]. by repeat constructor.
Defined.

(** ** Mine clusters *)

Lemma length_bind_le {A B : Type} (f : A -> list B) (k : nat) (l : list A) :
  (∀ x, length (f x) ≤ k)%nat → (length (l ≫= f) ≤ length l * k)%nat.
Proof.
  intros Hf. induction l as [|x l IH]; [done|].
  change ((x :: l) ≫= f) with (f x ++ (l ≫= f)).
  rewrite length_app. specialize (Hf x). simpl. lia.
Qed.

Lemma length_clusterPushes b pos : (length (clusterPushes b pos) ≤ 9)%nat.
Proof.
  unfold clusterPushes.
  etransitivity; [apply (length_bind_le _ 3)|done].
  intros dr. etransitivity; [apply (length_bind_le _ 1)|done].
  intros dc. cbv zeta.
  match goal with |- context [if ?c then _ else _] => destruct c end; simpl; lia.
Qed.

Lemma clusterPushes_inBounds b pos q :
  q ∈ clusterPushes b pos → inBounds b (row q) (col q) = true.
Proof.
  unfold clusterPushes.
  intros (dr & Hq & _)%list_elem_of_bind. apply list_elem_of_bind in Hq as (dc & Hq & _).
  cbv zeta in Hq. unfold inBounds.
  match type of Hq with context [if ?c then _ else _] => destruct c eqn:E end;
    [|by apply elem_of_nil in Hq].
  by apply list_elem_of_singleton in Hq as ->.
Qed.

Lemma minesToVisit_add b visited pos :
  inBounds b (row pos) (col pos) = true → mineAt b pos = true →
  posKey pos ∉ visited →
  S (minesToVisit b ({[posKey pos]} ∪ visited)) = minesToVisit b visited.
Proof.
  intros Hin Hmine Hnew. unfold minesToVisit.
  pose proof (filter_count_change
                (fun q => mineAt b q = true ∧ posKey q ∉ visited)
                (fun q => mineAt b q = true ∧ posKey q ∉ {[posKey pos]} ∪ visited)
                (gridPositions (height b) (width b)) pos) as Hcount.
  cbv beta in Hcount.
  rewrite decide_True in Hcount by done.
  rewrite decide_False in Hcount.
  2:{ intros [_ Hno]. apply Hno, elem_of_union. left. by apply elem_of_singleton. }
  assert (∀ q, q ∈ gridPositions (height b) (width b) → q ≠ pos →
               (mineAt b q = true ∧ posKey q ∉ visited) ↔
               (mineAt b q = true ∧ posKey q ∉ {[posKey pos]} ∪ visited)) as Hsame.
  { intros q _ Hne. rewrite not_elem_of_union, not_elem_of_singleton.
    split; [|tauto]. intros [? ?]. split; [done|]. split; [|done].
    intros Heq. by apply Hne, posKey_inj. }
  specialize (Hcount (NoDup_gridPositions _ _)
                (proj2 (elem_of_gridPositions_inBounds b pos) Hin) Hsame).
  lia.
Qed.

Lemma minesToVisit_le b visited :
  (minesToVisit b visited ≤ length (gridPositions (height b) (width b)))%nat.
Proof. apply length_filter. Qed.

Lemma size_mine_keys (b : BoardState) (visited : gset (Z * Z)) :
  (∀ k, k ∈ visited → isMineKey b k) → (size visited ≤ minesOnBoard b)%nat.
Proof.
  intros Hkeys. unfold minesOnBoard.
  set (ms := filter (fun q => mineAt b q = true) (gridPositions (height b) (width b))).
  assert (NoDup (posKey <$> ms)) as Hnd.
  { apply NoDup_fmap_2_strong; [|apply NoDup_filter, NoDup_gridPositions].
    intros p q _ _. apply posKey_inj. }
  rewrite <- (length_fmap posKey ms), <- (size_list_to_set (C := gset (Z * Z)) _ Hnd).
  apply subseteq_size. intros k Hk. apply elem_of_list_to_set.
  destruct (Hkeys k Hk) as (q & <- & Hin & Hmine).
  apply list_elem_of_fmap_2, list_elem_of_filter. split; [done|].
  by apply elem_of_gridPositions_inBounds.
Qed.

Section Cluster.
Variable b : BoardState.
Hypothesis b_shape : well_formed b.

Lemma clusterLoop_spec fuel : ∀ stack visited n,
  (∀ q, q ∈ stack → inBounds b (row q) (col q) = true) →
  (∀ k, k ∈ visited → isMineKey b k) →
  (length stack + 10 * minesToVisit b visited ≤ fuel)%nat →
  ∃ n' visited',
    clusterLoop fuel b stack visited n = Ok (n', visited') ∧
    visited ⊆ visited' ∧ (∀ k, k ∈ visited' → isMineKey b k) ∧
    n' - n = Z.of_nat (size visited') - Z.of_nat (size visited) ∧
    (∀ q, q ∈ stack → mineAt b q = true → posKey q ∈ visited').
Proof.
  induction fuel as [|fuel IH]; intros stack visited n Hstack Hkeys Hfuel.
  { destruct stack; [|simpl in Hfuel; lia].
    exists n, visited. split; [done|]. split; [done|]. split; [done|].
    split; [lia|]. by intros q ?%elem_of_nil. }
  destruct stack as [|pos stack].
  { exists n, visited. split; [done|]. split; [done|]. split; [done|].
    split; [lia|]. by intros q ?%elem_of_nil. }
  simpl. simpl in Hfuel.
  assert (∀ q, q ∈ stack → inBounds b (row q) (col q) = true) as Hstack'
    by (intros q Hq; apply Hstack; by right).
  case_bool_decide as Hseen.
  { destruct (IH stack visited n) as (n' & visited' & Hrun & Hsub & Hkeys' & Hsize & Hall);
      [done|done|lia|].
    exists n', visited'. do 4 (split; [done|]).
    intros q [->|Hq]%elem_of_cons Hq'; [by apply Hsub|by apply Hall]. }
  destruct (getCell_well_formed b pos b_shape) as [c Hc]; [apply Hstack; left|].
  rewrite Hc. simpl. destruct (hasMine c) eqn:Hm; simpl.
  2:{ destruct (IH stack visited n) as (n' & visited' & Hrun & Hsub & Hkeys' & Hsize & Hall);
        [done|done|lia|].
      exists n', visited'. do 4 (split; [done|]).
      intros q [->|Hq]%elem_of_cons Hq'; [|by apply Hall].
      rewrite (mineAt_Ok b pos c Hc) in Hq'. congruence. }
  assert (inBounds b (row pos) (col pos) = true) as Hin by (apply Hstack; left).
  assert (mineAt b pos = true) as Hmine by (by rewrite (mineAt_Ok b pos c Hc)).
  pose proof (minesToVisit_add b visited pos Hin Hmine Hseen) as Htodo.
  destruct (IH (reverse (clusterPushes b pos) ++ stack) ({[posKey pos]} ∪ visited) (n + 1))
    as (n' & visited' & Hrun & Hsub & Hkeys' & Hsize & Hall).
  - intros q [Hq|Hq]%elem_of_app; [|by apply Hstack'].
    rewrite elem_of_reverse in Hq. by eapply clusterPushes_inBounds.
  - intros k [->%elem_of_singleton|Hk]%elem_of_union; [|by apply Hkeys].
    exists pos. by repeat split.
  - rewrite length_app, length_reverse.
    pose proof (length_clusterPushes b pos). lia.
  - exists n', visited'. split; [done|]. split; [|split; [done|split]].
    + intros k Hk. apply Hsub, elem_of_union. by right.
    + rewrite size_union in Hsize
        by (intros k ->%elem_of_singleton Hk; done).
      rewrite size_singleton in Hsize. lia.
    + intros q [->|Hq]%elem_of_cons Hq'.
      * apply Hsub, elem_of_union. left. by apply elem_of_singleton.
      * apply Hall; [|done]. apply elem_of_app. by right.
Qed.

(** Nothing happens on a stack of cells that hold no mine or are visited. *)
Lemma clusterLoop_idle fuel : ∀ stack visited n,
  (length stack ≤ fuel)%nat →
  (∀ q, q ∈ stack → inBounds b (row q) (col q) = true ∧
                    (mineAt b q = false ∨ posKey q ∈ visited)) →
  clusterLoop fuel b stack visited n = Ok (n, visited).
Proof.
  induction fuel as [|fuel IH]; intros stack visited n Hfuel Hidle.
  { by destruct stack; [|simpl in Hfuel; lia]. }
  destruct stack as [|pos stack]; [done|]. simpl. simpl in Hfuel.
  assert (clusterLoop fuel b stack visited n = Ok (n, visited)) as Hrest.
  { apply IH; [lia|]. intros q Hq. apply Hidle. by right. }
  destruct (Hidle pos) as [Hin Hpos]; [left|].
  case_bool_decide as Hseen; [done|].
  destruct (getCell_well_formed b pos b_shape Hin) as [c Hc].
  rewrite Hc. simpl. rewrite <- (mineAt_Ok b pos c Hc).
  destruct Hpos as [->|?]; done.
Qed.

Lemma getClusterSize_spec start visited :
  inBounds b (row start) (col start) = true →
  (∀ k, k ∈ visited → isMineKey b k) →
  ∃ n visited',
    getClusterSize b start visited = Ok (n, visited') ∧
    visited ⊆ visited' ∧ (∀ k, k ∈ visited' → isMineKey b k) ∧
    n = Z.of_nat (size visited') - Z.of_nat (size visited) ∧
    (mineAt b start = true → posKey start ∈ visited').
Proof.
  intros Hin Hkeys. unfold getClusterSize, clusterFuel.
  destruct (clusterLoop_spec (S (10 * length (gridPositions (height b) (width b))))
              [start] visited 0) as (n & visited' & Hrun & Hsub & Hkeys' & Hsize & Hall).
  - by intros q ->%list_elem_of_singleton.
  - done.
  - pose proof (minesToVisit_le b visited). simpl. lia.
  - exists n, visited'. split; [done|]. split; [done|]. split; [done|]. split; [lia|].
    apply Hall. left.
Qed.

(** X27.  On a board of [height] rows of [width] cells the cluster search
    always ends and nothing throws: [getClusterSize] returns the number of
    mines it adds to [visited] (at least one exactly when it starts on a
    mine not yet visited), and [hasExcessiveClustering] can answer [true]
    only when the board holds at least four mines for each of the
    [floor(mineCount / 8) + 1] clusters that takes. *)
Theorem clustering_needs_mines :
  (∀ start, inBounds b (row start) (col start) = true →
     ∃ n visited', getClusterSize b start ∅ = Ok (n, visited') ∧
                   n = Z.of_nat (size visited') ∧
                   0 ≤ n ≤ Z.of_nat (minesOnBoard b) ∧
                   (1 ≤ n ↔ mineAt b start = true)) ∧
  ∃ r, hasExcessiveClustering b = Ok r ∧
       (r = true → 4 * (mineCount b / 8 + 1) ≤ Z.of_nat (minesOnBoard b)).
Proof.
  split.
  - intros start Hin.
    destruct (getClusterSize_spec start ∅ Hin) as (n & visited' & Hrun & _ & Hkeys & Hn & Hs).
    { intros k Hk. by apply elem_of_empty in Hk. }
    exists n, visited'. split; [done|]. rewrite size_empty in Hn.
    split; [lia|]. pose proof (size_mine_keys b visited' Hkeys). split; [lia|].
    split.
    + intros Hpos. destruct (mineAt b start) eqn:Hmine; [done|]. exfalso.
      unfold getClusterSize, clusterFuel in Hrun.
      rewrite clusterLoop_idle in Hrun.
      * injection Hrun as <- _. lia.
      * simpl. lia.
      * intros q ->%list_elem_of_singleton. split; [done|by left].
    + intros Hmine. specialize (Hs Hmine).
      assert (size visited' ≠ 0%nat); [|lia].
      intros Hz. apply size_empty_inv in Hz. by apply Hz in Hs.
  - unfold hasExcessiveClustering.
    destruct (foldR_preserves
                (fun (st : Z * gset (Z * Z)) q =>
                   let '(clusterCount, visited) := st in
                   c ← getCell (cells b) q;
                   if hasMine c && negb (bool_decide (posKey q ∈ visited)) then
                     cl ← getClusterSize b q visited;
                     Ok (if cl.1 >=? 4 then clusterCount + 1 else clusterCount, cl.2)
                   else Ok (clusterCount, visited))
                (fun st => 4 * st.1 ≤ Z.of_nat (size st.2) ∧
                           ∀ k, k ∈ st.2 → isMineKey b k)
                (gridPositions (height b) (width b)) (0, ∅))
      as ([count visited] & -> & Hcount & Hkeys).
    + split; [cbn [fst snd]; lia|].
      intros k Hk. by apply elem_of_empty in Hk.
    + intros q [count visited] Hq%elem_of_gridPositions_inBounds [Hcount Hkeys].
      simpl in Hcount, Hkeys.
      destruct (getCell_well_formed b q b_shape Hq) as [c Hc]. rewrite Hc. simpl.
      destruct (hasMine c && negb (bool_decide (posKey q ∈ visited)));
        [|eexists; split; [done|]; by split].
      destruct (getClusterSize_spec q visited Hq Hkeys)
        as (n & visited' & -> & Hsub & Hkeys' & Hn & _).
      simpl. eexists. split; [done|]. simpl. split; [|done].
      pose proof (subseteq_size _ _ Hsub).
      destruct (Z.geb_spec n 4); lia.
    + simpl in *. eexists. split; [done|]. intros Hgt%Z.gtb_gt.
      pose proof (size_mine_keys b visited Hkeys).
      revert Hgt. generalize (mineCount b / 8). intros m Hgt. lia.
Qed.

End Cluster.

Lemma clustering_needs_mines_witness :
  (∀ start, inBounds sampleBoard (row start) (col start) = true →
     ∃ n visited', getClusterSize sampleBoard start ∅ = Ok (n, visited') ∧
                   n = Z.of_nat (size visited') ∧
                   0 ≤ n ≤ Z.of_nat (minesOnBoard sampleBoard) ∧
                   (1 ≤ n ↔ mineAt sampleBoard start = true)) ∧
  ∃ r, hasExcessiveClustering sampleBoard = Ok r ∧
       (r = true →
        4 * (mineCount sampleBoard / 8 + 1) ≤ Z.of_nat (minesOnBoard sampleBoard)).
Proof. exact (clustering_needs_mines sampleBoard sampleBoard_well_formed). Defined.

(** ** Two ways of keeping the statistics *)

(** X28.  [updatePlayerStats] of the storage module and
    [updatePerformanceMetrics] of the adapter, applied to the same stored
    statistics and the same result, agree on the games, the wins, the
    hints, the preferred difficulty and (with a number of games that is
    not negative) the average time; on the streak they agree after a win
    exactly when the streak was not negative, and never after a loss,
    which the one records as 0 and the other as a negative number. *)
Theorem two_ways_to_update_statistics (accepted : bool) (gameResult : GameResult)
    (st : Store) :
  let stored := (updatePlayerStats accepted gameResult st).1 in
  let adapted := updatePerformanceMetrics (loadPlayerStats st) gameResult in
  gamesPlayed stored = gamesPlayed adapted ∧
  gamesWon stored = gamesWon adapted ∧
  hintsUsed stored = hintsUsed adapted ∧
  preferredDifficulty stored = preferredDifficulty adapted ∧
  (0 ≤ gamesPlayed (loadPlayerStats st) → averageTime stored = averageTime adapted) ∧
  (r_won gameResult = true →
   (currentStreak stored = currentStreak adapted ↔
    0 ≤ currentStreak (loadPlayerStats st))) ∧
  (r_won gameResult = false →
   currentStreak stored = 0 ∧ currentStreak adapted < 0) ∧
  (updatePlayerStats accepted gameResult st).2
  = (if accepted then Some stored else st).
Proof.
  intros stored adapted. subst stored adapted.
  unfold updatePlayerStats, updatePerformanceMetrics, calculateNewAverageTime,
    savePlayerStats.
  set (s := loadPlayerStats st). simpl.
  do 4 (split; [done|]). split; [|split; [|split]].
  - intros Hp. destruct (Z.eqb_spec (gamesPlayed s) 0) as [Hz|Hnz].
    + rewrite Hz. done.
    + destruct (Z.gtb_spec (gamesPlayed s) 0); [done|lia].
  - intros ->. lia.
  - intros ->. lia.
  - by destruct accepted.
Qed.

(** ** Flags and reveals *)

(** X29.  A reveal never removes a flag by itself: a flagged cell is the
    same cell afterwards, unless the reveal hit a mine and lost the game,
    in which case the flagged cells that hold a mine are shown as mines
    and the wrongly flagged ones stay flagged. *)
Theorem reveal_keeps_flags (b b' : BoardState) (p q : Position) (c : Cell) :
  well_formed b → revealCell b p = Ok b' →
  getCell (cells b) q = Ok c → state c = flagged →
  getCell (cells b') q = Ok c ∨
  (gameStatus b' = lost ∧ hasMine c = true ∧
   getCell (cells b') q = Ok (set_state mine c)).
Proof.
  intros Hwf Hrev Hc Hs.
  destruct (outOfBounds b p) eqn:Hb.
  { left. unfold revealCell in Hrev. rewrite Hb in Hrev. congruence. }
  assert (inBounds b (row p) (col p) = true) as Hin.
  { rewrite outOfBounds_inBounds in Hb. by apply negb_false_iff in Hb. }
  destruct (getCell_well_formed b p Hwf Hin) as [cp Hcp].
  destruct (decide (state cp = revealed ∨ state cp = flagged)) as [Hl|Hl].
  { left. rewrite (revealCell_locked b p cp Hcp Hl) in Hrev. congruence. }
  assert (state cp ≠ revealed ∧ state cp ≠ flagged) as [Hr Hf] by tauto.
  assert (q ≠ p) as Hne by (intros ->; congruence).
  destruct (hasMine cp) eqn:Hm.
  - destruct (revealCell_mine b p cp Hwf Hb Hcp Hr Hf Hm)
      as (b1 & Hrev1 & _ & Hfr & _ & Hq).
    assert (b1 = b') as -> by congruence.
    rewrite (Hq q c Hne Hc). unfold showMine. rewrite Hs.
    destruct (hasMine c) eqn:Hmc; simpl; [right|by left].
    split; [by rewrite Hfr|]. done.
  - left.
    destruct (revealCell_safe b p cp Hwf Hb Hcp Hr Hf Hm)
      as (nb & Hrev1 & _ & _ & Hcells & _).
    assert (cells b' = cells nb) as ->.
    { rewrite Hrev1 in Hrev. injection Hrev as <-.
      by destruct (revealedCount nb =? width b * height b - mineCount b). }
    destruct (Hcells q c Hc) as [?|[_ [->|(Hh & _)]]]; [done|done|congruence].
Qed.

Lemma reveal_keeps_flags_witness :
  ∃ b', revealCell sampleStrip (mkPosition 0 5) = Ok b' ∧
        (getCell (cells b') (mkPosition 0 3)
         = Ok (mkCell flagged false 0 (mkPosition 0 3)) ∨
         (gameStatus b' = lost ∧ hasMine (mkCell flagged false 0 (mkPosition 0 3)) = true ∧
          getCell (cells b') (mkPosition 0 3)
          = Ok (set_state mine (mkCell flagged false 0 (mkPosition 0 3))))).
Proof.
  eexists. split; [vm_compute; reflexivity|].
  apply (reveal_keeps_flags sampleStrip _ (mkPosition 0 5) (mkPosition 0 3)).
  - exact sampleStrip_well_formed.
  - vm_compute. reflexivity.
  - reflexivity.
  - reflexivity.
Defined.

(** ** Recording games through the adapter *)

Lemma adaptGames_accepted games : ∀ st,
  Forall (fun g => g.1 = true) games →
  loadPlayerStats (adaptGames games st)
  = foldl updatePerformanceMetrics (loadPlayerStats st) games.*2.
Proof.
  induction games as [|[accepted r] games IH]; intros st Hall; [done|].
  apply Forall_cons in Hall as [Hacc Hall]. simpl in Hacc. subst accepted.
  unfold adaptGames in *. simpl. by rewrite IH.
Qed.

(** X30.  Recorded through the adapter's [adjustDifficulty], with every
    write accepted, a series that ends with three or more losses in a row
    leaves a streak of at most -3 in the store: the adapter then sees a
    declining trend and both streak adjustments of [calculateMineCount]
    are negative.  (Recorded through [updatePlayerStats] they never are.) *)
Theorem losing_streak_through_the_adapter (games losses : list (bool * GameResult))
    (st : Store) :
  Forall (fun g => g.1 = true) (games ++ losses) →
  Forall (fun g => r_won g.2 = false) losses → (3 ≤ length losses)%nat →
  let stats := loadPlayerStats (adaptGames (games ++ losses) st) in
  currentStreak stats ≤ -3 ∧
  (analyzeRecentPerformance stats).1 = declining ∧
  trendAdjustment stats = -1 ∧ streakAdjustment stats = -2.
Proof.
  intros Hacc Hlost Hlen stats.
  assert (currentStreak stats ≤ -3) as Hstreak.
  { subst stats. rewrite (adaptGames_accepted _ st Hacc), fmap_app, foldl_app.
    rewrite updatePerformanceMetrics_losses.
    - rewrite length_fmap. lia.
    - destruct losses; [simpl in Hlen; lia|done].
    - apply Forall_fmap. eapply Forall_impl; [exact Hlost|]. done. }
  split; [done|].
  unfold analyzeRecentPerformance, trendAdjustment, streakAdjustment.
  destruct (Z.gtb_spec (currentStreak stats) 2); [lia|].
  destruct (Z.ltb_spec (currentStreak stats) (-2)); [|lia].
  destruct (Z.geb_spec (currentStreak stats) 5); [lia|].
  destruct (Z.leb_spec (currentStreak stats) (-3)); [done|lia].
Qed.

Lemma losing_streak_through_the_adapter_witness :
  currentStreak (loadPlayerStats (adaptGames
     ([] ++ replicate 3 (true, mkResult false 0 0 (9, 9) 10)) None)) ≤ -3 ∧
  (analyzeRecentPerformance (loadPlayerStats (adaptGames
     ([] ++ replicate 3 (true, mkResult false 0 0 (9, 9) 10)) None))).1 = declining ∧
  trendAdjustment (loadPlayerStats (adaptGames
     ([] ++ replicate 3 (true, mkResult false 0 0 (9, 9) 10)) None)) = -1 ∧
  streakAdjustment (loadPlayerStats (adaptGames
     ([] ++ replicate 3 (true, mkResult false 0 0 (9, 9) 10)) None)) = -2.
Proof.
  apply (losing_streak_through_the_adapter []
           (replicate 3 (true, mkResult false 0 0 (9, 9) 10)) None).
  - by repeat constructor.
  - by repeat constructor.
  - simpl. lia.
Defined.
